(** * The notification mailer of synapse/push/mailer.py

    A shallow embedding of the digest-building part of [Mailer]: grouping of
    push actions per room, the room ordering, the per-room variables with the
    merge of overlapping notifications, the message variables and the summary
    line.  Python dictionaries are finite maps, Python exceptions are the
    [Err] results of an error monad, and the homeserver's services (event
    store, state store, visibility filter, name helpers) are the fields of a
    record of capabilities that every method receives. *)

From Stdlib Require Import ZArith Lia Ascii.
From stdpp Require Import gmap list strings sorting.

Local Open Scope Z_scope.

(** ** Python values *)

(** A Python [str] is a sequence of Unicode code points. *)
Abbreviation pystr := (list N).

(** String literals of the source, written in ASCII. *)
Definition lit (s : string) : pystr :=
  (fun a => Ascii.N_of_ascii a) <$> String.list_ascii_of_string s.

(** [ord(c)] *)
Definition ord (c : N) : Z := Z.of_N c.

(** The exceptions that the modelled code raises or lets through. *)
Inductive exn :=
  | KeyError
  | IndexError
  | StoreError
  | SynapseError
  | TypeError.

Inductive result (A : Type) :=
  | Ok (a : A)
  | Err (e : exn).
Arguments Ok {A} a.
Arguments Err {A} e.

#[global] Instance result_ret : MRet result := fun A a => Ok a.
#[global] Instance result_bind : MBind result := fun A B f m =>
  match m with
  | Ok a => f a
  | Err e => Err e
  end.

Definition is_Ok {A} (r : result A) : Prop := exists a, r = Ok a.

(** [d[k]] on a dictionary: a missing key raises [KeyError]. *)
Definition getitem `{Countable K} {V} (d : gmap K V) (k : K) : result V :=
  match d !! k with
  | Some v => Ok v
  | None => Err KeyError
  end.

(** A [for] loop whose body may raise, threading the loop state. *)
Fixpoint foldlM {A B} (f : B -> A -> result B) (acc : B) (l : list A) : result B :=
  match l with
  | [] => Ok acc
  | x :: rest => acc' ← f acc x; foldlM f acc' rest
  end.

(** The JSON values found in event contents, as far as the mailer inspects
    them; [JNull] is also what [dict.get] gives for a missing key. *)
Inductive json :=
  | JNull
  | JBool (b : bool)
  | JNum (z : Z)
  | JStr (s : pystr).

#[global] Instance json_eq_dec : EqDecision json.
Proof. solve_decision. Defined.

(** Python truthiness of such a value. *)
Definition truthy (j : json) : bool :=
  match j with
  | JNull => false
  | JBool b => b
  | JNum z => negb (z =? 0)
  | JStr s => negb (bool_decide (s = []))
  end.

(** [content.get(key)] *)
Definition content_get (content : gmap pystr json) (key : pystr) : json :=
  default JNull (content !! key).

(** ** Module-level helpers *)

Definition CONTEXT_BEFORE : nat := 1.
Definition CONTEXT_AFTER : nat := 1.

Section deduped.
Context `{Countable A}.

(** The loop of [deduped_ordered_list], with its two locals. *)
Fixpoint deduped_loop (it : list A) (seen : gset A) (ret : list A) : list A :=
  match it with
  | [] => ret
  | item :: rest =>
      if decide (item ∈ seen)
      then deduped_loop rest seen ret
      else deduped_loop rest ({[item]} ∪ seen) (ret ++ [item])
  end.

Definition deduped_ordered_list (it : list A) : list A :=
  deduped_loop it ∅ [].
End deduped.

(** [string_ordinal_total]: the accumulating loop [tot += ord(c)]. *)
Fixpoint ordinal_loop (s : pystr) (tot : Z) : Z :=
  match s with
  | [] => tot
  | c :: rest => ordinal_loop rest (tot + ord c)
  end.

Definition string_ordinal_total (s : pystr) : Z := ordinal_loop s 0.

(** The sum of the code points of a string, as a specification: the empty
    string sums to zero and a character adds its code point to the sum of
    the rest. *)
Fixpoint codepoint_sum (s : pystr) : Z :=
  match s with
  | [] => 0
  | c :: rest => Z.of_N c + codepoint_sum rest
  end.

(** ** Data model *)

(** A push action: the dictionary with keys [room_id], [event_id] and
    [received_ts] (which may be [None]). *)
Record PushAction := {
  pa_room_id : pystr;
  pa_event_id : pystr;
  pa_received_ts : option Z;
}.

(** An event, with the attributes the mailer reads. *)
Record Event := {
  ev_type : pystr;
  ev_event_id : pystr;
  ev_sender : pystr;
  ev_content : gmap pystr json;
  ev_origin_server_ts : Z;
}.

(** The current state of a room: [(type, state_key)] to event id. *)
Abbreviation StateIds := (gmap (pystr * pystr) pystr).

(** The result of [get_events_around]. *)
Record EventContext := {
  events_before : list Event;
  events_after : list Event;
}.

(** The dictionary built by [get_message_vars]; the keys that are set only
    for some message types are optional. *)
Record MessageVars := {
  mv_msgtype : json;
  mv_is_historical : bool;
  mv_id : pystr;
  mv_ts : Z;
  mv_sender_name : option pystr;
  mv_sender_avatar_url : json;
  mv_sender_hash : Z;
  mv_format : option json;
  mv_body_text_html : option pystr;
  mv_image_url : option json;
  mv_body_text_plain : option json;
}.

(** The dictionary built by [get_notif_vars]; it always has key [messages]. *)
Record NotifVars := {
  nv_link : pystr;
  nv_ts : option Z;
  nv_messages : list MessageVars;
}.

(** The dictionary built by [get_room_vars]. *)
Record RoomVars := {
  rv_title : option pystr;
  rv_hash : Z;
  rv_notifs : list NotifVars;
  rv_invite : bool;
  rv_link : pystr;
}.

(** The [reason] dictionary: its [room_id], and the [room_name] that
    [send_notification_mail] stores into it. *)
Record Reason := {
  reason_room_id : pystr;
  reason_room_name : option pystr;
}.

(** The subject line: which template of [email_subjects] is formatted, and
    with which fields ([None] fields are Python's [None]). *)
Inductive SummaryText :=
  | invite_from_person (person : option pystr) (app : pystr)
  | invite_from_person_to_room (person : option pystr) (room : pystr) (app : pystr)
  | message_from_person_in_room (person : pystr) (room : pystr) (app : pystr)
  | message_from_person (person : pystr) (app : pystr)
  | messages_in_room (room : pystr) (app : pystr)
  | messages_from_person (person : pystr) (app : pystr)
  | messages_in_room_and_others (room : pystr) (app : pystr)
  | messages_from_person_and_others (person : pystr) (app : pystr).

(** The arguments of the final [send_email] call. *)
Record TemplateVars := {
  tv_user_display_name : pystr;
  tv_unsubscribe_link : pystr;
  tv_summary_text : option SummaryText;
  tv_app_name : pystr;
  tv_rooms : list RoomVars;
  tv_reason : Reason;
}.

Record Email := {
  email_to : pystr;
  email_subject : option SummaryText;
  email_vars : TemplateVars;
}.

(** The homeserver as the mailer sees it: configuration values and the
    collaborators it calls.  None of them is defined in mailer.py; a call
    that can raise returns a [result]. *)
Record Homeserver := {
  app_name : pystr;
  email_riot_base_url : option pystr;
  public_baseurl : pystr;
  (* self.store *)
  get_event : pystr -> result Event;
  get_events : list pystr -> result (gmap pystr Event);
  get_events_around : pystr -> pystr -> nat -> nat -> result EventContext;
  get_current_state_ids : pystr -> result StateIds;
  get_profile_displayname : pystr -> result (option pystr);
  (* synapse.api.constants: EventTypes.Message *)
  EventTypes_Message : pystr;
  (* synapse.visibility *)
  filter_events_for_client : pystr -> list Event -> result (list Event);
  (* synapse.types: UserID.from_string(user_id).localpart *)
  localpart : pystr -> result pystr;
  (* synapse.push.presentable_names; the third argument of
     calculate_room_name is fallback_to_members, None when not passed *)
  calculate_room_name : StateIds -> pystr -> option bool -> result (option pystr);
  name_from_member_event : Event -> option pystr;
  descriptor_from_member_events : list Event -> pystr;
  (* bleach and jinja2; bleach raises on a value that is not a string *)
  safe_markup : json -> result pystr;
  safe_text : json -> result pystr;
  (* macaroon generator and urllib *)
  generate_delete_pusher_token : pystr -> pystr;
  urlencode : list (pystr * pystr) -> pystr;
}.

(** ** The merge of overlapping notifications

    The body of the loop of [get_room_vars], on the list
    [room_vars["notifs"]]. *)

(** [list(filter(lambda pm: pm["id"] == message["id"], prev_messages))] *)
Definition matching (mid : pystr) (prev_messages : list MessageVars)
  : list MessageVars :=
  filter (fun pm => mv_id pm = mid) prev_messages.

Definition set_is_historical (b : bool) (m : MessageVars) : MessageVars :=
  {| mv_msgtype := mv_msgtype m; mv_is_historical := b; mv_id := mv_id m;
     mv_ts := mv_ts m; mv_sender_name := mv_sender_name m;
     mv_sender_avatar_url := mv_sender_avatar_url m;
     mv_sender_hash := mv_sender_hash m; mv_format := mv_format m;
     mv_body_text_html := mv_body_text_html m;
     mv_image_url := mv_image_url m;
     mv_body_text_plain := mv_body_text_plain m |}.

(** [pm[0]["is_historical"] = False]: [pm[0]] is the first dictionary of
    [prev_messages] with the given id, and it is updated in place. *)
Fixpoint unset_historical (mid : pystr) (prev_messages : list MessageVars)
  : list MessageVars :=
  match prev_messages with
  | [] => []
  | pm :: rest =>
      if decide (mv_id pm = mid)
      then set_is_historical false pm :: rest
      else pm :: unset_historical mid rest
  end.

(** [for message in notifvars["messages"]: ...], with the two variables the
    loop updates: the list object [prev_messages] and the flag [merge]. *)
Fixpoint merge_loop (messages prev_messages : list MessageVars) (merge : bool)
  : list MessageVars * bool :=
  match messages with
  | [] => (prev_messages, merge)
  | message :: rest =>
      match matching (mv_id message) prev_messages with
      | _ :: _ =>
          let prev_messages' :=
            if mv_is_historical message then prev_messages
            else unset_historical (mv_id message) prev_messages in
          merge_loop rest prev_messages' true
      | [] =>
          if merge
          then merge_loop rest (prev_messages ++ [message]) merge
          else merge_loop rest prev_messages merge
      end
  end.

Definition set_messages (ms : list MessageVars) (n : NotifVars) : NotifVars :=
  {| nv_link := nv_link n; nv_ts := nv_ts n; nv_messages := ms |}.

(** One iteration of [for n in notifs] after [notifvars] is computed:
    [room_vars["notifs"][-1]] is the last element, updated in place. *)
Definition merge_notif (notifs : list NotifVars) (notifvars : NotifVars)
  : list NotifVars :=
  match last notifs with
  | Some prev =>
      let '(prev_messages, merge) :=
        merge_loop (nv_messages notifvars) (nv_messages prev) false in
      let notifs' :=
        <[pred (length notifs) := set_messages prev_messages prev]> notifs in
      if merge then notifs' else notifs' ++ [notifvars]
  | None => notifs ++ [notifvars]
  end.

(** ** The list sort of [send_notification_mail]

    [list.sort(key=...)] computes the key of every element first and then
    sorts stably by key, smallest first. *)

Fixpoint insert_by_key {A} (kx : Z * A) (l : list (Z * A)) : list (Z * A) :=
  match l with
  | [] => [kx]
  | ky :: rest =>
      if kx.1 <=? ky.1 then kx :: ky :: rest
      else ky :: insert_by_key kx rest
  end.

Fixpoint sort_decorated {A} (l : list (Z * A)) : list (Z * A) :=
  match l with
  | [] => []
  | kx :: rest => insert_by_key kx (sort_decorated rest)
  end.

Definition sort_by_key {A} (key : A -> result Z) (l : list A) : result (list A) :=
  keys ← mapM key l;
  mret ((sort_decorated (zip keys l)).*2).

(** ** The methods of [Mailer] *)

Section Mailer.
Variable hs : Homeserver.

Definition make_room_link (room_id : pystr) : pystr :=
  let base_url :=
    match email_riot_base_url hs with
    | Some url =>
        if bool_decide (url = []) then
          if bool_decide (app_name hs = lit "Vector")
          then lit "https://vector.im/beta/#/room"
          else lit "https://matrix.to/#"
        else url ++ lit "/#/room"
    | None =>
        if bool_decide (app_name hs = lit "Vector")
        then lit "https://vector.im/beta/#/room"
        else lit "https://matrix.to/#"
    end in
  base_url ++ lit "/" ++ room_id.

Definition make_notif_link (notif : PushAction) : pystr :=
  let tail := pa_room_id notif ++ lit "/" ++ pa_event_id notif in
  let default_link :=
    if bool_decide (app_name hs = lit "Vector")
    then lit "https://vector.im/beta/#/room/" ++ tail
    else lit "https://matrix.to/#/" ++ tail in
  match email_riot_base_url hs with
  | Some url =>
      if bool_decide (url = []) then default_link
      else url ++ lit "/#/room/" ++ tail
  | None => default_link
  end.

Definition make_unsubscribe_link (user_id app_id email_address : pystr) : pystr :=
  let params :=
    [(lit "access_token", generate_delete_pusher_token hs user_id);
     (lit "app_id", app_id);
     (lit "pushkey", email_address)] in
  public_baseurl hs ++ lit "_matrix/client/unstable/pushers/remove?"
    ++ urlencode hs params.

Definition add_text_message_vars (messagevars : MessageVars) (event : Event)
  : result MessageVars :=
  let msgformat := content_get (ev_content event) (lit "format") in
  let formatted_body := content_get (ev_content event) (lit "formatted_body") in
  let body := content_get (ev_content event) (lit "body") in
  html ←
    (if bool_decide (msgformat = JStr (lit "org.matrix.custom.html"))
        && truthy formatted_body
     then html ← safe_markup hs formatted_body; mret (Some html)
     else if truthy body then html ← safe_text hs body; mret (Some html)
     else mret (mv_body_text_html messagevars));
  mret {| mv_msgtype := mv_msgtype messagevars;
          mv_is_historical := mv_is_historical messagevars;
          mv_id := mv_id messagevars; mv_ts := mv_ts messagevars;
          mv_sender_name := mv_sender_name messagevars;
          mv_sender_avatar_url := mv_sender_avatar_url messagevars;
          mv_sender_hash := mv_sender_hash messagevars;
          mv_format := Some msgformat;
          mv_body_text_html := html;
          mv_image_url := mv_image_url messagevars;
          mv_body_text_plain := mv_body_text_plain messagevars |}.

Definition add_image_message_vars (messagevars : MessageVars) (event : Event)
  : result MessageVars :=
  url ← getitem (ev_content event) (lit "url");
  mret {| mv_msgtype := mv_msgtype messagevars;
          mv_is_historical := mv_is_historical messagevars;
          mv_id := mv_id messagevars; mv_ts := mv_ts messagevars;
          mv_sender_name := mv_sender_name messagevars;
          mv_sender_avatar_url := mv_sender_avatar_url messagevars;
          mv_sender_hash := mv_sender_hash messagevars;
          mv_format := mv_format messagevars;
          mv_body_text_html := mv_body_text_html messagevars;
          mv_image_url := Some url;
          mv_body_text_plain := mv_body_text_plain messagevars |}.

(** Returns [None] (Python's bare [return]) for an event that is not a
    message. *)
Definition get_message_vars (notif : PushAction) (event : Event)
    (room_state_ids : StateIds) : result (option MessageVars) :=
  if bool_decide (ev_type event ≠ EventTypes_Message hs) then mret None
  else
    sender_state_event_id ←
      getitem room_state_ids (lit "m.room.member", ev_sender event);
    sender_state_event ← get_event hs sender_state_event_id;
    let sender_name := name_from_member_event hs sender_state_event in
    let sender_avatar_url :=
      content_get (ev_content sender_state_event) (lit "avatar_url") in
    let sender_hash := string_ordinal_total (ev_sender event) in
    let msgtype := content_get (ev_content event) (lit "msgtype") in
    let ret :=
      {| mv_msgtype := msgtype;
         mv_is_historical :=
           bool_decide (ev_event_id event ≠ pa_event_id notif);
         mv_id := ev_event_id event;
         mv_ts := ev_origin_server_ts event;
         mv_sender_name := sender_name;
         mv_sender_avatar_url := sender_avatar_url;
         mv_sender_hash := sender_hash;
         mv_format := None; mv_body_text_html := None;
         mv_image_url := None; mv_body_text_plain := None |} in
    ret ←
      (if bool_decide (msgtype = JStr (lit "m.text"))
       then add_text_message_vars ret event
       else if bool_decide (msgtype = JStr (lit "m.image"))
       then add_image_message_vars ret event
       else mret ret);
    mret (Some
      {| mv_msgtype := mv_msgtype ret;
         mv_is_historical := mv_is_historical ret;
         mv_id := mv_id ret; mv_ts := mv_ts ret;
         mv_sender_name := mv_sender_name ret;
         mv_sender_avatar_url := mv_sender_avatar_url ret;
         mv_sender_hash := mv_sender_hash ret;
         mv_format := mv_format ret;
         mv_body_text_html := mv_body_text_html ret;
         mv_image_url := mv_image_url ret;
         mv_body_text_plain :=
           match ev_content event !! lit "body" with
           | Some body => Some body
           | None => mv_body_text_plain ret
           end |}).

(** The loop body of [get_notif_vars]: append the message variables of
    an event unless they are [None]. *)
Definition append_message_vars (notif : PushAction) (room_state_ids : StateIds)
    (messages : list MessageVars) (event : Event) : result (list MessageVars) :=
  messagevars ← get_message_vars notif event room_state_ids;
  mret match messagevars with
       | Some m => messages ++ [m]
       | None => messages
       end.

Definition get_notif_vars (notif : PushAction) (user_id : pystr)
    (notif_event : Event) (room_state_ids : StateIds) : result NotifVars :=
  results ← get_events_around hs (pa_room_id notif) (pa_event_id notif)
              CONTEXT_BEFORE CONTEXT_AFTER;
  the_events ← filter_events_for_client hs user_id (events_before results);
  let the_events := the_events ++ [notif_event] in
  messages ← foldlM (append_message_vars notif room_state_ids) [] the_events;
  mret {| nv_link := make_notif_link notif;
          nv_ts := pa_received_ts notif;
          nv_messages := messages |}.

(** One iteration of [for n in notifs] in [get_room_vars]. *)
Definition room_notif_step (user_id : pystr) (notif_events : gmap pystr Event)
    (room_state_ids : StateIds) (notifs : list NotifVars) (n : PushAction)
  : result (list NotifVars) :=
  notif_event ← getitem notif_events (pa_event_id n);
  notifvars ← get_notif_vars n user_id notif_event room_state_ids;
  mret (merge_notif notifs notifvars).

Definition get_room_vars (room_id user_id : pystr) (notifs : list PushAction)
    (notif_events : gmap pystr Event) (room_state_ids : StateIds)
  : result RoomVars :=
  my_member_event_id ← getitem room_state_ids (lit "m.room.member", user_id);
  my_member_event ← get_event hs my_member_event_id;
  membership ← getitem (ev_content my_member_event) (lit "membership");
  let is_invite := bool_decide (membership = JStr (lit "invite")) in
  room_name ← calculate_room_name hs room_state_ids user_id None;
  let hash := string_ordinal_total room_id in
  let link := make_room_link room_id in
  if is_invite then
    mret {| rv_title := room_name; rv_hash := hash; rv_notifs := [];
            rv_invite := is_invite; rv_link := link |}
  else
    room_notifs ←
      foldlM (room_notif_step user_id notif_events room_state_ids) [] notifs;
    mret {| rv_title := room_name; rv_hash := hash; rv_notifs := room_notifs;
            rv_invite := is_invite; rv_link := link |}.

(** [{notif_events[n["event_id"]].sender for n in notifs}] as a list *)
Definition sender_ids_of (notif_events : gmap pystr Event)
    (notifs : list PushAction) : result (list pystr) :=
  senders ← mapM (fun n => event ← getitem notif_events (pa_event_id n);
                           mret (ev_sender event)) notifs;
  mret (elements (list_to_set senders : gset pystr)).

(** The description of the senders of a room's notifications, shared by
    the two branches that name the senders.  [room_state_ids[room_id]] is
    looked up once per sender, inside the comprehension. *)
Definition senders_descriptor (room_state_ids : gmap pystr StateIds)
    (room_id : pystr) (notif_events : gmap pystr Event)
    (notifs : list PushAction) : result pystr :=
  sender_ids ← sender_ids_of notif_events notifs;
  member_event_ids ←
    mapM (fun s => room_state ← getitem room_state_ids room_id;
                   getitem room_state (lit "m.room.member", s)) sender_ids;
  member_events ← get_events hs member_event_ids;
  mret (descriptor_from_member_events hs (map_to_list member_events).*2).

(** [make_summary_text]; the result [Ok None] is a call that ends without
    a [return] statement. *)
Definition make_summary_text
    (notifs_by_room : gmap pystr (list PushAction))
    (room_state_ids : gmap pystr StateIds)
    (notif_events : gmap pystr Event) (user_id : pystr) (reason : Reason)
  : result (option SummaryText) :=
  if bool_decide (size notifs_by_room = 1%nat) then
    match map_to_list notifs_by_room with
    | [] => Err IndexError
    | (room_id, room_notifs) :: _ =>
        room_state ← getitem room_state_ids room_id;
        room_name ← calculate_room_name hs room_state user_id (Some false);
        my_member_event_id ← getitem room_state (lit "m.room.member", user_id);
        my_member_event ← get_event hs my_member_event_id;
        membership ← getitem (ev_content my_member_event) (lit "membership");
        if bool_decide (membership = JStr (lit "invite")) then
          inviter_member_event_id ←
            getitem room_state (lit "m.room.member", ev_sender my_member_event);
          inviter_member_event ← get_event hs inviter_member_event_id;
          let inviter_name := name_from_member_event hs inviter_member_event in
          match room_name with
          | None => mret (Some (invite_from_person inviter_name (app_name hs)))
          | Some room =>
              mret (Some (invite_from_person_to_room inviter_name room
                            (app_name hs)))
          end
        else
          match room_notifs with
          | [notif] =>
              event ← getitem notif_events (pa_event_id notif);
              sender_name ←
                match room_state !! (lit "m.room.member", ev_sender event) with
                | Some state_event_id =>
                    state_event ← get_event hs state_event_id;
                    mret (name_from_member_event hs state_event)
                | None => mret None
                end;
              match sender_name, room_name with
              | Some person, Some room =>
                  mret (Some (message_from_person_in_room person room
                                (app_name hs)))
              | Some person, None =>
                  mret (Some (message_from_person person (app_name hs)))
              | None, _ => mret None
              end
          | _ =>
              match room_name with
              | Some room => mret (Some (messages_in_room room (app_name hs)))
              | None =>
                  person ← senders_descriptor room_state_ids room_id
                             notif_events room_notifs;
                  mret (Some (messages_from_person person (app_name hs)))
              end
          end
    end
  else
    match reason_room_name reason with
    | Some room =>
        mret (Some (messages_in_room_and_others room (app_name hs)))
    | None =>
        let room_id := reason_room_id reason in
        room_notifs ← getitem notifs_by_room room_id;
        person ← senders_descriptor room_state_ids room_id
                   notif_events room_notifs;
        mret (Some (messages_from_person_and_others person (app_name hs)))
    end.

(** [notifs_by_room.setdefault(pa["room_id"], []).append(pa)] *)
Definition add_notif (notifs_by_room : gmap pystr (list PushAction))
    (pa : PushAction) : gmap pystr (list PushAction) :=
  <[pa_room_id pa := default [] (notifs_by_room !! pa_room_id pa) ++ [pa]]>
    notifs_by_room.

Definition group_by_room (push_actions : list PushAction)
  : gmap pystr (list PushAction) :=
  foldl add_notif ∅ push_actions.

(** The key of the sort: [-(notifs_by_room[r][-1]["received_ts"] or 0)]. *)
Definition room_sort_key (notifs_by_room : gmap pystr (list PushAction))
    (r : pystr) : result Z :=
  room_notifs ← getitem notifs_by_room r;
  match last room_notifs with
  | Some pa => mret (- default 0 (pa_received_ts pa))
  | None => Err IndexError
  end.

(** [_fetch_room_state], on the dictionary [state_by_room] it closes over. *)
Definition fetch_room_state (state_by_room : gmap pystr StateIds)
    (room_id : pystr) : result (gmap pystr StateIds) :=
  room_state ← get_current_state_ids hs room_id;
  mret (<[room_id := room_state]> state_by_room).

(** The user's display name, with the [try]/[except StoreError]. *)
Definition get_user_display_name (user_id : pystr) : result pystr :=
  match lp ← localpart hs user_id; get_profile_displayname hs lp with
  | Ok (Some name) => Ok name
  | Ok None => Ok user_id
  | Err StoreError => Ok user_id
  | Err e => Err e
  end.

(** The rooms of a batch in the order in which their variables are built:
    the distinct room ids, sorted once the states are fetched. *)
Definition rooms_in_order (push_actions : list PushAction)
  : result (list pystr) :=
  sort_by_key (room_sort_key (group_by_room push_actions))
    (deduped_ordered_list (pa_room_id <$> push_actions)).

(** [send_notification_mail], up to the call of [send_email], of which
    the result gives the arguments.  The state fetches that
    [concurrently_execute] runs, at most 3 at a time, are done here one
    after the other; [fetch_step] has their interleavings. *)
Definition send_notification_mail (app_id user_id email_address : pystr)
    (push_actions : list PushAction) (reason : Reason) : result Email :=
  let rooms := deduped_ordered_list (pa_room_id <$> push_actions) in
  notif_events ← get_events hs (pa_event_id <$> push_actions);
  let notifs_by_room := group_by_room push_actions in
  user_display_name ← get_user_display_name user_id;
  state_by_room ← foldlM fetch_room_state ∅ rooms;
  rooms ← sort_by_key (room_sort_key notifs_by_room) rooms;
  room_vars ←
    mapM (fun r => room_notifs ← getitem notifs_by_room r;
                   room_state ← getitem state_by_room r;
                   get_room_vars r user_id room_notifs notif_events room_state)
         rooms;
  reason_state ← getitem state_by_room (reason_room_id reason);
  reason_name ← calculate_room_name hs reason_state user_id (Some true);
  let reason := {| reason_room_id := reason_room_id reason;
                   reason_room_name := reason_name |} in
  summary_text ← make_summary_text notifs_by_room state_by_room notif_events
                   user_id reason;
  let template_vars :=
    {| tv_user_display_name := user_display_name;
       tv_unsubscribe_link := make_unsubscribe_link user_id app_id email_address;
       tv_summary_text := summary_text;
       tv_app_name := app_name hs;
       tv_rooms := room_vars;
       tv_reason := reason |} in
  mret {| email_to := email_address; email_subject := summary_text;
          email_vars := template_vars |}.
End Mailer.

(** ** A store given by its data

    The event store and the state store are not part of mailer.py.  For
    running the methods on concrete batches, a homeserver is built from the
    timelines of its rooms, their state events and their current state. *)

(** The index of the first event with the given id. *)
Fixpoint position (tl : list Event) (event_id : pystr) : option nat :=
  match tl with
  | [] => None
  | e :: rest =>
      if decide (ev_event_id e = event_id) then Some 0%nat
      else S <$> position rest event_id
  end.

(** Modelled from the spec: [get_events_around(room_id, event_id, before,
    after) -> {events_before, events_after}], the store's query, which is
    missing from the source.  The events are taken from the room's timeline:
    up to [before] events that precede the event and up to [after] events
    that follow it. *)
Definition events_around (tl : list Event) (event_id : pystr)
    (before after : nat) : result EventContext :=
  match position tl event_id with
  | Some i =>
      Ok {| events_before := drop (i - before)%nat (take i tl);
            events_after := take after (drop (S i) tl) |}
  | None => Err StoreError
  end.

Record World := {
  timelines : gmap pystr (list Event);
  state_events : list Event;
  current_state : gmap pystr StateIds;
  visible : pystr -> Event -> bool;
  room_names : gmap pystr pystr;
}.

Definition all_events (w : World) : list Event :=
  state_events w ++ concat (map_to_list (timelines w)).*2.

Definition find_event (w : World) (event_id : pystr) : option Event :=
  head (filter (fun e => ev_event_id e = event_id) (all_events w)).

(** Modelled from the spec: the collaborators of section 6 (event and state
    lookup, visibility filter, display names), which are missing from the
    source, over the data of a [World]. *)
Definition world_server (w : World) : Homeserver :=
  {| app_name := lit "Matrix";
     email_riot_base_url := None;
     public_baseurl := lit "https://example.org/";
     get_event := fun event_id =>
       match find_event w event_id with
       | Some e => Ok e
       | None => Err StoreError
       end;
     get_events := fun event_ids =>
       Ok (list_to_map
             (omap (fun i => (fun e => (i, e)) <$> find_event w i) event_ids));
     get_events_around := fun room_id event_id before after =>
       match timelines w !! room_id with
       | Some tl => events_around tl event_id before after
       | None => Err StoreError
       end;
     get_current_state_ids := fun room_id =>
       match current_state w !! room_id with
       | Some st => Ok st
       | None => Err StoreError
       end;
     get_profile_displayname := fun _ => Ok None;
     EventTypes_Message := lit "m.room.message";
     filter_events_for_client := fun user_id events =>
       Ok (filter (fun e => visible w user_id e = true) events);
     localpart := fun user_id => Ok user_id;
     calculate_room_name := fun st _ _ =>
       Ok (st !! (lit "m.room.name", []) ≫= fun i => room_names w !! i);
     name_from_member_event := fun e =>
       match content_get (ev_content e) (lit "displayname") with
       | JStr s => Some s
       | _ => None
       end;
     descriptor_from_member_events := fun es =>
       concat ((fun e => ev_sender e) <$> es);
     safe_markup := fun j =>
       match j with JStr s => Ok s | _ => Err TypeError end;
     safe_text := fun j =>
       match j with JStr s => Ok s | _ => Err TypeError end;
     generate_delete_pusher_token := fun user_id => user_id;
     urlencode := fun ps => concat ((fun p => p.1 ++ lit "=" ++ p.2) <$> ps);
  |}.

(** A message event and a membership event, for the examples. *)
Definition message_event (event_id sender : string) (ts : Z) : Event :=
  {| ev_type := lit "m.room.message"; ev_event_id := lit event_id;
     ev_sender := lit sender;
     ev_content := {[ lit "msgtype" := JStr (lit "m.text");
                      lit "body" := JStr (lit event_id) ]};
     ev_origin_server_ts := ts |}.

Definition member_event (event_id sender membership : string) : Event :=
  {| ev_type := lit "m.room.member"; ev_event_id := lit event_id;
     ev_sender := lit sender;
     ev_content := {[ lit "membership" := JStr (lit membership);
                      lit "displayname" := JStr (lit sender) ]};
     ev_origin_server_ts := 0 |}.

Definition push_action (room_id event_id : string) (ts : Z) : PushAction :=
  {| pa_room_id := lit room_id; pa_event_id := lit event_id;
     pa_received_ts := Some ts |}.

(** A room [!r] with four messages of [@bob], in which [@alice] and
    [@bob] are joined. *)
Definition demo_timeline : list Event :=
  [message_event "$e1" "@bob" 1; message_event "$e2" "@bob" 2;
   message_event "$e3" "@bob" 3; message_event "$e4" "@bob" 4].

Definition demo_state : StateIds :=
  {[ (lit "m.room.member", lit "@alice") := lit "$ma";
     (lit "m.room.member", lit "@bob") := lit "$mb" ]}.

Definition demo_world : World :=
  {| timelines := {[ lit "!r" := demo_timeline ]};
     state_events := [member_event "$ma" "@alice" "join";
                      member_event "$mb" "@bob" "join"];
     current_state := {[ lit "!r" := demo_state ]};
     visible := fun _ _ => true;
     room_names := ∅ |}.

Definition demo_hs : Homeserver := world_server demo_world.

Definition message_ids (n : NotifVars) : list pystr := mv_id <$> nv_messages n.

Definition shown (n : NotifVars) : list (pystr * bool) :=
  (fun m => (mv_id m, mv_is_historical m)) <$> nv_messages n.

(** ** Specification of the room ordering *)

(** The notifications of a room, in batch order. *)
Definition notifs_of_room (push_actions : list PushAction) (r : pystr)
  : list PushAction :=
  filter (fun pa => pa_room_id pa = r) push_actions.

(** The timestamp of a notification as the sort reads it: [None] counts
    as [0]. *)
Definition received_ts_or_0 (pa : PushAction) : Z :=
  default 0 (pa_received_ts pa).

(** The timestamp of the last notification of a room in batch order. *)
Definition last_received_ts (push_actions : list PushAction) (r : pystr) : Z :=
  from_option received_ts_or_0 0 (last (notifs_of_room push_actions r)).

(** The largest timestamp among the notifications of a room. *)
Definition max_received_ts (push_actions : list PushAction) (r : pystr) : Z :=
  match received_ts_or_0 <$> notifs_of_room push_actions r with
  | [] => 0
  | ts :: rest => foldl Z.max ts rest
  end.

(** The distinct elements of a list in the order of their first
    occurrences. *)
Fixpoint first_seen `{EqDecision A} (l : list A) : list A :=
  match l with
  | [] => []
  | x :: rest => x :: filter (fun y => y ≠ x) (first_seen rest)
  end.

(** Most recent first, by a given timestamp of the room. *)
Definition most_recent_first (ts : pystr -> Z) (rooms : list pystr) : Prop :=
  StronglySorted (fun r1 r2 => ts r2 <= ts r1) rooms.

(** Rooms with equal timestamps keep the order of the list [original]. *)
Definition ties_keep_order (ts : pystr -> Z) (original rooms : list pystr)
  : Prop :=
  forall t, filter (fun r => ts r = t) rooms = filter (fun r => ts r = t) original.

(** The notifications of every room come in non-decreasing order of their
    timestamps. *)
Definition chronological_by_ts (push_actions : list PushAction) : Prop :=
  forall r,
    StronglySorted Z.le (received_ts_or_0 <$> notifs_of_room push_actions r).

(** A batch in which the older notification of room [!a] comes last. *)
Definition unordered_batch : list PushAction :=
  [push_action "!a" "$1" 10; push_action "!a" "$2" 5; push_action "!b" "$3" 7].

Definition ordered_batch : list PushAction :=
  [push_action "!a" "$1" 5; push_action "!b" "$3" 7; push_action "!a" "$2" 10].

(** Message variables and runs written out by hand, for the examples of
    the merge. *)
Definition plain_message (event_id : string) (is_historical : bool)
  : MessageVars :=
  {| mv_msgtype := JStr (lit "m.text"); mv_is_historical := is_historical;
     mv_id := lit event_id; mv_ts := 0; mv_sender_name := None;
     mv_sender_avatar_url := JNull; mv_sender_hash := 0; mv_format := None;
     mv_body_text_html := None; mv_image_url := None;
     mv_body_text_plain := None |}.

Definition run_of (messages : list MessageVars) : NotifVars :=
  {| nv_link := []; nv_ts := None; nv_messages := messages |}.

(** The ids of all messages of a room, run after run. *)
Definition all_message_ids (notifs : list NotifVars) : list pystr :=
  concat (message_ids <$> notifs).

(** The events of [demo_timeline] as [get_events] returns them. *)
Definition demo_events : gmap pystr Event :=
  list_to_map ((fun e => (ev_event_id e, e)) <$> demo_timeline).

(** The room [!r] when [@alice] has been invited by [@bob]. *)
Definition invite_state : StateIds :=
  {[ (lit "m.room.member", lit "@alice") := lit "$ia";
     (lit "m.room.member", lit "@bob") := lit "$mb" ]}.

Definition invite_world : World :=
  {| timelines := {[ lit "!r" := demo_timeline ]};
     state_events := [member_event "$ia" "@bob" "invite";
                      member_event "$mb" "@bob" "join"];
     current_state := {[ lit "!r" := invite_state ]};
     visible := fun _ _ => true;
     room_names := ∅ |}.

(** The room [!r] when its state has no membership event of [@alice]. *)
Definition stranger_state : StateIds :=
  {[ (lit "m.room.member", lit "@bob") := lit "$mb" ]}.

Definition stranger_world : World :=
  {| timelines := {[ lit "!r" := demo_timeline ]};
     state_events := [member_event "$mb" "@bob" "join"];
     current_state := {[ lit "!r" := stranger_state ]};
     visible := fun _ _ => true;
     room_names := ∅ |}.

Definition demo_reason : Reason :=
  {| reason_room_id := lit "!r"; reason_room_name := None |}.

(** The room [!r] with a call invitation of [@carol], who has no membership
    event in the state of the room. *)
Definition carol_event : Event :=
  {| ev_type := lit "m.call.invite"; ev_event_id := lit "$c1";
     ev_sender := lit "@carol"; ev_content := ∅; ev_origin_server_ts := 1 |}.

Definition carol_world : World :=
  {| timelines := {[ lit "!r" := [carol_event] ]};
     state_events := [member_event "$ma" "@alice" "join";
                      member_event "$mb" "@bob" "join"];
     current_state := {[ lit "!r" := demo_state ]};
     visible := fun _ _ => true;
     room_names := ∅ |}.

(** All messages of a room, run after run. *)
Definition all_messages (notifs : list NotifVars) : list MessageVars :=
  concat (nv_messages <$> notifs).

(** The notifications of a room are in chronological order when their
    events occur in the room's timeline at non-decreasing positions. *)
Definition in_timeline_order (tl : list Event) (notifs : list PushAction)
  : Prop :=
  StronglySorted
    (fun n1 n2 => exists p1 p2,
       position tl (pa_event_id n1) = Some p1
       /\ position tl (pa_event_id n2) = Some p2
       /\ (p1 <= p2)%nat)
    notifs.

(** The store of a room with timeline [tl], for one recipient: the context
    query follows the timeline, the visibility filter only removes events,
    and the events of the notifications are those of the timeline. *)
Record room_store (hs : Homeserver) (tl : list Event) (room_id user_id : pystr)
    (notif_events : gmap pystr Event) (notifs : list PushAction) : Prop := {
  timeline_ids_distinct : NoDup (ev_event_id <$> tl);
  around_timeline : forall event_id,
    get_events_around hs room_id event_id CONTEXT_BEFORE CONTEXT_AFTER
    = events_around tl event_id CONTEXT_BEFORE CONTEXT_AFTER;
  filter_removes : forall events visible_events,
    filter_events_for_client hs user_id events = Ok visible_events ->
    sublist visible_events events;
  notifs_of_this_room : forall n, n ∈ notifs -> pa_room_id n = room_id;
  notif_events_of_timeline : forall n e,
    n ∈ notifs -> notif_events !! pa_event_id n = Some e ->
    e ∈ tl /\ ev_event_id e = pa_event_id n;
}.

(** The run [lr] holds every message that the notification [n] shows: the
    events of type message among the visible context before its event and
    the event itself. *)
Definition run_covers (hs : Homeserver) (room_id user_id : pystr)
    (notif_events : gmap pystr Event) (n : PushAction) (lr : NotifVars)
  : Prop :=
  exists e results the_events,
    notif_events !! pa_event_id n = Some e
    /\ get_events_around hs room_id (pa_event_id n)
         CONTEXT_BEFORE CONTEXT_AFTER = Ok results
    /\ filter_events_for_client hs user_id (events_before results)
       = Ok the_events
    /\ forall e', e' ∈ the_events ++ [e] ->
         ev_type e' = EventTypes_Message hs ->
         ev_event_id e' ∈ message_ids lr.

(** The invariant of the loop of [get_room_vars] over notifications in
    timeline order, after the notifications [done]: the last run covers the
    last notification, no message lies after the last notified event, no
    event id occurs twice, and the messages that a notification was for
    are not historical. *)
Definition merged_in_order (hs : Homeserver) (tl : list Event)
    (room_id user_id : pystr) (notif_events : gmap pystr Event)
    (done : list PushAction) (runs : list NotifVars) : Prop :=
  exists n0 p lr,
    last done = Some n0
    /\ position tl (pa_event_id n0) = Some p
    /\ last runs = Some lr
    /\ run_covers hs room_id user_id notif_events n0 lr
    /\ (forall n', n' ∈ done ->
          exists p', position tl (pa_event_id n') = Some p' /\ (p' <= p)%nat)
    /\ (forall x, x ∈ all_message_ids runs ->
          exists j, position tl x = Some j /\ (j <= p)%nat)
    /\ NoDup (all_message_ids runs)
    /\ (forall m n', m ∈ all_messages runs -> n' ∈ done ->
          pa_event_id n' = mv_id m -> mv_is_historical m = false).

(** Notifications of [!r] in timeline order, with one of them twice, and
    out of order. *)
Definition ordered_notifs : list PushAction :=
  [push_action "!r" "$e2" 2; push_action "!r" "$e3" 3;
   push_action "!r" "$e3" 3].

Definition repeated_notifs : list PushAction :=
  [push_action "!r" "$e2" 2; push_action "!r" "$e4" 4;
   push_action "!r" "$e2" 2].

(** ** The state-fetch phase

    Modelled from the spec: [concurrently_execute(func, args, limit)], the
    helper of synapse.util.async_helpers that [send_notification_mail]
    awaits, which is missing from the source.  It "launches resolution for
    each room_id, admitting at most K concurrent resolutions at any
    instant; as each completes, its result is stored keyed by room_id; the
    caller awaits completion of the full set before proceeding".  The
    arguments are admitted in their order into [limit] places, each of
    which holds at most one call.  Which place admits the next argument and
    which admitted call completes next is not determined by the program: it
    is given from outside, by a [Turn].  A call of [func] that completes
    acts on the state it shares with its caller; one that raises ends the
    awaited call with that exception. *)
Record Pool (St A : Type) := {
  pool_args : list A;
  pool_places : list (option A);
  pool_shared : St;
}.
Arguments Build_Pool {St A} _ _ _.
Arguments pool_args {St A} _.
Arguments pool_places {St A} _.
Arguments pool_shared {St A} _.

(** What happens next: a place admits the next argument, the call of a
    place completes, or the coroutine that awaits runs on. *)
Inductive Turn :=
  | Admit (place : nat)
  | Complete (place : nat)
  | Resume.

Definition concurrently_execute_start {St A} (shared : St) (args : list A)
    (limit : nat) : Pool St A :=
  {| pool_args := args; pool_places := replicate limit None;
     pool_shared := shared |}.

(** The calls in flight. *)
Definition in_flight {St A} (p : Pool St A) : list A :=
  omap id (pool_places p).

(** One turn of the pool; [None] when the turn is not possible, [Some (Err
    e)] when the completed call raises [e]. *)
Definition concurrently_execute_step {St A} (func : St -> A -> result St)
    (t : Turn) (p : Pool St A) : option (result (Pool St A)) :=
  match t with
  | Admit i =>
      match pool_places p !! i, pool_args p with
      | Some None, a :: args =>
          Some (Ok {| pool_args := args;
                      pool_places := <[i := Some a]> (pool_places p);
                      pool_shared := pool_shared p |})
      | _, _ => None
      end
  | Complete i =>
      match pool_places p !! i with
      | Some (Some a) =>
          Some (shared ← func (pool_shared p) a;
                mret {| pool_args := pool_args p;
                        pool_places := <[i := None]> (pool_places p);
                        pool_shared := shared |})
      | _ => None
      end
  | Resume => None
  end.

(** The awaited call returns when every argument has been admitted and
    every admitted call has completed. *)
Definition concurrently_execute_done {St A} (p : Pool St A) : bool :=
  match pool_args p, in_flight p with
  | [], [] => true
  | _, _ => false
  end.

(** [send_notification_mail] between its suspension points.  It is either
    awaiting [concurrently_execute(_fetch_room_state, rooms_in_order, 3)],
    or in the loop [for r in rooms_in_order] with the rooms still to do and
    the room variables built so far, or it has returned or raised.  The
    steps use the definitions of [send_notification_mail]; only the state
    fetches are interleaved. *)
Inductive MailState :=
  | Fetching (notif_events : gmap pystr Event) (user_display_name : pystr)
      (pool : Pool (gmap pystr StateIds) pystr)
  | Building (notif_events : gmap pystr Event) (user_display_name : pystr)
      (state_by_room : gmap pystr StateIds) (todo : list pystr)
      (rooms : list RoomVars)
  | Finished (r : result Email).

Section send_notification_mail_steps.
Variable hs : Homeserver.
Variables (app_id user_id email_address : pystr).
Variables (push_actions : list PushAction) (reason : Reason).

(** Up to the call of [concurrently_execute], with the limit 3 that the
    code passes. *)
Definition send_notification_mail_start : MailState :=
  let rooms := deduped_ordered_list (pa_room_id <$> push_actions) in
  match get_events hs (pa_event_id <$> push_actions) with
  | Err e => Finished (Err e)
  | Ok notif_events =>
      match get_user_display_name hs user_id with
      | Err e => Finished (Err e)
      | Ok user_display_name =>
          Fetching notif_events user_display_name
            (concurrently_execute_start ∅ rooms 3)
      end
  end.

(** One iteration of [for r in rooms_in_order]. *)
Definition build_room (notif_events : gmap pystr Event)
    (state_by_room : gmap pystr StateIds) (r : pystr) : result RoomVars :=
  room_notifs ← getitem (group_by_room push_actions) r;
  room_state ← getitem state_by_room r;
  get_room_vars hs r user_id room_notifs notif_events room_state.

(** After the loop. *)
Definition finish_mail (notif_events : gmap pystr Event)
    (user_display_name : pystr) (state_by_room : gmap pystr StateIds)
    (room_vars : list RoomVars) : result Email :=
  reason_state ← getitem state_by_room (reason_room_id reason);
  reason_name ← calculate_room_name hs reason_state user_id (Some true);
  let reason := {| reason_room_id := reason_room_id reason;
                   reason_room_name := reason_name |} in
  summary_text ← make_summary_text hs (group_by_room push_actions)
                   state_by_room notif_events user_id reason;
  let template_vars :=
    {| tv_user_display_name := user_display_name;
       tv_unsubscribe_link :=
         make_unsubscribe_link hs user_id app_id email_address;
       tv_summary_text := summary_text;
       tv_app_name := app_name hs;
       tv_rooms := room_vars;
       tv_reason := reason |} in
  mret {| email_to := email_address; email_subject := summary_text;
          email_vars := template_vars |}.

Definition send_notification_mail_step (t : Turn) (s : MailState)
  : option MailState :=
  match s with
  | Fetching notif_events user_display_name pool =>
      match t with
      | Resume =>
          if concurrently_execute_done pool then
            let rooms := deduped_ordered_list (pa_room_id <$> push_actions) in
            match sort_by_key (room_sort_key (group_by_room push_actions))
                    rooms with
            | Ok rooms =>
                Some (Building notif_events user_display_name
                        (pool_shared pool) rooms [])
            | Err e => Some (Finished (Err e))
            end
          else None
      | _ =>
          match concurrently_execute_step (fetch_room_state hs) t pool with
          | Some (Ok pool') =>
              Some (Fetching notif_events user_display_name pool')
          | Some (Err e) => Some (Finished (Err e))
          | None => None
          end
      end
  | Building notif_events user_display_name state_by_room todo rooms =>
      match t, todo with
      | Resume, r :: todo =>
          match build_room notif_events state_by_room r with
          | Ok roomvars =>
              Some (Building notif_events user_display_name state_by_room
                      todo (rooms ++ [roomvars]))
          | Err e => Some (Finished (Err e))
          end
      | Resume, [] =>
          Some (Finished (finish_mail notif_events user_display_name
                            state_by_room rooms))
      | _, _ => None
      end
  | Finished _ => None
  end.

(** The state after the given turns; [None] when one of them is not
    possible. *)
Fixpoint send_notification_mail_run (turns : list Turn) (s : MailState)
  : option MailState :=
  match turns with
  | [] => Some s
  | t :: turns =>
      match send_notification_mail_step t s with
      | Some s' => send_notification_mail_run turns s'
      | None => None
      end
  end.

(** A bound on the number of turns that are left. *)
Definition turns_left (s : MailState) : nat :=
  match s with
  | Fetching _ _ pool =>
      2 * length (pool_args pool) + length (in_flight pool)
      + length (deduped_ordered_list (pa_room_id <$> push_actions)) + 3
  | Building _ _ _ todo _ => length todo + 1
  | Finished _ => 0
  end.

(** What holds while the states are fetched: there are 3 places; what is
    stored is the state of a room of the list, under its room id; every
    room of the list is waiting, in flight or stored. *)
Definition fetching_invariant
    (pool : Pool (gmap pystr StateIds) pystr) : Prop :=
  let rooms := deduped_ordered_list (pa_room_id <$> push_actions) in
  length (pool_places pool) = 3%nat
  /\ (forall r st, pool_shared pool !! r = Some st ->
        r ∈ rooms /\ get_current_state_ids hs r = Ok st)
  /\ (forall r, r ∈ rooms ->
        r ∈ pool_args pool \/ r ∈ in_flight pool
        \/ is_Some (pool_shared pool !! r))
  /\ (forall r, r ∈ pool_args pool \/ r ∈ in_flight pool -> r ∈ rooms).

(** What holds of every state of a run, in terms of the function
    [send_notification_mail]: the values in a state are the ones that the
    function computes, and the result is the result of the function. *)
Definition mail_invariant (s : MailState) : Prop :=
  let rooms := deduped_ordered_list (pa_room_id <$> push_actions) in
  match s with
  | Fetching notif_events user_display_name pool =>
      get_events hs (pa_event_id <$> push_actions) = Ok notif_events
      /\ get_user_display_name hs user_id = Ok user_display_name
      /\ fetching_invariant pool
  | Building notif_events user_display_name state_by_room todo built =>
      get_events hs (pa_event_id <$> push_actions) = Ok notif_events
      /\ get_user_display_name hs user_id = Ok user_display_name
      /\ foldlM (fetch_room_state hs) ∅ rooms = Ok state_by_room
      /\ exists ordered done,
           rooms_in_order push_actions = Ok ordered
           /\ ordered = done ++ todo
           /\ mapM (build_room notif_events state_by_room) done = Ok built
  | Finished r =>
      (forall mail, r = Ok mail ->
         send_notification_mail hs app_id user_id email_address push_actions
           reason = Ok mail)
      /\ (forall e, r = Err e ->
            exists e', send_notification_mail hs app_id user_id email_address
                         push_actions reason = Err e')
  end.
End send_notification_mail_steps.

(** Four rooms with one message each, for the examples of the state
    fetch. *)
Definition four_rooms_world : World :=
  {| timelines := {[ lit "!a" := [message_event "$1" "@bob" 1];
                     lit "!b" := [message_event "$2" "@bob" 2];
                     lit "!c" := [message_event "$3" "@bob" 3];
                     lit "!d" := [message_event "$4" "@bob" 4] ]};
     state_events := [member_event "$ma" "@alice" "join";
                      member_event "$mb" "@bob" "join"];
     current_state := {[ lit "!a" := demo_state; lit "!b" := demo_state;
                         lit "!c" := demo_state; lit "!d" := demo_state ]};
     visible := fun _ _ => true;
     room_names := ∅ |}.

Definition four_rooms_batch : list PushAction :=
  [push_action "!a" "$1" 1; push_action "!b" "$2" 2;
   push_action "!c" "$3" 3; push_action "!d" "$4" 4].

Definition four_rooms_reason : Reason :=
  {| reason_room_id := lit "!a"; reason_room_name := None |}.

(** ** The thumbnail filter of the templates *)

(** [s.split("#", 1)] for a string that contains the separator: the part
    before its first occurrence and the part after it; [None] when the
    separator does not occur (["#" in s] is false). *)
Fixpoint split_first (sep : N) (s : pystr) : option (pystr * pystr) :=
  match s with
  | [] => None
  | c :: rest =>
      if decide (c = sep) then Some ([], rest)
      else (fun parts : pystr * pystr => (c :: parts.1, parts.2))
             <$> split_first sep rest
  end.

(** The code point of ["#"]. *)
Definition HASH : N := 35%N.

(** [mxc_to_http_filter], the closure that [_create_mxc_to_http_filter]
    returns for a [public_baseurl]; [urlencode] is that of urllib, and the
    width and height are passed to it as they come. *)
Definition mxc_to_http_filter (urlencode : list (pystr * json) -> pystr)
    (public_baseurl value : pystr) (width height : json)
    (resize_method : pystr) : pystr :=
  if bool_decide (take 6 value ≠ lit "mxc://") then []
  else
    let serverAndMediaId := drop 6 value in
    let '(serverAndMediaId, fragment) :=
      match split_first HASH serverAndMediaId with
      | Some (before, after) => (before, Some (lit "#" ++ after))
      | None => (serverAndMediaId, None)
      end in
    let params := [(lit "width", width); (lit "height", height);
                   (lit "method", JStr resize_method)] in
    public_baseurl ++ lit "_matrix/media/v1/thumbnail/" ++ serverAndMediaId
      ++ lit "?" ++ urlencode params ++ default [] fragment.

(** A stand-in for [urllib.parse.urlencode] in the examples. *)
Definition demo_urlencode (params : list (pystr * json)) : pystr :=
  concat ((fun p : pystr * json =>
             p.1 ++ lit "=" ++ match p.2 with JStr v => v | _ => lit "0" end
               ++ lit "&") <$> params).

(** * Properties *)

(** ** The error monad *)

Lemma bind_Ok {A B} (f : A -> result B) (m : result A) (b : B) :
  m ≫= f = Ok b -> exists a, m = Ok a /\ f a = Ok b.
Proof. destruct m as [a|e]; simpl; [eauto | discriminate]. Qed.

Lemma bind_Err {A B} (f : A -> result B) (m : result A) (e : exn) :
  m = Err e -> m ≫= f = Err e.
Proof. intros ->. reflexivity. Qed.

Lemma ret_Ok {A} (a b : A) : mret (M := result) a = Ok b -> a = b.
Proof. intros [= ->]. reflexivity. Qed.

Lemma getitem_Ok `{Countable K} {V} (d : gmap K V) k v :
  getitem d k = Ok v <-> d !! k = Some v.
Proof. unfold getitem. destruct (d !! k); split; congruence. Qed.

Lemma getitem_missing `{Countable K} {V} (d : gmap K V) k :
  d !! k = None -> getitem d k = Err KeyError.
Proof. unfold getitem. intros ->. reflexivity. Qed.

(** Decides a closed decidable proposition by evaluation. *)
Ltac by_compute :=
  match goal with
  | |- ?P =>
      let d := constr:(_ : Decision P) in
      apply (@bool_decide_unpack P d); vm_compute; exact I
  end.

(** Splits a successful sequence of binds into its successful steps. *)
Ltac bind_inv H :=
  repeat match type of H with
    | _ ≫= _ = Ok _ =>
        let a := fresh "a" in
        let Ha := fresh "Hstep" in
        apply bind_Ok in H as (a & Ha & H)
    end.

Lemma foldlM_app {A B} (f : B -> A -> result B) acc l1 l2 :
  foldlM f acc (l1 ++ l2) = foldlM f acc l1 ≫= fun acc' => foldlM f acc' l2.
Proof.
  revert acc. induction l1 as [|x l1 IH]; intros acc; simpl; [reflexivity|].
  destruct (f acc x) as [acc'|e]; simpl; [apply IH | reflexivity].
Qed.

(** A loop invariant that every successful iteration preserves holds of the
    final loop state. *)
Lemma foldlM_invariant {A B} (f : B -> A -> result B) (P : B -> Prop) l :
  forall acc r,
    P acc ->
    (forall b x b', x ∈ l -> P b -> f b x = Ok b' -> P b') ->
    foldlM f acc l = Ok r -> P r.
Proof.
  induction l as [|x l IH]; intros acc r Hacc Hstep Hrun; simpl in Hrun.
  - congruence.
  - bind_inv Hrun. eapply IH; [ | | exact Hrun].
    + eapply Hstep; [left | exact Hacc | exact Hstep0].
    + intros b y b' Hy. apply Hstep. by right.
Qed.

(** ** [string_ordinal_total] *)

Lemma ordinal_loop_sum s tot : ordinal_loop s tot = tot + codepoint_sum s.
Proof.
  revert tot. induction s as [|c s IH]; intros tot; simpl; [lia|].
  rewrite IH. unfold ord. lia.
Qed.

Lemma string_ordinal_total_sum s : string_ordinal_total s = codepoint_sum s.
Proof. unfold string_ordinal_total. rewrite ordinal_loop_sum. lia. Qed.

Lemma typed_message_vars_keep hs (ret a : MessageVars) event (msgtype : json) :
  (if bool_decide (msgtype = JStr (lit "m.text"))
   then add_text_message_vars hs ret event
   else if bool_decide (msgtype = JStr (lit "m.image"))
   then add_image_message_vars ret event
   else mret ret) = Ok a ->
  mv_id a = mv_id ret
  /\ mv_is_historical a = mv_is_historical ret
  /\ mv_sender_hash a = mv_sender_hash ret.
Proof.
  destruct (bool_decide (msgtype = JStr (lit "m.text"))).
  - unfold add_text_message_vars. intros Hrun. bind_inv Hrun.
    apply ret_Ok in Hrun. subst a. simpl. auto.
  - destruct (bool_decide (msgtype = JStr (lit "m.image"))).
    + unfold add_image_message_vars. intros Hrun. bind_inv Hrun.
      apply ret_Ok in Hrun. subst a. simpl. auto.
    + intros [= <-]. auto.
Qed.

Lemma get_message_vars_fields hs notif event st m :
  get_message_vars hs notif event st = Ok (Some m) ->
  mv_id m = ev_event_id event
  /\ mv_is_historical m = bool_decide (ev_event_id event ≠ pa_event_id notif)
  /\ mv_sender_hash m = string_ordinal_total (ev_sender event)
  /\ ev_type event = EventTypes_Message hs.
Proof.
  unfold get_message_vars. case_bool_decide as Hty; [discriminate|].
  intros Hrun. bind_inv Hrun. apply ret_Ok in Hrun. injection Hrun as <-.
  apply typed_message_vars_keep in Hstep1 as (Hid & Hhist & Hhash).
  simpl in *. done.
Qed.

(** ** The room ordering *)

Section sorting.
Context {A : Type}.
Implicit Types (kx : Z * A) (l : list (Z * A)).

Lemma insert_by_key_perm kx l : insert_by_key kx l ≡ₚ kx :: l.
Proof.
  induction l as [|ky l IH]; simpl; [reflexivity|].
  destruct (kx.1 <=? ky.1); [reflexivity|].
  rewrite IH. apply perm_swap.
Qed.

Lemma sort_decorated_perm l : sort_decorated l ≡ₚ l.
Proof.
  induction l as [|kx l IH]; simpl; [reflexivity|].
  rewrite insert_by_key_perm. by rewrite IH.
Qed.

Lemma insert_by_key_sorted kx l :
  StronglySorted (fun a b => a.1 <= b.1) l ->
  StronglySorted (fun a b => a.1 <= b.1) (insert_by_key kx l).
Proof.
  induction 1 as [|ky l Hl IH Hky]; simpl.
  - repeat constructor.
  - destruct (Z.leb_spec kx.1 ky.1) as [Hle|Hlt].
    + constructor; [by constructor|].
      constructor; [done|].
      eapply Forall_impl; [exact Hky|]. simpl. intros; lia.
    + constructor; [exact IH|].
      rewrite insert_by_key_perm. constructor; [lia | exact Hky].
Qed.

Lemma sort_decorated_sorted l :
  StronglySorted (fun a b => a.1 <= b.1) (sort_decorated l).
Proof.
  induction l as [|kx l IH]; simpl; [constructor|].
  by apply insert_by_key_sorted.
Qed.

(** Stability: among the elements with one key, the insertion puts the
    new element first. *)
Lemma insert_by_key_filter (k : Z) kx l :
  filter (fun p => p.1 = k) (insert_by_key kx l)
  = filter (fun p => p.1 = k) (kx :: l).
Proof.
  induction l as [|ky l IH]; simpl; [reflexivity|].
  destruct (Z.leb_spec kx.1 ky.1) as [Hle|Hlt]; [reflexivity|].
  rewrite (filter_cons _ ky), IH, !(filter_cons _ kx), !(filter_cons _ ky).
  repeat case_decide; try reflexivity. lia.
Qed.

Lemma sort_decorated_filter (k : Z) l :
  filter (fun p => p.1 = k) (sort_decorated l) = filter (fun p => p.1 = k) l.
Proof.
  induction l as [|kx l IH]; simpl; [reflexivity|].
  rewrite insert_by_key_filter, !filter_cons, IH. reflexivity.
Qed.
End sorting.

(** ** Loops over lists in the error monad *)

Lemma mapM_Ok_Forall2 {A B} (f : A -> result B) l k :
  mapM f l = Ok k <-> Forall2 (fun x y => f x = Ok y) l k.
Proof.
  split.
  - revert k. induction l as [|x l IH]; intros k Hrun; simpl in Hrun.
    + apply ret_Ok in Hrun. subst k. constructor.
    + bind_inv Hrun. apply ret_Ok in Hrun. subst k. constructor; auto.
  - induction 1 as [|x y l k Hxy _ IH]; simpl; [reflexivity|].
    rewrite Hxy. simpl. rewrite IH. reflexivity.
Qed.

Lemma mapM_total {A B} (f : A -> result B) (g : A -> B) l :
  (forall x, x ∈ l -> f x = Ok (g x)) -> mapM f l = Ok (g <$> l).
Proof.
  intros Hf. apply mapM_Ok_Forall2. induction l as [|x l IH]; csimpl.
  - constructor.
  - constructor; [apply Hf; left | apply IH; intros; apply Hf; by right].
Qed.

Lemma mapM_Ok_elem {A B} (f : A -> result B) l k x :
  mapM f l = Ok k -> x ∈ l -> is_Ok (f x).
Proof.
  rewrite mapM_Ok_Forall2. intros HF Hx.
  induction HF as [|y z l k Hyz _ IH]; inversion Hx; subst; [by exists z | auto].
Qed.

Lemma StronglySorted_fmap_inv {A B} (f : A -> B) (R : relation B) l :
  StronglySorted R (f <$> l) -> StronglySorted (fun x y => R (f x) (f y)) l.
Proof.
  induction l as [|x l IH]; csimpl; intros Hs; [constructor|].
  apply StronglySorted_inv in Hs as [Hs Hx].
  constructor; [auto|]. rewrite Forall_fmap in Hx. exact Hx.
Qed.

Lemma filter_fmap_comp {A B} (f : A -> B) (P : B -> Prop)
    `{forall y, Decision (P y)} (l : list A) :
  filter P (f <$> l) = f <$> filter (fun x => P (f x)) l.
Proof.
  induction l as [|x l IH]; csimpl; [done|].
  rewrite !filter_cons, IH. by case_decide.
Qed.

Section sort_by_key.
Context {A : Type} (key : A -> result Z) (k : A -> Z).

(** The sort with a key function that raises on no element of the list:
    it returns, its result is a permutation of the list in non-decreasing
    key order, and elements with equal keys keep their order. *)
Lemma sort_by_key_total (l : list A) :
  (forall x, x ∈ l -> key x = Ok (k x)) ->
  exists r, sort_by_key key l = Ok r
    /\ r ≡ₚ l
    /\ StronglySorted (fun a b => k a <= k b) r
    /\ forall c, filter (fun x => k x = c) r = filter (fun x => k x = c) l.
Proof.
  intros Hkey. unfold sort_by_key. rewrite (mapM_total key k) by done. simpl.
  set (dec := fun x : A => (k x, x)).
  assert (Hzip : zip (k <$> l) l = dec <$> l).
  { clear Hkey. induction l as [|x l IH]; csimpl; [done | by rewrite IH]. }
  rewrite Hzip. set (d := sort_decorated (dec <$> l)).
  assert (Hd : d = dec <$> d.*2).
  { assert (HF : Forall (fun p => p = dec p.2) d).
    { unfold d. rewrite sort_decorated_perm. apply Forall_fmap.
      by apply Forall_true. }
    induction HF as [|p d' Hp _ IH]; csimpl; [done|]. by rewrite <- Hp, <- IH. }
  exists d.*2. split; [done|]. split; [|split].
  - unfold d. rewrite sort_decorated_perm. rewrite <- list_fmap_compose.
    by rewrite list_fmap_id.
  - assert (Hs := sort_decorated_sorted (dec <$> l)). fold d in Hs.
    rewrite Hd in Hs. by apply StronglySorted_fmap_inv in Hs.
  - intros c. assert (Hf := sort_decorated_filter c (dec <$> l)).
    fold d in Hf. revert Hd Hf. generalize (d.*2). intros r -> Hf.
    rewrite !filter_fmap_comp in Hf. simpl in Hf.
    assert (Hinj : Inj (=) (=) dec) by (intros x y [= _ ->]; done).
    apply (list_fmap_eq_inj dec Hinj). exact Hf.
Qed.
End sort_by_key.

Section first_seen.
Context `{Countable A}.
Implicit Types l it ret : list A.

Lemma elem_of_first_seen l x : x ∈ first_seen l <-> x ∈ l.
Proof.
  induction l as [|y l IH]; simpl; [done|].
  rewrite !elem_of_cons, list_elem_of_filter, IH.
  destruct (decide (x = y)); tauto.
Qed.

Lemma NoDup_first_seen l : NoDup (first_seen l).
Proof.
  induction l as [|y l IH]; simpl; constructor.
  - rewrite list_elem_of_filter. tauto.
  - by apply NoDup_filter.
Qed.

Lemma deduped_loop_first_seen it (seen : gset A) ret :
  (forall x, x ∈ seen <-> x ∈ ret) ->
  deduped_loop it seen ret = ret ++ filter (fun x => x ∉ ret) (first_seen it).
Proof.
  revert seen ret. induction it as [|item it IH]; intros seen ret Hseen; simpl.
  - by rewrite app_nil_r.
  - rewrite filter_cons, list_filter_filter. case_decide as Hin.
    + rewrite decide_False by (apply Hseen in Hin; tauto).
      rewrite (IH seen ret Hseen). f_equal. apply list_filter_iff.
      intros x. split; [|tauto]. intros Hx. split; [done|].
      intros ->. apply Hx. by apply Hseen.
    + rewrite decide_True by (by rewrite <- Hseen).
      rewrite (IH ({[item]} ∪ seen) (ret ++ [item])).
      * rewrite <- app_assoc. simpl. do 2 f_equal. apply list_filter_iff.
        intros x. rewrite elem_of_app, list_elem_of_singleton. tauto.
      * intros x. rewrite elem_of_union, elem_of_singleton, elem_of_app,
          list_elem_of_singleton, Hseen. tauto.
Qed.

(** [deduped_ordered_list] keeps the first occurrence of every element. *)
Lemma deduped_ordered_list_first_seen l :
  deduped_ordered_list l = first_seen l.
Proof.
  unfold deduped_ordered_list. rewrite deduped_loop_first_seen by set_solver.
  simpl. generalize (first_seen l). intros k.
  induction k as [|x k IH]; [done|].
  rewrite filter_cons, decide_True, IH; [done|]. apply not_elem_of_nil.
Qed.
End first_seen.

Lemma group_by_room_from notifs_by_room push_actions r :
  foldl add_notif notifs_by_room push_actions !! r
  = if decide (notifs_of_room push_actions r = []) then notifs_by_room !! r
    else Some (default [] (notifs_by_room !! r) ++ notifs_of_room push_actions r).
Proof.
  revert notifs_by_room.
  induction push_actions as [|pa pas IH]; intros m; simpl; [done|].
  rewrite IH. clear IH. unfold notifs_of_room, add_notif. rewrite filter_cons.
  destruct (decide (pa_room_id pa = r)) as [->|Hne].
  - rewrite lookup_insert_eq. simpl.
    case_decide as Hnil.
    + rewrite Hnil. done.
    + by rewrite <- app_assoc.
  - rewrite lookup_insert_ne by done. reflexivity.
Qed.

(** The dictionary [notifs_by_room] holds, for every room of the batch, the
    notifications of that room in batch order. *)
Lemma group_by_room_lookup push_actions r :
  group_by_room push_actions !! r
  = if decide (notifs_of_room push_actions r = []) then None
    else Some (notifs_of_room push_actions r).
Proof. unfold group_by_room. rewrite group_by_room_from. by rewrite lookup_empty. Qed.

Lemma notifs_of_room_nonempty push_actions r :
  r ∈ pa_room_id <$> push_actions <-> notifs_of_room push_actions r ≠ [].
Proof.
  unfold notifs_of_room. rewrite list_elem_of_fmap. split.
  - intros (pa & -> & Hpa) Hnil.
    assert (Hin : pa ∈ filter (fun pa' => pa_room_id pa' = pa_room_id pa) push_actions)
      by (by apply list_elem_of_filter).
    rewrite Hnil in Hin. by apply not_elem_of_nil in Hin.
  - intros Hne. destruct (filter _ push_actions) as [|pa l] eqn:Hf; [done|].
    assert (Hin : pa ∈ filter (fun pa => pa_room_id pa = r) push_actions)
      by (rewrite Hf; left).
    apply list_elem_of_filter in Hin as [Hr Hin]. eauto.
Qed.

Lemma room_sort_key_total push_actions r :
  r ∈ pa_room_id <$> push_actions ->
  room_sort_key (group_by_room push_actions) r
  = Ok (- last_received_ts push_actions r).
Proof.
  intros Hr. apply notifs_of_room_nonempty in Hr.
  unfold room_sort_key, getitem, last_received_ts.
  rewrite group_by_room_lookup, decide_False by done. simpl.
  destruct (last (notifs_of_room push_actions r)) as [pa|] eqn:Hlast; [done|].
  by apply last_None in Hlast.
Qed.

Lemma last_is_max (x : Z) (l : list Z) :
  StronglySorted Z.le (x :: l) -> default 0 (last (x :: l)) = foldl Z.max x l.
Proof.
  revert x. induction l as [|y l IH]; intros x Hs; [done|].
  rewrite last_cons_cons. simpl.
  apply StronglySorted_inv in Hs as [Hs Hx].
  apply Forall_cons in Hx as [Hxy _].
  rewrite Z.max_r by done. by apply IH.
Qed.

(** When the notifications of a room come in chronological order, the
    timestamp of the last one is the largest. *)
Lemma last_received_ts_max push_actions r :
  StronglySorted Z.le (received_ts_or_0 <$> notifs_of_room push_actions r) ->
  last_received_ts push_actions r = max_received_ts push_actions r.
Proof.
  unfold last_received_ts, max_received_ts.
  destruct (notifs_of_room push_actions r) as [|pa l]; [done|].
  intros Hs. rewrite fmap_cons in Hs |- *. rewrite <- last_is_max by done.
  rewrite <- fmap_cons, fmap_last. by destruct (last (pa :: l)).
Qed.

(** The ordering returns, with the distinct room ids of the batch. *)
Lemma rooms_in_order_total (push_actions : list PushAction) :
  exists rooms,
    rooms_in_order push_actions = Ok rooms
    /\ (forall r, r ∈ rooms <-> r ∈ pa_room_id <$> push_actions).
Proof.
  unfold rooms_in_order. rewrite deduped_ordered_list_first_seen.
  destruct (sort_by_key_total (room_sort_key (group_by_room push_actions))
              (fun r => - last_received_ts push_actions r)
              (first_seen (pa_room_id <$> push_actions)))
    as (rooms & Hrun & Hperm & _).
  { intros r Hr. apply room_sort_key_total. by apply elem_of_first_seen. }
  exists rooms. split; [done|]. intros r. rewrite Hperm.
  apply elem_of_first_seen.
Qed.

(** X27.  What the sort of [send_notification_mail] computes.  For every
    notification batch the room ordering is computed without error; it
    contains each distinct room id of the batch exactly once; it is sorted,
    descending, by the key the code reads, the timestamp of the last
    notification of each room in batch order (a missing timestamp counting
    as 0), and rooms with equal keys keep their first-seen order; an empty
    batch gives an empty ordering.  When the notifications of every room
    come in chronological order, the key is the room's maximum, and the
    ordering is the stable sort by maximum timestamp, descending. *)
Theorem rooms_in_order_by_last_notification (push_actions : list PushAction) :
  exists rooms,
    rooms_in_order push_actions = Ok rooms
    /\ NoDup rooms
    /\ (forall r, r ∈ rooms <-> r ∈ pa_room_id <$> push_actions)
    /\ most_recent_first (last_received_ts push_actions) rooms
    /\ ties_keep_order (last_received_ts push_actions)
         (first_seen (pa_room_id <$> push_actions)) rooms
    /\ (push_actions = [] -> rooms = [])
    /\ (chronological_by_ts push_actions ->
        most_recent_first (max_received_ts push_actions) rooms
        /\ ties_keep_order (max_received_ts push_actions)
             (first_seen (pa_room_id <$> push_actions)) rooms).
Proof.
  unfold rooms_in_order. rewrite deduped_ordered_list_first_seen.
  destruct (sort_by_key_total (room_sort_key (group_by_room push_actions))
              (fun r => - last_received_ts push_actions r)
              (first_seen (pa_room_id <$> push_actions)))
    as (rooms & Hrun & Hperm & Hsorted & Hstable).
  { intros r Hr. apply room_sort_key_total. by apply elem_of_first_seen. }
  assert (Hlast : most_recent_first (last_received_ts push_actions) rooms).
  { unfold most_recent_first. rewrite <- (list_fmap_id rooms).
    eapply StronglySorted_fmap; [|exact Hsorted]. simpl. intros; lia. }
  assert (Hties : ties_keep_order (last_received_ts push_actions)
                    (first_seen (pa_room_id <$> push_actions)) rooms).
  { intros t. specialize (Hstable (- t)).
    rewrite (list_filter_iff _
               (fun r => - last_received_ts push_actions r = - t) rooms)
      by (intros r; lia).
    rewrite Hstable. apply list_filter_iff. intros r. lia. }
  exists rooms. split; [exact Hrun|]. split; [|split; [|split; [|split; [|split]]]].
  - rewrite Hperm. apply NoDup_first_seen.
  - intros r. rewrite Hperm. apply elem_of_first_seen.
  - exact Hlast.
  - exact Hties.
  - intros ->. simpl in Hperm. by apply Permutation_nil_r in Hperm.
  - intros Hchrono.
    assert (Heq : forall r,
      last_received_ts push_actions r = max_received_ts push_actions r)
      by (intros r; apply last_received_ts_max, Hchrono).
    split.
    + unfold most_recent_first. rewrite <- (list_fmap_id rooms).
      eapply StronglySorted_fmap; [|exact Hlast]. simpl. intros r1 r2.
      by rewrite !Heq.
    + intros t.
      rewrite (list_filter_iff _ (fun r => last_received_ts push_actions r = t)
                 rooms) by (intros r; by rewrite Heq).
      rewrite (Hties t). apply list_filter_iff. intros r. by rewrite Heq.
Qed.

Lemma rooms_in_order_by_last_notification_witness :
  chronological_by_ts ordered_batch
  /\ exists rooms,
       rooms_in_order ordered_batch = Ok rooms
       /\ rooms = [lit "!a"; lit "!b"]
       /\ most_recent_first (max_received_ts ordered_batch) rooms.
Proof.
  assert (Hchrono : chronological_by_ts ordered_batch).
  { intros r. unfold notifs_of_room, ordered_batch.
    repeat (rewrite filter_cons; case_decide); rewrite filter_nil;
      repeat constructor; vm_compute; discriminate. }
  split; [exact Hchrono|].
  destruct (rooms_in_order_by_last_notification ordered_batch)
    as (rooms & Hrun & _ & _ & _ & _ & _ & Hmax).
  exists rooms. split; [exact Hrun|]. split.
  - vm_compute in Hrun. by injection Hrun as <-.
  - apply Hmax, Hchrono.
Defined.

(** C2 fails on the code.  The sort is commented "most recent room first"
    and a batch may come in any order, but the key reads the last
    notification of a room, [notifs_by_room[r][-1]], not its most recent
    one.  With the notifications of room [!a] at timestamps 10 and then 5,
    and one of room [!b] at 7, the ordering puts [!b] first although the
    most recent notification of the batch is in [!a], whose maximum, 10, is
    larger than the 7 of [!b]. *)
Lemma rooms_in_order_not_by_maximum :
  rooms_in_order unordered_batch = Ok [lit "!b"; lit "!a"]
  /\ max_received_ts unordered_batch (lit "!a") = 10
  /\ max_received_ts unordered_batch (lit "!b") = 7
  /\ ~ most_recent_first (max_received_ts unordered_batch) [lit "!b"; lit "!a"].
Proof.
  split; [reflexivity|]. split; [reflexivity|]. split; [reflexivity|].
  intros Hs. apply StronglySorted_inv in Hs as [_ Hb].
  apply Forall_cons in Hb as [Hb _]. vm_compute in Hb. by apply Hb.
Qed.

(** ** The merge loop *)

Lemma matching_nil mid prev : matching mid prev = [] <-> mid ∉ mv_id <$> prev.
Proof.
  unfold matching. induction prev as [|pm prev IH]; csimpl.
  - split; [intros _; apply not_elem_of_nil | done].
  - rewrite filter_cons, not_elem_of_cons. case_decide as Heq.
    + split; [discriminate | intros [Hne _]; by destruct Hne].
    + rewrite IH. split; [intros; split; [congruence | done] | tauto].
Qed.

Lemma matching_cons mid prev pm pms :
  matching mid prev = pm :: pms -> mid ∈ mv_id <$> prev.
Proof.
  intros Hm. destruct (decide (mid ∈ mv_id <$> prev)) as [|Hnot]; [done|].
  apply matching_nil in Hnot. congruence.
Qed.

Lemma unset_historical_ids mid prev :
  mv_id <$> unset_historical mid prev = mv_id <$> prev.
Proof.
  induction prev as [|pm prev IH]; csimpl; [done|].
  case_decide; csimpl; [done | by rewrite IH].
Qed.

Lemma set_is_historical_id (m : MessageVars) :
  set_is_historical (mv_is_historical m) m = m.
Proof. by destruct m. Qed.

(** With distinct ids, the entry that [unset_historical] updates is the
    only one with that id. *)
Lemma unset_historical_same m prev :
  m ∈ prev -> NoDup (mv_id <$> prev) -> mv_is_historical m = false ->
  unset_historical (mv_id m) prev = prev.
Proof.
  induction prev as [|pm prev IH]; csimpl; intros Hin Hnd Hm; [done|].
  apply NoDup_cons in Hnd as [Hpm Hnd]. case_decide as Heq.
  - apply elem_of_cons in Hin as [->|Hin].
    + by rewrite <- Hm, set_is_historical_id.
    + destruct Hpm. rewrite Heq. apply list_elem_of_fmap. eauto.
  - apply elem_of_cons in Hin as [->|Hin]; [done|]. by rewrite IH.
Qed.

(** The previous run after the loop: its own entries, in order and with
    their ids, followed by some of the incoming messages. *)
Lemma merge_loop_ids messages prev merge :
  exists appended,
    mv_id <$> (merge_loop messages prev merge).1
    = (mv_id <$> prev) ++ (mv_id <$> appended)
    /\ sublist appended messages
    /\ length (merge_loop messages prev merge).1
       = (length prev + length appended)%nat.
Proof.
  revert prev merge. induction messages as [|m ms IH]; intros prev merge; simpl.
  - exists []. by rewrite !app_nil_r, Nat.add_0_r.
  - destruct (matching (mv_id m) prev) as [|pm pms] eqn:Hm.
    + destruct merge.
      * destruct (IH (prev ++ [m]) true) as (app & Hids & Hsub & Hlen).
        exists (m :: app). rewrite Hids, Hlen, fmap_app, <- app_assoc, length_app.
        simpl. split; [done|]. split; [by constructor | lia].
      * destruct (IH prev false) as (app & Hids & Hsub & Hlen).
        exists app. split; [done|]. split; [by constructor | done].
    + destruct (mv_is_historical m).
      * destruct (IH prev true) as (app & Hids & Hsub & Hlen).
        exists app. split; [done|]. split; [by constructor | done].
      * destruct (IH (unset_historical (mv_id m) prev) true)
          as (app & Hids & Hsub & Hlen).
        exists app. rewrite Hids, Hlen, unset_historical_ids.
        split; [done|]. split; [by constructor|].
        f_equal. rewrite <- (length_fmap mv_id), unset_historical_ids.
        by rewrite length_fmap.
Qed.

Lemma merge_loop_merging messages prev :
  (merge_loop messages prev true).2 = true.
Proof.
  revert prev. induction messages as [|m ms IH]; intros prev; simpl; [done|].
  destruct (matching (mv_id m) prev); [apply IH|].
  destruct (mv_is_historical m); apply IH.
Qed.

(** Messages that come before the first duplicate and are not in the
    previous run leave no trace. *)
Lemma merge_loop_skip pre rest prev :
  Forall (fun m => mv_id m ∉ mv_id <$> prev) pre ->
  merge_loop (pre ++ rest) prev false = merge_loop rest prev false.
Proof.
  induction 1 as [|m pre Hm _ IH]; simpl; [done|].
  apply matching_nil in Hm. by rewrite Hm.
Qed.

(** When every incoming message is already in the previous run, nothing is
    appended. *)
Lemma merge_loop_all_found messages prev merge :
  Forall (fun m => mv_id m ∈ mv_id <$> prev) messages ->
  mv_id <$> (merge_loop messages prev merge).1 = mv_id <$> prev
  /\ (merge_loop messages prev merge).2
     = merge || bool_decide (messages ≠ []).
Proof.
  intros Hall. revert prev merge Hall.
  induction messages as [|m ms IH]; intros prev merge Hall; simpl.
  - by rewrite orb_false_r.
  - apply Forall_cons in Hall as [Hm Hms].
    destruct (matching (mv_id m) prev) as [|pm pms] eqn:Hmatch.
    { apply matching_nil in Hmatch. done. }
    rewrite orb_true_r. destruct (mv_is_historical m).
    + destruct (IH prev true Hms) as [Hids Hflag]. by rewrite Hids, Hflag.
    + destruct (IH (unset_historical (mv_id m) prev) true) as [Hids Hflag].
      { by rewrite unset_historical_ids. }
      by rewrite Hids, Hflag, unset_historical_ids.
Qed.

Lemma merge_loop_same messages prev merge :
  NoDup (mv_id <$> prev) ->
  Forall (fun m => m ∈ prev) messages ->
  (merge_loop messages prev merge).1 = prev.
Proof.
  intros Hnd Hall. revert merge.
  induction Hall as [|m ms Hm _ IH]; intros merge; simpl; [done|].
  destruct (matching (mv_id m) prev) as [|pm pms] eqn:Hmatch.
  { apply matching_nil in Hmatch. destruct Hmatch.
    apply list_elem_of_fmap. eauto. }
  destruct (mv_is_historical m) eqn:Hhist; [apply IH|].
  rewrite unset_historical_same by done. apply IH.
Qed.

(** [merge_notif] on a list of runs that ends with [prev]. *)
Lemma merge_notif_snoc notifs prev notifvars :
  merge_notif (notifs ++ [prev]) notifvars
  = let res := merge_loop (nv_messages notifvars) (nv_messages prev) false in
    if res.2 then notifs ++ [set_messages res.1 prev]
    else notifs ++ [set_messages res.1 prev; notifvars].
Proof.
  unfold merge_notif. rewrite last_snoc, length_app. simpl.
  replace (pred (length notifs + 1)) with (length notifs + 0)%nat by lia.
  destruct (merge_loop _ _ _) as [pm merge]. simpl.
  rewrite insert_app_r. simpl.
  destruct merge; [done|]. by rewrite <- app_assoc.
Qed.

Lemma set_messages_same prev : set_messages (nv_messages prev) prev = prev.
Proof. by destruct prev. Qed.

Lemma all_message_ids_app notifs1 notifs2 :
  all_message_ids (notifs1 ++ notifs2)
  = all_message_ids notifs1 ++ all_message_ids notifs2.
Proof. unfold all_message_ids. by rewrite fmap_app, concat_app. Qed.

(** C7.  Merge idempotence: merging into a list of runs a notification whose
    message list is that of the last run appends no message and leaves the
    event ids of the room as they were; unless that run is empty no run is
    added either, and when the ids of the run are distinct the runs are
    left exactly as they were. *)
Theorem merge_notif_idempotent (notifs : list NotifVars)
    (prev notifvars : NotifVars) :
  nv_messages notifvars = nv_messages prev ->
  all_message_ids (merge_notif (notifs ++ [prev]) notifvars)
  = all_message_ids (notifs ++ [prev])
  /\ (nv_messages prev ≠ [] ->
      length (merge_notif (notifs ++ [prev]) notifvars)
      = length (notifs ++ [prev]))
  /\ (nv_messages prev ≠ [] -> NoDup (message_ids prev) ->
      merge_notif (notifs ++ [prev]) notifvars = notifs ++ [prev]).
Proof.
  intros Hsame. rewrite merge_notif_snoc, Hsame. simpl.
  destruct (merge_loop_all_found (nv_messages prev) (nv_messages prev) false)
    as [Hids Hflag].
  { apply Forall_forall. intros m Hm. apply list_elem_of_fmap. eauto. }
  rewrite Hflag. simpl. case_bool_decide as Hnil.
  - split; [|split].
    + rewrite !all_message_ids_app. f_equal. unfold all_message_ids, message_ids.
      simpl. by rewrite Hids.
    + intros _. by rewrite !length_app.
    + intros _ Hnd. rewrite merge_loop_same; [by rewrite set_messages_same|done|].
      by apply Forall_forall.
  - split; [|split]; [|done|done].
    rewrite !all_message_ids_app. f_equal. unfold all_message_ids, message_ids.
    simpl. by rewrite Hids, Hsame, Hnil.
Qed.

Lemma merge_notif_idempotent_witness :
  let prev := run_of [plain_message "$e1" true; plain_message "$e2" false] in
  merge_notif [run_of [plain_message "$e0" false]; prev] prev
  = [run_of [plain_message "$e0" false]; prev].
Proof.
  intros prev.
  apply (merge_notif_idempotent [run_of [plain_message "$e0" false]] prev prev).
  - reflexivity.
  - discriminate.
  - by_compute.
Defined.

(** C10.  When a notification's message list reaches a message whose event
    id is already in the previous run, the messages before it whose ids are
    not in that run are dropped: the merge gives what it gives without
    them, no new run is added, and the previous run is extended only by
    messages that come after the duplicate. *)
Theorem merge_notif_discards_leading (notifs : list NotifVars)
    (prev notifvars : NotifVars) (pre post : list MessageVars)
    (dup : MessageVars) :
  nv_messages notifvars = pre ++ dup :: post ->
  Forall (fun m => mv_id m ∉ message_ids prev) pre ->
  mv_id dup ∈ message_ids prev ->
  exists prev_messages appended,
    merge_notif (notifs ++ [prev]) notifvars
    = notifs ++ [set_messages prev_messages prev]
    /\ mv_id <$> prev_messages = message_ids prev ++ (mv_id <$> appended)
    /\ sublist appended post
    /\ merge_notif (notifs ++ [prev]) notifvars
       = merge_notif (notifs ++ [prev]) (set_messages (dup :: post) notifvars).
Proof.
  intros Hmsgs Hpre Hdup. rewrite !merge_notif_snoc. simpl.
  rewrite Hmsgs, merge_loop_skip by exact Hpre. simpl.
  destruct (matching (mv_id dup) (nv_messages prev)) as [|pm pms] eqn:Hmatch.
  { apply matching_nil in Hmatch. done. }
  set (prev' := if mv_is_historical dup then nv_messages prev
                else unset_historical (mv_id dup) (nv_messages prev)).
  rewrite merge_loop_merging.
  destruct (merge_loop_ids post prev' true) as (appended & Hids & Hsub & _).
  exists (merge_loop post prev' true).1, appended.
  split; [done|]. split; [|done].
  rewrite Hids. unfold message_ids, prev'.
  destruct (mv_is_historical dup); [done|]. by rewrite unset_historical_ids.
Qed.

Lemma merge_notif_discards_leading_witness :
  merge_notif
    [run_of [plain_message "$e1" true; plain_message "$e2" false]]
    (run_of [plain_message "$x" true; plain_message "$e2" false;
             plain_message "$e3" true])
  = merge_notif
      [run_of [plain_message "$e1" true; plain_message "$e2" false]]
      (run_of [plain_message "$e2" false; plain_message "$e3" true])
  /\ all_message_ids
       (merge_notif
          [run_of [plain_message "$e1" true; plain_message "$e2" false]]
          (run_of [plain_message "$x" true; plain_message "$e2" false;
                   plain_message "$e3" true]))
     = [lit "$e1"; lit "$e2"; lit "$e3"].
Proof.
  destruct (merge_notif_discards_leading []
              (run_of [plain_message "$e1" true; plain_message "$e2" false])
              (run_of [plain_message "$x" true; plain_message "$e2" false;
                       plain_message "$e3" true])
              [plain_message "$x" true] [plain_message "$e3" true]
              (plain_message "$e2" false))
    as (prev_messages & appended & _ & _ & _ & Hsame).
  - reflexivity.
  - by_compute.
  - by_compute.
  - split; [exact Hsame | reflexivity].
Defined.

(** ** The variables of a room *)

Section room_vars.
Variable hs : Homeserver.

(** What a successful call of [get_room_vars] has gone through. *)
Lemma get_room_vars_Ok room_id user_id notifs notif_events room_state_ids rv :
  get_room_vars hs room_id user_id notifs notif_events room_state_ids = Ok rv ->
  exists member_event_id member_event membership,
    room_state_ids !! (lit "m.room.member", user_id) = Some member_event_id
    /\ get_event hs member_event_id = Ok member_event
    /\ ev_content member_event !! lit "membership" = Some membership
    /\ calculate_room_name hs room_state_ids user_id None = Ok (rv_title rv)
    /\ rv_hash rv = string_ordinal_total room_id
    /\ rv_link rv = make_room_link hs room_id
    /\ rv_invite rv = bool_decide (membership = JStr (lit "invite"))
    /\ if rv_invite rv then rv_notifs rv = []
       else foldlM (room_notif_step hs user_id notif_events room_state_ids)
              [] notifs = Ok (rv_notifs rv).
Proof.
  unfold get_room_vars. intros Hrun. bind_inv Hrun.
  apply getitem_Ok in Hstep, Hstep1.
  exists a, a0, a1. destruct (bool_decide (a1 = JStr (lit "invite"))) eqn:Hinv.
  - apply ret_Ok in Hrun. subst rv. done.
  - bind_inv Hrun. apply ret_Ok in Hrun. subst rv. done.
Qed.

Lemma get_room_vars_missing_member (room_id user_id : pystr)
    (notifs : list PushAction) (notif_events : gmap pystr Event)
    (room_state_ids : StateIds) :
  room_state_ids !! (lit "m.room.member", user_id) = None ->
  get_room_vars hs room_id user_id notifs notif_events room_state_ids
  = Err KeyError.
Proof. intros Hnone. unfold get_room_vars. by rewrite getitem_missing. Qed.

(** The state fetch: the dictionary after the loop has the state of every
    room of the list under its room id, and is unchanged elsewhere. *)
Lemma fetch_room_states (rooms : list pystr)
    (state_by_room state_by_room' : gmap pystr StateIds) :
  foldlM (fetch_room_state hs) state_by_room rooms = Ok state_by_room' ->
  (forall r, r ∈ rooms ->
     exists st, get_current_state_ids hs r = Ok st
                /\ state_by_room' !! r = Some st)
  /\ (forall r, r ∉ rooms -> state_by_room' !! r = state_by_room !! r).
Proof.
  revert state_by_room. induction rooms as [|x rooms IH]; intros m Hrun;
    simpl in Hrun.
  - injection Hrun as <-. split; [|done]. intros r Hr.
    by apply elem_of_nil in Hr.
  - bind_inv Hrun. unfold fetch_room_state in Hstep. bind_inv Hstep.
    apply ret_Ok in Hstep. subst a.
    destruct (IH _ Hrun) as [Hin Hout]. split.
    + intros r Hr. destruct (decide (r ∈ rooms)) as [|Hnot]; [by apply Hin|].
      apply elem_of_cons in Hr as [->|]; [|done].
      exists a0. split; [done|]. rewrite Hout by done.
      apply lookup_insert_eq.
    + intros r Hr. apply not_elem_of_cons in Hr as [Hne Hr].
      rewrite Hout by done. by apply lookup_insert_ne.
Qed.
End room_vars.

(** C5.  For a room in which the recipient's membership is "invite", the
    room variables are built with an empty list of notifications, whatever
    the notifications of the room are: only the title, the hash, the invite
    flag and the link are filled in. *)
Theorem invite_room_has_no_messages (hs : Homeserver) (room_id user_id : pystr)
    (notifs : list PushAction) (notif_events : gmap pystr Event)
    (room_state_ids : StateIds) (member_event_id : pystr)
    (member_event : Event) (room_name : option pystr) :
  room_state_ids !! (lit "m.room.member", user_id) = Some member_event_id ->
  get_event hs member_event_id = Ok member_event ->
  ev_content member_event !! lit "membership" = Some (JStr (lit "invite")) ->
  calculate_room_name hs room_state_ids user_id None = Ok room_name ->
  get_room_vars hs room_id user_id notifs notif_events room_state_ids
  = Ok {| rv_title := room_name; rv_hash := string_ordinal_total room_id;
          rv_notifs := []; rv_invite := true;
          rv_link := make_room_link hs room_id |}.
Proof.
  intros Hstate Hevent Hmember Hname. unfold get_room_vars.
  apply getitem_Ok in Hstate, Hmember.
  rewrite Hstate. simpl. rewrite Hevent. simpl. rewrite Hmember. simpl.
  rewrite Hname. reflexivity.
Qed.

Lemma invite_room_has_no_messages_witness :
  get_room_vars (world_server invite_world) (lit "!r") (lit "@alice")
    [push_action "!r" "$e2" 2; push_action "!r" "$e4" 4] demo_events
    invite_state
  = Ok {| rv_title := None; rv_hash := string_ordinal_total (lit "!r");
          rv_notifs := []; rv_invite := true;
          rv_link := make_room_link (world_server invite_world) (lit "!r") |}.
Proof.
  apply (invite_room_has_no_messages (world_server invite_world) (lit "!r")
           (lit "@alice") _ demo_events invite_state (lit "$ia")
           (member_event "$ia" "@bob" "invite") None);
    reflexivity.
Defined.

(** C6.  When the state of a room has no membership event of the recipient
    under [("m.room.member", user_id)], [get_room_vars] raises [KeyError];
    and a batch with a notification in such a room makes
    [send_notification_mail] end with an exception, before [send_email] is
    reached, so that nothing is rendered for the batch. *)
Theorem missing_membership_aborts (hs : Homeserver) (user_id : pystr) :
  (forall (room_id : pystr) (notifs : list PushAction)
          (notif_events : gmap pystr Event) (room_state_ids : StateIds),
     room_state_ids !! (lit "m.room.member", user_id) = None ->
     get_room_vars hs room_id user_id notifs notif_events room_state_ids
     = Err KeyError)
  /\ (forall (app_id email_address : pystr) (push_actions : list PushAction)
            (reason : Reason) (room_id : pystr) (room_state_ids : StateIds),
       room_id ∈ pa_room_id <$> push_actions ->
       get_current_state_ids hs room_id = Ok room_state_ids ->
       room_state_ids !! (lit "m.room.member", user_id) = None ->
       exists e,
         send_notification_mail hs app_id user_id email_address push_actions
           reason = Err e).
Proof.
  split; [intros; by apply get_room_vars_missing_member|].
  intros app_id email_address push_actions reason room_id room_state_ids
    Hroom Hstate Hmissing.
  destruct (send_notification_mail hs app_id user_id email_address
              push_actions reason) as [mail|e] eqn:Hrun; [|by exists e].
  exfalso. unfold send_notification_mail in Hrun. bind_inv Hrun.
  destruct (fetch_room_states hs _ _ _ Hstep1) as [Hfetched _].
  destruct (Hfetched room_id) as (st & Hst & Hlookup).
  { rewrite deduped_ordered_list_first_seen. by apply elem_of_first_seen. }
  assert (st = room_state_ids) as -> by congruence.
  destruct (rooms_in_order_total push_actions)
    as (rooms & Hsort & Hmem).
  unfold rooms_in_order in Hsort. rewrite Hsort in Hstep2.
  injection Hstep2 as <-.
  destruct (mapM_Ok_elem _ _ _ room_id Hstep3) as [rv Hrv];
    [by apply Hmem|].
  apply notifs_of_room_nonempty in Hroom.
  unfold getitem in Hrv.
  rewrite group_by_room_lookup, decide_False in Hrv by done.
  simpl in Hrv. rewrite Hlookup in Hrv. simpl in Hrv.
  by rewrite get_room_vars_missing_member in Hrv.
Qed.

Lemma missing_membership_aborts_witness :
  exists e,
    send_notification_mail (world_server stranger_world) (lit "m.email")
      (lit "@alice") (lit "alice@example.org")
      [push_action "!r" "$e2" 2] demo_reason = Err e.
Proof.
  apply (proj2 (missing_membership_aborts (world_server stranger_world)
                  (lit "@alice"))
           (lit "m.email") (lit "alice@example.org")
           [push_action "!r" "$e2" 2] demo_reason (lit "!r") stranger_state).
  - by_compute.
  - reflexivity.
  - reflexivity.
Defined.

(** C8.  The hash of a room and the hash of a sender are the sum of the
    Unicode code points of the room id and of the sender's user id:
    [string_ordinal_total] computes that sum for every string, and
    [get_room_vars] and [get_message_vars] store its value, which depends on
    nothing but the string. *)
Theorem hashes_are_codepoint_sums (hs : Homeserver) :
  (forall s : pystr, string_ordinal_total s = codepoint_sum s)
  /\ (forall (room_id user_id : pystr) (notifs : list PushAction)
            (notif_events : gmap pystr Event) (room_state_ids : StateIds)
            (rv : RoomVars),
       get_room_vars hs room_id user_id notifs notif_events room_state_ids
       = Ok rv ->
       rv_hash rv = codepoint_sum room_id)
  /\ (forall (notif : PushAction) (event : Event) (room_state_ids : StateIds)
            (m : MessageVars),
       get_message_vars hs notif event room_state_ids = Ok (Some m) ->
       mv_sender_hash m = codepoint_sum (ev_sender event)).
Proof.
  split; [exact string_ordinal_total_sum|]. split.
  - intros room_id user_id notifs notif_events room_state_ids rv Hrun.
    apply get_room_vars_Ok in Hrun
      as (mid & mev & membership & _ & _ & _ & _ & Hhash & _).
    by rewrite Hhash, string_ordinal_total_sum.
  - intros notif event room_state_ids m Hrun.
    apply get_message_vars_fields in Hrun as (_ & _ & Hhash & _).
    by rewrite Hhash, string_ordinal_total_sum.
Qed.

Lemma hashes_are_codepoint_sums_witness :
  string_ordinal_total (lit "!r") = 147
  /\ (exists rv,
        get_room_vars demo_hs (lit "!r") (lit "@alice")
          [push_action "!r" "$e2" 2] demo_events demo_state = Ok rv
        /\ rv_hash rv = codepoint_sum (lit "!r"))
  /\ (exists m,
        get_message_vars demo_hs (push_action "!r" "$e2" 2)
          (message_event "$e2" "@bob" 2) demo_state = Ok (Some m)
        /\ mv_sender_hash m = codepoint_sum (lit "@bob")).
Proof.
  destruct (hashes_are_codepoint_sums demo_hs) as (Hsum & Hroom & Hsender).
  split; [by rewrite Hsum|]. split.
  - destruct (get_room_vars demo_hs (lit "!r") (lit "@alice")
                [push_action "!r" "$e2" 2] demo_events demo_state)
      as [rv|e] eqn:Hrun; [|by vm_compute in Hrun].
    exists rv. split; [reflexivity|]. exact (Hroom _ _ _ _ _ _ Hrun).
  - destruct (get_message_vars demo_hs (push_action "!r" "$e2" 2)
                (message_event "$e2" "@bob" 2) demo_state)
      as [[m|]|e] eqn:Hrun; [|by vm_compute in Hrun..].
    exists m. split; [reflexivity|]. exact (Hsender _ _ _ _ Hrun).
Defined.

(** ** The variables of a notification *)

Section notif_vars.
Variable hs : Homeserver.

Lemma get_message_vars_None notif event st :
  get_message_vars hs notif event st = Ok None
  <-> ev_type event ≠ EventTypes_Message hs.
Proof.
  unfold get_message_vars. case_bool_decide as Hty; [done|].
  split; [|done]. intros Hrun. bind_inv Hrun. by apply ret_Ok in Hrun.
Qed.

(** The loop of [get_notif_vars] appends the variables of the events of
    type message, in the order of the events. *)
Lemma append_message_vars_loop notif st events acc messages :
  foldlM (append_message_vars hs notif st) acc events = Ok messages ->
  exists new,
    messages = acc ++ new
    /\ Forall2 (fun e m => get_message_vars hs notif e st = Ok (Some m))
         (filter (fun e => ev_type e = EventTypes_Message hs) events) new.
Proof.
  revert acc. induction events as [|e events IH]; intros acc Hrun;
    simpl in Hrun.
  - injection Hrun as <-. exists []. by rewrite app_nil_r.
  - bind_inv Hrun. unfold append_message_vars in Hstep. bind_inv Hstep.
    apply ret_Ok in Hstep. subst a.
    destruct (IH _ Hrun) as (new & -> & Hnew). rewrite filter_cons.
    destruct a0 as [m|].
    + apply get_message_vars_fields in Hstep0 as Hfields.
      destruct Hfields as (_ & _ & _ & Hty). rewrite decide_True by done.
      exists (m :: new). rewrite <- app_assoc. split; [done|].
      by constructor.
    + apply get_message_vars_None in Hstep0. rewrite decide_False by done.
      by exists new.
Qed.

(** The messages of a notification are those of the events that pass the
    visibility filter among [events_before], followed by the notified
    event; [events_after] is not read. *)
Lemma get_notif_vars_Ok notif user_id notif_event st nv :
  get_notif_vars hs notif user_id notif_event st = Ok nv ->
  exists results the_events,
    get_events_around hs (pa_room_id notif) (pa_event_id notif)
      CONTEXT_BEFORE CONTEXT_AFTER = Ok results
    /\ filter_events_for_client hs user_id (events_before results)
       = Ok the_events
    /\ Forall2 (fun e m => get_message_vars hs notif e st = Ok (Some m))
         (filter (fun e => ev_type e = EventTypes_Message hs)
            (the_events ++ [notif_event]))
         (nv_messages nv).
Proof.
  unfold get_notif_vars. intros Hrun. bind_inv Hrun.
  apply ret_Ok in Hrun. subst nv. simpl.
  apply append_message_vars_loop in Hstep1 as (new & -> & Hnew).
  exists a, a0. by rewrite app_nil_l.
Qed.

Lemma get_notif_vars_ids notif user_id notif_event st nv :
  get_notif_vars hs notif user_id notif_event st = Ok nv ->
  exists results the_events,
    get_events_around hs (pa_room_id notif) (pa_event_id notif)
      CONTEXT_BEFORE CONTEXT_AFTER = Ok results
    /\ filter_events_for_client hs user_id (events_before results)
       = Ok the_events
    /\ message_ids nv
       = ev_event_id <$> filter (fun e => ev_type e = EventTypes_Message hs)
                           (the_events ++ [notif_event]).
Proof.
  intros Hrun.
  apply get_notif_vars_Ok in Hrun as (results & the_events & Ha & Hf & Hm).
  exists results, the_events. split; [done|]. split; [done|].
  unfold message_ids. induction Hm as [|e m es ms Hem _ IH]; csimpl; [done|].
  apply get_message_vars_fields in Hem as (-> & _). by rewrite IH.
Qed.
End notif_vars.

(** C3 fails on the code.  In the room [!r] with the messages [$e1], [$e2],
    [$e3], [$e4], all visible to the recipient, the store returns [$e1]
    before and [$e3] after the notified event [$e2]; the message list built
    for the notification is [$e1], [$e2]: the message after the event is
    fetched and then left out. *)
Theorem notif_vars_omit_event_after :
  exists results nv,
    get_events_around demo_hs (lit "!r") (lit "$e2")
      CONTEXT_BEFORE CONTEXT_AFTER = Ok results
    /\ ev_event_id <$> events_before results = [lit "$e1"]
    /\ ev_event_id <$> events_after results = [lit "$e3"]
    /\ filter_events_for_client demo_hs (lit "@alice") (events_after results)
       = Ok (events_after results)
    /\ get_notif_vars demo_hs (push_action "!r" "$e2" 2) (lit "@alice")
         (message_event "$e2" "@bob" 2) demo_state = Ok nv
    /\ message_ids nv = [lit "$e1"; lit "$e2"].
Proof.
  destruct (get_events_around demo_hs (lit "!r") (lit "$e2")
              CONTEXT_BEFORE CONTEXT_AFTER) as [results|e] eqn:Haround;
    [|by vm_compute in Haround].
  destruct (get_notif_vars demo_hs (push_action "!r" "$e2" 2) (lit "@alice")
              (message_event "$e2" "@bob" 2) demo_state) as [nv|e] eqn:Hrun;
    [|by vm_compute in Hrun].
  exists results, nv. vm_compute in Haround. injection Haround as <-.
  vm_compute in Hrun. injection Hrun as <-.
  repeat split; reflexivity.
Qed.

(** C4 fails on the code.  With notifications in one room only, a single
    notification there, a recipient who is not invited and a sender who has
    no membership event in the state of the room, [make_summary_text] ends
    without a [return]: its result is [None], whether the room has a name
    or not, and no "several messages" subject is formatted. *)
Theorem summary_of_unknown_sender_is_None (hs : Homeserver)
    (room_id user_id : pystr) (notif : PushAction)
    (room_state_ids : gmap pystr StateIds) (notif_events : gmap pystr Event)
    (reason : Reason) (room_state : StateIds) (room_name : option pystr)
    (member_event_id : pystr) (member_event event : Event)
    (membership : json) :
  room_state_ids !! room_id = Some room_state ->
  calculate_room_name hs room_state user_id (Some false) = Ok room_name ->
  room_state !! (lit "m.room.member", user_id) = Some member_event_id ->
  get_event hs member_event_id = Ok member_event ->
  ev_content member_event !! lit "membership" = Some membership ->
  membership ≠ JStr (lit "invite") ->
  notif_events !! pa_event_id notif = Some event ->
  room_state !! (lit "m.room.member", ev_sender event) = None ->
  make_summary_text hs {[ room_id := [notif] ]} room_state_ids notif_events
    user_id reason = Ok None.
Proof.
  intros Hstate Hname Hmember Hevent Hmembership Hjoined Hnotif Hsender.
  unfold make_summary_text.
  rewrite map_size_singleton, bool_decide_eq_true_2 by done.
  rewrite map_to_list_singleton.
  apply getitem_Ok in Hstate, Hmember, Hmembership, Hnotif.
  rewrite Hstate. simpl. rewrite Hname. simpl. rewrite Hmember. simpl.
  rewrite Hevent. simpl. rewrite Hmembership. simpl.
  rewrite bool_decide_eq_false_2 by done.
  rewrite Hnotif. simpl. rewrite Hsender. simpl. by destruct room_name.
Qed.

Lemma summary_of_unknown_sender_is_None_witness :
  make_summary_text (world_server carol_world)
    {[ lit "!r" := [push_action "!r" "$c1" 1] ]}
    {[ lit "!r" := demo_state ]} {[ lit "$c1" := carol_event ]}
    (lit "@alice") demo_reason = Ok None.
Proof.
  apply (summary_of_unknown_sender_is_None (world_server carol_world)
           (lit "!r") (lit "@alice") (push_action "!r" "$c1" 1)
           {[ lit "!r" := demo_state ]} {[ lit "$c1" := carol_event ]}
           demo_reason demo_state None (lit "$ma")
           (member_event "$ma" "@alice" "join") carol_event
           (JStr (lit "join")));
    try reflexivity.
  by_compute.
Defined.

(** The same notification through [send_notification_mail]: the mail is
    handed to [send_email] with [None] as its subject. *)
Lemma unknown_sender_mail_has_no_subject :
  exists mail,
    send_notification_mail (world_server carol_world) (lit "m.email")
      (lit "@alice") (lit "alice@example.org") [push_action "!r" "$c1" 1]
      demo_reason = Ok mail
    /\ email_subject mail = None
    /\ rv_invite <$> tv_rooms (email_vars mail) = [false].
Proof.
  destruct (send_notification_mail (world_server carol_world) (lit "m.email")
              (lit "@alice") (lit "alice@example.org")
              [push_action "!r" "$c1" 1] demo_reason) as [mail|e] eqn:Hrun;
    [|by vm_compute in Hrun].
  exists mail. vm_compute in Hrun. injection Hrun as <-. done.
Qed.

(** ** The merge loop, entry by entry *)

Lemma unset_historical_elem mid prev m' :
  m' ∈ unset_historical mid prev -> mv_is_historical m' = true -> m' ∈ prev.
Proof.
  induction prev as [|pm prev IH]; simpl; [done|].
  case_decide.
  - intros [->|Hin]%elem_of_cons; [discriminate | by right].
  - intros [->|Hin]%elem_of_cons Hhist; [left | right; auto].
Qed.

(** The previous run after the loop consists of its own entries, of which
    some may have lost their historical flag, and of appended messages,
    which were not in the run before. *)
Lemma merge_loop_entries messages prev merge :
  exists appended,
    mv_id <$> (merge_loop messages prev merge).1
    = (mv_id <$> prev) ++ (mv_id <$> appended)
    /\ sublist appended messages
    /\ Forall (fun m => mv_id m ∉ mv_id <$> prev) appended
    /\ (forall m', m' ∈ (merge_loop messages prev merge).1 ->
          mv_is_historical m' = true -> m' ∈ prev \/ m' ∈ appended).
Proof.
  revert prev merge. induction messages as [|m ms IH]; intros prev merge; simpl.
  - exists []. rewrite !app_nil_r. repeat split; [done..|]. by left.
  - destruct (matching (mv_id m) prev) as [|pm pms] eqn:Hm.
    + destruct merge.
      * destruct (IH (prev ++ [m]) true) as (app & Hids & Hsub & Hnew & Hold).
        exists (m :: app). rewrite Hids, fmap_app, <- app_assoc.
        split; [done|]. split; [by constructor|]. split.
        -- constructor; [by apply matching_nil|].
           eapply Forall_impl; [exact Hnew|]. simpl. intros x Hx Hin.
           apply Hx. rewrite fmap_app. apply elem_of_app. by left.
        -- intros m' Hin Hhist. destruct (Hold m' Hin Hhist) as [Hp|Hp].
           ++ apply elem_of_app in Hp as [Hp|Hp]; [by left|].
              apply list_elem_of_singleton in Hp as ->. right. left.
           ++ right. by right.
      * destruct (IH prev false) as (app & Hids & Hsub & Hnew & Hold).
        exists app. split; [done|]. split; [by constructor | done].
    + destruct (mv_is_historical m).
      * destruct (IH prev true) as (app & Hids & Hsub & Hnew & Hold).
        exists app. split; [done|]. split; [by constructor | done].
      * destruct (IH (unset_historical (mv_id m) prev) true)
          as (app & Hids & Hsub & Hnew & Hold).
        rewrite unset_historical_ids in Hids, Hnew.
        exists app. split; [done|]. split; [by constructor|]. split; [done|].
        intros m' Hin Hhist. destruct (Hold m' Hin Hhist) as [Hp|Hp].
        -- left. by eapply unset_historical_elem.
        -- by right.
Qed.

(** Once the loop is merging, every message ends up in the previous run. *)
Lemma merge_loop_merging_all messages prev m :
  m ∈ messages ->
  mv_id m ∈ mv_id <$> (merge_loop messages prev true).1.
Proof.
  revert prev. induction messages as [|x ms IH]; intros prev Hin; simpl.
  { by apply elem_of_nil in Hin. }
  assert (Hgrow : forall prev' : list MessageVars,
            mv_id m ∈ mv_id <$> prev' ->
            mv_id m ∈ mv_id <$> (merge_loop ms prev' true).1).
  { intros prev' Hm.
    destruct (merge_loop_entries ms prev' true) as (app & -> & _).
    apply elem_of_app. by left. }
  apply elem_of_cons in Hin as [->|Hin].
  - destruct (matching (mv_id x) prev) as [|pm pms] eqn:Hm.
    + apply Hgrow. rewrite fmap_app. apply elem_of_app. right. left.
    + apply matching_cons in Hm. destruct (mv_is_historical x).
      * by apply Hgrow.
      * apply Hgrow. by rewrite unset_historical_ids.
  - destruct (matching (mv_id x) prev); [by apply IH|].
    destruct (mv_is_historical x); by apply IH.
Qed.

(** The two ways the loop can end: without a duplicate, and then the
    previous run is untouched; or with a first duplicate, before which
    the messages are skipped and from which on the loop is merging. *)
Lemma merge_loop_cases messages prev :
  ((merge_loop messages prev false).2 = false
   /\ (merge_loop messages prev false).1 = prev
   /\ Forall (fun m => mv_id m ∉ mv_id <$> prev) messages)
  \/ ((merge_loop messages prev false).2 = true
      /\ exists pre dup post,
           messages = pre ++ dup :: post
           /\ Forall (fun m => mv_id m ∉ mv_id <$> prev) pre
           /\ mv_id dup ∈ mv_id <$> prev
           /\ forall m, m ∈ dup :: post ->
                mv_id m ∈ mv_id <$> (merge_loop messages prev false).1).
Proof.
  induction messages as [|m ms IH]; simpl.
  - left. repeat split; constructor.
  - destruct (matching (mv_id m) prev) as [|pm pms] eqn:Hm.
    + apply matching_nil in Hm. destruct IH as [(Hf & Hp & Hall)|(Ht & Hdup)].
      * left. repeat split; [done..|]. by constructor.
      * right. split; [done|].
        destruct Hdup as (pre & dup & post & -> & Hpre & Hd & Hin).
        exists (m :: pre), dup, post. repeat split; [|done..]. by constructor.
    + apply matching_cons in Hm. right. split; [apply merge_loop_merging|].
      exists [], m, ms. split; [done|]. split; [constructor|]. split; [done|].
      set (prev' := if mv_is_historical m then prev
                    else unset_historical (mv_id m) prev).
      assert (Hids : mv_id <$> prev' = mv_id <$> prev).
      { unfold prev'. destruct (mv_is_historical m); [done|].
        apply unset_historical_ids. }
      intros x [->|Hx]%elem_of_cons.
      * destruct (merge_loop_entries ms prev' true) as (app & -> & _).
        apply elem_of_app. left. by rewrite Hids.
      * by apply merge_loop_merging_all.
Qed.

Lemma unset_historical_lookup mid prev i m :
  prev !! i = Some m ->
  exists m', unset_historical mid prev !! i = Some m'
             /\ (m' = m \/ m' = set_is_historical false m).
Proof.
  revert i. induction prev as [|pm prev IH]; intros i Hi; [done|]. simpl.
  case_decide.
  - destruct i as [|i]; simpl in *.
    + injection Hi as ->. eauto.
    + eauto.
  - destruct i as [|i]; simpl in *; [eauto|]. by apply IH.
Qed.

Lemma merge_loop_only_clears_flags_aux (messages prev : list MessageVars)
    (merge : bool) (i : nat) (m : MessageVars) :
  prev !! i = Some m ->
  exists m',
    (merge_loop messages prev merge).1 !! i = Some m'
    /\ (m' = m \/ m' = set_is_historical false m).
Proof.
  revert prev merge m. induction messages as [|x ms IH];
    intros prev merge m Hi; simpl; [eauto|].
  destruct (matching (mv_id x) prev).
  - destruct merge; [|by apply IH].
    apply IH. by apply lookup_app_l_Some.
  - destruct (mv_is_historical x); [by apply IH|].
    destruct (unset_historical_lookup (mv_id x) prev i m Hi)
      as (m1 & H1 & Hm1).
    destruct (IH _ true m1 H1) as (m' & Hm' & Hcases).
    exists m'. split; [done|].
    destruct Hm1 as [->| ->]; [done|]. right.
    destruct Hcases as [->| ->]; [done | by destruct m].
Qed.

Lemma merge_loop_NoDup messages prev merge :
  NoDup (mv_id <$> prev) ->
  NoDup (mv_id <$> (merge_loop messages prev merge).1).
Proof.
  revert prev merge. induction messages as [|x ms IH]; intros prev merge Hnd;
    simpl; [done|].
  destruct (matching (mv_id x) prev) eqn:Hmatch.
  - destruct merge; [|by apply IH]. apply IH. rewrite fmap_app.
    apply NoDup_app. split; [done|]. split; [|apply NoDup_singleton].
    intros y Hy ->%list_elem_of_singleton. by apply matching_nil in Hmatch.
  - destruct (mv_is_historical x); [by apply IH|].
    apply IH. by rewrite unset_historical_ids.
Qed.

Lemma unset_historical_clears mid prev :
  mid ∈ mv_id <$> prev ->
  exists m', m' ∈ unset_historical mid prev
             /\ mv_id m' = mid /\ mv_is_historical m' = false.
Proof.
  induction prev as [|pm prev IH]; csimpl; intros Hin.
  - by apply elem_of_nil in Hin.
  - case_decide as Heq.
    + exists (set_is_historical false pm). split; [left | done].
    + apply elem_of_cons in Hin as [Hin|Hin]; [congruence|].
      destruct (IH Hin) as (m' & Hm' & Hid & Hhist).
      exists m'. split; [by right | done].
Qed.

Lemma merge_loop_keeps_cleared messages prev merge mid :
  (exists m', m' ∈ prev /\ mv_id m' = mid /\ mv_is_historical m' = false) ->
  exists m', m' ∈ (merge_loop messages prev merge).1
             /\ mv_id m' = mid /\ mv_is_historical m' = false.
Proof.
  intros (m0 & [i Hi]%list_elem_of_lookup & Hid & Hhist).
  destruct (merge_loop_only_clears_flags_aux messages prev merge i m0 Hi)
    as (m' & Hm' & Hcases).
  exists m'. split; [by eapply list_elem_of_lookup_2|].
  destruct Hcases as [->| ->]; [done|]. by destruct m0.
Qed.

(** A message of the notification that is its trigger and whose id is in
    the previous run leaves an entry of that id that is not historical. *)
Lemma merge_loop_trigger_entry messages prev merge m :
  m ∈ messages ->
  mv_is_historical m = false ->
  mv_id m ∈ mv_id <$> prev ->
  exists m0, m0 ∈ (merge_loop messages prev merge).1
             /\ mv_id m0 = mv_id m /\ mv_is_historical m0 = false.
Proof.
  intros Hm Hhist. revert prev merge.
  induction messages as [|x ms IH]; intros prev merge Hin; simpl.
  { by apply elem_of_nil in Hm. }
  apply elem_of_cons in Hm as [<-|Hm].
  - destruct (matching (mv_id m) prev) eqn:Hmatch.
    { apply matching_nil in Hmatch. done. }
    rewrite Hhist. apply merge_loop_keeps_cleared.
    by apply unset_historical_clears.
  - destruct (matching (mv_id x) prev).
    + destruct merge; [|by apply IH]. apply IH; [done|].
      rewrite fmap_app. apply elem_of_app. by left.
    + destruct (mv_is_historical x); [by apply IH|].
      apply IH; [done|]. by rewrite unset_historical_ids.
Qed.

(** A duplicate sets the flag [merge], which is never reset. *)
Lemma merge_loop_found messages prev merge m :
  m ∈ messages ->
  mv_id m ∈ mv_id <$> prev ->
  (merge_loop messages prev merge).2 = true.
Proof.
  intros Hm. revert prev merge.
  induction messages as [|x ms IH]; intros prev merge Hin; simpl.
  { by apply elem_of_nil in Hm. }
  apply elem_of_cons in Hm as [<-|Hm].
  - destruct (matching (mv_id m) prev) eqn:Hmatch.
    { apply matching_nil in Hmatch. done. }
    apply merge_loop_merging.
  - destruct (matching (mv_id x) prev).
    + destruct merge; [|by apply IH]. apply IH; [done|].
      rewrite fmap_app. apply elem_of_app. by left.
    + apply merge_loop_merging.
Qed.

(** ** Positions in a timeline *)

Lemma position_Some tl event_id i :
  position tl event_id = Some i ->
  exists e, tl !! i = Some e /\ ev_event_id e = event_id.
Proof.
  revert i. induction tl as [|e tl IH]; intros i; simpl; [done|].
  case_decide as Heq.
  - intros [= <-]. by exists e.
  - destruct (position tl event_id) as [j|]; [|done]. intros [= <-].
    by apply IH.
Qed.

Lemma position_lookup tl i e :
  NoDup (ev_event_id <$> tl) -> tl !! i = Some e ->
  position tl (ev_event_id e) = Some i.
Proof.
  revert i. induction tl as [|x tl IH]; intros i Hnd Hi; [done|].
  rewrite fmap_cons in Hnd. apply NoDup_cons in Hnd as [Hx Hnd]. simpl.
  destruct i as [|i]; simpl in Hi.
  - injection Hi as ->. by rewrite decide_True.
  - rewrite decide_False.
    + by rewrite (IH i).
    + intros Heq. apply Hx. rewrite Heq. apply list_elem_of_fmap.
      exists e. split; [done|]. by eapply list_elem_of_lookup_2.
Qed.

Lemma position_elem tl e :
  NoDup (ev_event_id <$> tl) -> e ∈ tl ->
  exists i, tl !! i = Some e /\ position tl (ev_event_id e) = Some i.
Proof.
  intros Hnd [i Hi]%list_elem_of_lookup. exists i. split; [done|].
  by apply position_lookup.
Qed.

(** With [before_limit = 1] the context before an event is the event just
    before it in the timeline, if there is one. *)
Lemma events_around_before tl event_id after ctx :
  events_around tl event_id 1 after = Ok ctx ->
  exists i, position tl event_id = Some i
    /\ forall e, e ∈ events_before ctx -> exists j, i = S j /\ tl !! j = Some e.
Proof.
  unfold events_around. destruct (position tl event_id) as [i|]; [|done].
  intros [= <-]. exists i. split; [done|]. simpl.
  intros e [k Hk]%list_elem_of_lookup. rewrite lookup_drop in Hk.
  apply lookup_take_Some in Hk as [Hk Hlt].
  destruct i as [|j]; [lia|]. exists j. split; [done|].
  replace (S j - 1 + k)%nat with j in Hk by lia. done.
Qed.

Lemma events_around_before_length tl event_id after ctx :
  events_around tl event_id 1 after = Ok ctx ->
  (length (events_before ctx) <= 1)%nat.
Proof.
  unfold events_around. destruct (position tl event_id) as [i|]; [|done].
  intros [= <-]. simpl. rewrite length_drop, length_take. lia.
Qed.

(** ** Notifications in timeline order *)

Section chronological.
Variables (hs : Homeserver) (tl : list Event) (room_id user_id : pystr).
Variables (notif_events : gmap pystr Event) (notifs : list PushAction).
Variable st : StateIds.
Hypothesis Hstore : room_store hs tl room_id user_id notif_events notifs.

(** The message list of a notification, relative to the timeline: the
    events it is taken from are the notified event, at position [q], and
    before it at most the event at position [q - 1]. *)
Lemma notif_window n e nv :
  n ∈ notifs ->
  notif_events !! pa_event_id n = Some e ->
  get_notif_vars hs n user_id e st = Ok nv ->
  exists q results the_events,
    position tl (pa_event_id n) = Some q
    /\ tl !! q = Some e
    /\ get_events_around hs room_id (pa_event_id n)
         CONTEXT_BEFORE CONTEXT_AFTER = Ok results
    /\ filter_events_for_client hs user_id (events_before results)
       = Ok the_events
    /\ (length the_events <= 1)%nat
    /\ (forall eb, eb ∈ the_events -> exists j, q = S j /\ tl !! j = Some eb)
    /\ Forall2 (fun e' m => get_message_vars hs n e' st = Ok (Some m))
         (filter (fun e' => ev_type e' = EventTypes_Message hs)
        (the_events ++ [e])) (nv_messages nv).
Proof.
  intros Hn He Hrun.
  apply get_notif_vars_Ok in Hrun as (results & vb & Haround & Hfilter & Hm).
  rewrite (notifs_of_this_room _ _ _ _ _ _ Hstore n Hn) in Haround.
  destruct (notif_events_of_timeline _ _ _ _ _ _ Hstore n e Hn He)
    as [Hin Hid].
  destruct (position_elem tl e (timeline_ids_distinct _ _ _ _ _ _ Hstore) Hin)
    as (q & Hq & Hpos).
  rewrite Hid in Hpos.
  assert (Hmodel := Haround).
  rewrite (around_timeline _ _ _ _ _ _ Hstore) in Hmodel.
  apply events_around_before in Hmodel as Hbefore.
  destruct Hbefore as (i & Hi & Hbefore).
  assert (i = q) as -> by congruence.
  apply events_around_before_length in Hmodel.
  apply (filter_removes _ _ _ _ _ _ Hstore) in Hfilter as Hsub.
  exists q, results, vb. repeat split; try done.
  - apply sublist_length in Hsub. lia.
  - intros eb Heb. apply Hbefore. by eapply elem_of_sublist.
Qed.

Lemma Forall2_elem_r {A B} (R : A -> B -> Prop) l k y :
  Forall2 R l k -> y ∈ k -> exists x, x ∈ l /\ R x y.
Proof.
  induction 1 as [|x z l k Hxz _ IH]; intros Hy.
  - by apply elem_of_nil in Hy.
  - apply elem_of_cons in Hy as [->|Hy].
    + exists x. split; [left | done].
    + destruct (IH Hy) as (x' & Hx' & HR). exists x'. split; [by right | done].
Qed.

Lemma Forall2_elem_l {A B} (R : A -> B -> Prop) l k x :
  Forall2 R l k -> x ∈ l -> exists y, y ∈ k /\ R x y.
Proof.
  induction 1 as [|x' z l k Hxz _ IH]; intros Hx.
  - by apply elem_of_nil in Hx.
  - apply elem_of_cons in Hx as [->|Hx].
    + exists z. split; [left | done].
    + destruct (IH Hx) as (y & Hy & HR). exists y. split; [by right | done].
Qed.

(** Every message of a notification comes from the event at the position
    of the notification or just before it, and is historical exactly when
    it is not the notified event. *)
Lemma notif_message_position n e nv m :
  n ∈ notifs ->
  notif_events !! pa_event_id n = Some e ->
  get_notif_vars hs n user_id e st = Ok nv ->
  m ∈ nv_messages nv ->
  exists q j e',
    position tl (pa_event_id n) = Some q
    /\ position tl (mv_id m) = Some j
    /\ tl !! j = Some e'
    /\ ev_type e' = EventTypes_Message hs
    /\ ev_event_id e' = mv_id m
    /\ (j = q \/ S j = q)
    /\ mv_is_historical m = bool_decide (mv_id m ≠ pa_event_id n).
Proof.
  intros Hn He Hrun Hm.
  destruct (notif_window n e nv Hn He Hrun)
    as (q & results & vb & Hq & Hlook & _ & _ & _ & Hvb & Hmsgs).
  destruct (Forall2_elem_r _ _ _ m Hmsgs Hm) as (e' & He' & Hvars).
  apply list_elem_of_filter in He' as [Hty He'].
  apply get_message_vars_fields in Hvars as (Hid & Hhist & _).
  assert (Hnd := timeline_ids_distinct _ _ _ _ _ _ Hstore).
  apply elem_of_app in He' as [He'|He'].
  - destruct (Hvb e' He') as (j & -> & Hj).
    exists (S j), j, e'. rewrite Hid, Hhist.
    repeat split; try done; [by apply position_lookup | by right].
  - apply list_elem_of_singleton in He' as ->.
    exists q, q, e. rewrite Hid, Hhist.
    repeat split; try done; [by apply position_lookup | by left].
Qed.

(** A message of the notification is shown for every event of type message
    in its window. *)
Lemma notif_window_shown n e nv results the_events e' :
  n ∈ notifs ->
  notif_events !! pa_event_id n = Some e ->
  get_notif_vars hs n user_id e st = Ok nv ->
  get_events_around hs room_id (pa_event_id n) CONTEXT_BEFORE CONTEXT_AFTER
  = Ok results ->
  filter_events_for_client hs user_id (events_before results) = Ok the_events ->
  e' ∈ the_events ++ [e] ->
  (ev_type e' = EventTypes_Message hs <-> ev_event_id e' ∈ message_ids nv).
Proof.
  intros Hn He Hrun Haround Hfilter He'.
  destruct (notif_window n e nv Hn He Hrun)
    as (q & results' & vb & Hq & Hlook & Haround' & Hfilter' & _ & Hvb & Hmsgs).
  assert (results' = results) as -> by congruence.
  assert (vb = the_events) as -> by congruence.
  assert (Hnd := timeline_ids_distinct _ _ _ _ _ _ Hstore).
  split.
  - intros Hty.
    destruct (Forall2_elem_l _ _ _ e' Hmsgs) as (m & Hm & Hvars).
    { by apply list_elem_of_filter. }
    apply get_message_vars_fields in Hvars as (Hid & _).
    rewrite <- Hid. apply list_elem_of_fmap. eauto.
  - intros (m & Hid & Hm)%list_elem_of_fmap.
    destruct (Forall2_elem_r _ _ _ m Hmsgs Hm) as (e'' & He'' & Hvars).
    apply list_elem_of_filter in He'' as [Hty He''].
    apply get_message_vars_fields in Hvars as (Hid' & _).
    assert (Hsame : forall x, x ∈ the_events ++ [e] -> x ∈ tl).
    { intros x [Hx|Hx]%elem_of_app.
      - destruct (Hvb x Hx) as (j & _ & Hj). by eapply list_elem_of_lookup_2.
      - apply list_elem_of_singleton in Hx as ->.
        by eapply list_elem_of_lookup_2. }
    assert (e' = e'') as ->; [|done].
    destruct (position_elem tl e' Hnd (Hsame _ He')) as (i & Hi & Hpi).
    destruct (position_elem tl e'' Hnd (Hsame _ He'')) as (i' & Hi' & Hpi').
    assert (i = i') as -> by congruence. congruence.
Qed.

Lemma notif_ids_NoDup n e nv :
  n ∈ notifs ->
  notif_events !! pa_event_id n = Some e ->
  get_notif_vars hs n user_id e st = Ok nv ->
  NoDup (message_ids nv).
Proof.
  intros Hn He Hrun.
  destruct (notif_window n e nv Hn He Hrun)
    as (q & results & vb & Hq & Hlook & Haround & Hfilter & Hlen & Hvb & _).
  destruct (get_notif_vars_ids hs n user_id e st nv Hrun)
    as (results' & vb' & Haround' & Hfilter' & ->).
  rewrite (notifs_of_this_room _ _ _ _ _ _ Hstore n Hn) in Haround'.
  assert (results' = results) as -> by congruence.
  assert (vb' = vb) as -> by congruence.
  assert (Hnd := timeline_ids_distinct _ _ _ _ _ _ Hstore).
  eapply sublist_NoDup; [|apply fmap_sublist, sublist_filter].
  destruct vb as [|eb [|eb' vb]]; [| |simpl in Hlen; lia]; csimpl.
  - apply NoDup_singleton.
  - destruct (Hvb eb) as (j & -> & Hj); [left|].
    apply NoDup_cons. split; [|apply NoDup_singleton].
    intros Heq%list_elem_of_singleton.
    apply (position_lookup tl _ _ Hnd) in Hj, Hlook.
    rewrite Heq in Hj. assert (j = S j) by congruence. lia.
Qed.

(** In the message list of a notification, whatever comes after another
    message is the notified event. *)
Lemma notif_after_prefix n e nv pre dup post :
  n ∈ notifs ->
  notif_events !! pa_event_id n = Some e ->
  get_notif_vars hs n user_id e st = Ok nv ->
  nv_messages nv = pre ++ dup :: post ->
  pre ≠ [] ->
  mv_id dup = pa_event_id n.
Proof.
  intros Hn He Hrun Hsplit Hpre.
  destruct (notif_window n e nv Hn He Hrun)
    as (q & results & vb & _ & _ & _ & _ & Hlen & _ & Hmsgs).
  destruct (notif_events_of_timeline _ _ _ _ _ _ Hstore n e Hn He) as [_ Hid].
  rewrite Hsplit in Hmsgs.
  apply Forall2_app_inv_r in Hmsgs as (epre & erest & Hepre & Herest & Hevs).
  apply Forall2_cons_inv_r in Herest as (ed & epost & Hed & _ & ->).
  apply get_message_vars_fields in Hed as (Hdup & _).
  apply Forall2_length in Hepre.
  destruct pre as [|x pre]; [done|]. destruct epre as [|ex epre]; [done|].
  rewrite filter_app in Hevs.
  assert (ed = e) as ->; [|congruence].
  destruct vb as [|eb [|eb' vb]]; [| |simpl in Hlen; lia].
  - rewrite filter_nil, app_nil_l, filter_cons, filter_nil in Hevs.
    case_decide; simplify_list_eq; by destruct epre.
  - rewrite !(filter_cons _ eb), !(filter_cons _ e), !filter_nil in Hevs.
    repeat case_decide; simplify_list_eq; try done;
      destruct epre; simplify_list_eq; try done; by destruct epre.
Qed.

(** A notification for the event of an earlier notification shows nothing
    that the run covering the earlier one does not hold. *)
Lemma same_event_covered n0 n e nv lr x :
  n ∈ notifs ->
  pa_event_id n0 = pa_event_id n ->
  run_covers hs room_id user_id notif_events n0 lr ->
  notif_events !! pa_event_id n = Some e ->
  get_notif_vars hs n user_id e st = Ok nv ->
  x ∈ message_ids nv ->
  x ∈ message_ids lr.
Proof.
  intros Hn Hsame (e0 & results0 & vb0 & He0 & Haround0 & Hfilter0 & Hcov)
    He Hrun Hx.
  rewrite Hsame in He0, Haround0. assert (e0 = e) as -> by congruence.
  destruct (notif_window n e nv Hn He Hrun)
    as (q & results & vb & _ & _ & Haround & Hfilter & _ & _ & Hmsgs).
  assert (results = results0) as -> by congruence.
  assert (vb = vb0) as -> by congruence.
  apply list_elem_of_fmap in Hx as (m & -> & Hm).
  destruct (Forall2_elem_r _ _ _ m Hmsgs Hm) as (e' & He' & Hvars).
  apply list_elem_of_filter in He' as [Hty He'].
  apply get_message_vars_fields in Hvars as (-> & _).
  by apply Hcov.
Qed.

Lemma same_position_same_event n1 n2 p :
  position tl (pa_event_id n1) = Some p ->
  position tl (pa_event_id n2) = Some p ->
  pa_event_id n1 = pa_event_id n2.
Proof.
  intros (e1 & H1 & <-)%position_Some (e2 & H2 & <-)%position_Some. congruence.
Qed.

(** A message of a notification that lies no later than the event of an
    earlier notification is in the run that covers the earlier one. *)
Lemma earlier_message_covered n0 p lr n q e nv x j :
  n0 ∈ notifs -> n ∈ notifs ->
  position tl (pa_event_id n0) = Some p ->
  run_covers hs room_id user_id notif_events n0 lr ->
  notif_events !! pa_event_id n = Some e ->
  get_notif_vars hs n user_id e st = Ok nv ->
  position tl (pa_event_id n) = Some q ->
  (p <= q)%nat ->
  x ∈ message_ids nv ->
  position tl x = Some j ->
  (j <= p)%nat ->
  x ∈ message_ids lr.
Proof.
  intros Hn0 Hn Hp Hcov He Hrun Hq Hpq Hx Hj Hjp.
  destruct (decide (p = q)) as [->|Hne].
  { apply (same_event_covered n0 n e nv lr x); try done.
    by apply (same_position_same_event n0 n q). }
  apply list_elem_of_fmap in Hx as Hm. destruct Hm as (m & -> & Hm).
  destruct (notif_message_position n e nv m Hn He Hrun Hm)
    as (q' & j' & e' & Hq' & Hj' & Hlook & Hty & Hid & Hwin & _).
  assert (q' = q) as -> by congruence. assert (j' = j) as -> by congruence.
  assert (j = p) as -> by lia.
  destruct Hcov as (e0 & results0 & vb0 & He0 & _ & _ & Hcov).
  destruct (notif_events_of_timeline _ _ _ _ _ _ Hstore n0 e0 Hn0 He0)
    as [Hin0 Hid0].
  destruct (position_elem tl e0 (timeline_ids_distinct _ _ _ _ _ _ Hstore) Hin0)
    as (i & Hi & Hpi).
  rewrite Hid0 in Hpi. assert (i = p) as -> by congruence.
  assert (e0 = e') as -> by congruence.
  rewrite <- Hid. apply Hcov; [|done]. apply elem_of_app. right. left.
Qed.

(** A run that holds all messages of a notification covers it. *)
Lemma run_covers_own n e nv lr :
  n ∈ notifs ->
  notif_events !! pa_event_id n = Some e ->
  get_notif_vars hs n user_id e st = Ok nv ->
  (forall x, x ∈ message_ids nv -> x ∈ message_ids lr) ->
  run_covers hs room_id user_id notif_events n lr.
Proof.
  intros Hn He Hrun Hsub.
  destruct (notif_window n e nv Hn He Hrun)
    as (q & results & vb & _ & _ & Haround & Hfilter & _).
  exists e, results, vb. repeat split; [done..|]. intros e' He' Hty.
  apply Hsub. by eapply notif_window_shown.
Qed.
End chronological.

Lemma all_messages_app notifs1 notifs2 :
  all_messages (notifs1 ++ notifs2) = all_messages notifs1 ++ all_messages notifs2.
Proof. unfold all_messages. by rewrite fmap_app, concat_app. Qed.

Lemma all_message_ids_messages notifs :
  all_message_ids notifs = mv_id <$> all_messages notifs.
Proof.
  unfold all_message_ids, all_messages, message_ids.
  induction notifs as [|r notifs IH]; csimpl; [done|].
  by rewrite fmap_app, IH.
Qed.

Section merge_in_order.
Variables (hs : Homeserver) (tl : list Event) (room_id user_id : pystr).
Variables (notif_events : gmap pystr Event) (notifs : list PushAction).
Variable st : StateIds.
Hypothesis Hstore : room_store hs tl room_id user_id notif_events notifs.

Lemma notif_ids_positions n e nv x :
  n ∈ notifs ->
  notif_events !! pa_event_id n = Some e ->
  get_notif_vars hs n user_id e st = Ok nv ->
  x ∈ message_ids nv ->
  exists q j, position tl (pa_event_id n) = Some q
              /\ position tl x = Some j /\ (j <= q)%nat.
Proof.
  intros Hn He Hrun (m & -> & Hm)%list_elem_of_fmap.
  destruct (notif_message_position hs tl room_id user_id notif_events notifs
              st Hstore n e nv m Hn He Hrun Hm)
    as (q & j & e' & Hq & Hj & _ & _ & _ & Hwin & _).
  exists q, j. repeat split; [done..|]. lia.
Qed.

Lemma notif_trigger_flag n e nv m :
  n ∈ notifs ->
  notif_events !! pa_event_id n = Some e ->
  get_notif_vars hs n user_id e st = Ok nv ->
  m ∈ nv_messages nv ->
  pa_event_id n = mv_id m ->
  mv_is_historical m = false.
Proof.
  intros Hn He Hrun Hm Hid.
  destruct (notif_message_position hs tl room_id user_id notif_events notifs
              st Hstore n e nv m Hn He Hrun Hm)
    as (q & j & e' & _ & _ & _ & _ & _ & _ & ->).
  apply bool_decide_eq_false_2. intros Hne. by apply Hne.
Qed.

(** The invariant after the first notification of a room. *)
Lemma first_notification_in_order n e nv :
  n ∈ notifs ->
  notif_events !! pa_event_id n = Some e ->
  get_notif_vars hs n user_id e st = Ok nv ->
  merged_in_order hs tl room_id user_id notif_events [n] [nv].
Proof.
  intros Hn He Hrun.
  destruct (notif_window hs tl room_id user_id notif_events notifs st Hstore
              n e nv Hn He Hrun) as (q & _ & _ & Hq & _).
  assert (Hids : all_message_ids [nv] = message_ids nv).
  { unfold all_message_ids. csimpl. by rewrite app_nil_r. }
  assert (Hmsgs : all_messages [nv] = nv_messages nv).
  { unfold all_messages. csimpl. by rewrite app_nil_r. }
  exists n, q, nv. rewrite Hids, Hmsgs. repeat split; try done.
  - by apply (run_covers_own hs tl room_id user_id notif_events notifs st
                Hstore n e nv).
  - intros n' ->%list_elem_of_singleton. by exists q.
  - intros x Hx.
    destruct (notif_ids_positions n e nv x Hn He Hrun Hx)
      as (q' & j & Hq' & Hj & Hle).
    exists j. split; [done|]. congruence.
  - by apply (notif_ids_NoDup hs tl room_id user_id notif_events notifs st
                Hstore n e nv).
  - intros m n' Hm ->%list_elem_of_singleton Hid.
    by eapply notif_trigger_flag.
Qed.

(** The invariant is kept by the merge of the next notification in
    timeline order. *)
Lemma next_notification_in_order done n runs e nv :
  (forall n', n' ∈ done ++ [n] -> n' ∈ notifs) ->
  in_timeline_order tl (done ++ [n]) ->
  merged_in_order hs tl room_id user_id notif_events done runs ->
  notif_events !! pa_event_id n = Some e ->
  get_notif_vars hs n user_id e st = Ok nv ->
  merged_in_order hs tl room_id user_id notif_events (done ++ [n])
    (merge_notif runs nv).
Proof.
  intros Hsub Horder
    (n0 & p & lr0 & Hlast & Hp & Hlr & Hcov & Hdone & Hbound & Hnd & Hflags)
    He Hrun.
  assert (Hn : n ∈ notifs) by (apply Hsub, elem_of_app; right; left).
  assert (Hn0 : n0 ∈ done) by (by apply last_Some_elem_of).
  assert (Hn0' : n0 ∈ notifs) by (apply Hsub, elem_of_app; by left).
  destruct (notif_window hs tl room_id user_id notif_events notifs st Hstore
              n e nv Hn He Hrun) as (q & _ & _ & Hq & _).
  assert (Hearlier : forall n', n' ∈ done ->
            exists p', position tl (pa_event_id n') = Some p' /\ (p' <= q)%nat).
  { intros n' Hn'.
    destruct (StronglySorted_app_1_elem_of _ _ _ n' n Horder Hn')
      as (p1 & p2 & Hp1 & Hp2 & Hle); [left|].
    exists p1. split; [done|]. congruence. }
  assert (Hpq : (p <= q)%nat).
  { destruct (Hearlier n0 Hn0) as (p' & Hp' & Hle). congruence. }
  apply last_Some in Hlr as [init ->].
  (* the messages of the notification that are no later than the last
     notified event are in the last run *)
  assert (Hcore : forall x j, x ∈ message_ids nv -> position tl x = Some j ->
            (j <= p)%nat -> x ∈ message_ids lr0).
  { intros x j Hx Hj Hjp.
    by apply (earlier_message_covered hs tl room_id user_id notif_events
                notifs st Hstore n0 p lr0 n q e nv x j). }
  assert (Hseen : forall x, x ∈ message_ids nv ->
            x ∈ all_message_ids (init ++ [lr0]) -> x ∈ message_ids lr0).
  { intros x Hx Hold. destruct (Hbound x Hold) as (j & Hj & Hjp). eauto. }
  assert (Hnotified : forall m n', m ∈ nv_messages nv -> n' ∈ done ->
            pa_event_id n' = mv_id m -> mv_id m ∈ message_ids lr0).
  { intros m n' Hm Hn' Hid. destruct (Hdone n' Hn') as (p' & Hp' & Hle).
    apply (Hcore _ p'); [|congruence|done].
    apply list_elem_of_fmap. eauto. }
  assert (Hagain : forall m, m ∈ all_messages (init ++ [lr0]) ->
            pa_event_id n = mv_id m -> mv_is_historical m = false).
  { intros m Hm Hid. apply (Hflags m n0 Hm Hn0).
    destruct (Hbound (mv_id m)) as (j & Hj & Hjp).
    { rewrite all_message_ids_messages. apply list_elem_of_fmap. eauto. }
    rewrite <- Hid. apply (same_position_same_event tl n0 n p); [done|].
    rewrite Hid, Hj. f_equal. rewrite <- Hid, Hq in Hj. injection Hj as <-. lia. }
  assert (Hnew_pos : forall x, x ∈ message_ids nv ->
            exists j, position tl x = Some j /\ (j <= q)%nat).
  { intros x Hx.
    destruct (notif_ids_positions n e nv x Hn He Hrun Hx)
      as (q' & j & Hq' & Hj & Hle).
    exists j. split; [done|]. congruence. }
  assert (Hlast' : last (done ++ [n]) = Some n) by apply last_snoc.
  assert (Hnv_nd : NoDup (message_ids nv)).
  { by apply (notif_ids_NoDup hs tl room_id user_id notif_events notifs st
                Hstore n e nv). }
  assert (Hown : forall lr,
            (forall x, x ∈ message_ids nv -> x ∈ message_ids lr) ->
            run_covers hs room_id user_id notif_events n lr).
  { intros lr Hlr.
    by apply (run_covers_own hs tl room_id user_id notif_events notifs st
                Hstore n e nv). }
  assert (Hdone' : forall n', n' ∈ done ++ [n] ->
            exists p', position tl (pa_event_id n') = Some p' /\ (p' <= q)%nat).
  { intros n' [Hn' | ->%list_elem_of_singleton]%elem_of_app; [auto|].
    by exists q. }
  rewrite merge_notif_snoc. simpl.
  destruct (merge_loop_cases (nv_messages nv) (nv_messages lr0))
    as [(Hf & Hsame & Hnone)|(Ht & pre & dup & post & Hsplit & Hpre & Hdup & Hall)].
  - (* no duplicate: the notification is a new run *)
    rewrite Hf, Hsame, set_messages_same.
    replace (init ++ [lr0; nv]) with ((init ++ [lr0]) ++ [nv])
      by (by rewrite <- app_assoc).
    assert (Hfresh : forall m, m ∈ nv_messages nv ->
              mv_id m ∉ message_ids lr0).
    { intros m Hm. by apply (proj1 (Forall_forall _ _) Hnone). }
    exists n, q, nv. split; [done|]. split; [done|].
    split; [apply last_snoc|]. split; [by apply Hown|].
    split; [done|]. rewrite all_message_ids_app, all_messages_app.
    replace (all_message_ids [nv]) with (message_ids nv)
      by (unfold all_message_ids; csimpl; by rewrite app_nil_r).
    replace (all_messages [nv]) with (nv_messages nv)
      by (unfold all_messages; csimpl; by rewrite app_nil_r).
    split; [|split].
    + intros x [Hx|Hx]%elem_of_app; [|auto].
      destruct (Hbound x Hx) as (j & Hj & Hjp). exists j. split; [done|]. lia.
    + apply NoDup_app. split; [done|]. split; [|done].
      intros x Hold Hx. apply list_elem_of_fmap in Hx as Hm.
      destruct Hm as (m & -> & Hm). by apply (Hfresh m Hm), Hseen.
    + intros m n' [Hm|Hm]%elem_of_app
        [Hn' | ->%list_elem_of_singleton]%elem_of_app Hid.
      * by apply (Hflags m n').
      * by apply Hagain.
      * destruct (Hfresh m Hm). by apply (Hnotified m n').
      * by apply (notif_trigger_flag n e nv m).
  - (* a duplicate: the last run is extended *)
    rewrite Ht.
    destruct (merge_loop_entries (nv_messages nv) (nv_messages lr0) false)
      as (app & Hids & Happ & Hnew & Hold).
    set (merged := (merge_loop (nv_messages nv) (nv_messages lr0) false).1)
      in *.
    assert (Happ_in : forall m, m ∈ app -> m ∈ nv_messages nv)
      by (intros m Hm; by eapply elem_of_sublist).
    assert (Hids' : all_message_ids (init ++ [set_messages merged lr0])
              = all_message_ids (init ++ [lr0]) ++ (mv_id <$> app)).
    { rewrite !all_message_ids_app, <- app_assoc. f_equal.
      unfold all_message_ids, message_ids. csimpl.
      by rewrite !app_nil_r, Hids. }
    assert (Hmsgs' : all_messages (init ++ [set_messages merged lr0])
              = all_messages init ++ merged).
    { rewrite all_messages_app. unfold all_messages at 2. csimpl.
      by rewrite app_nil_r. }
    exists n, q, (set_messages merged lr0). split; [done|]. split; [done|].
    split; [apply last_snoc|]. split; [|split; [done|]].
    { apply Hown. intros x Hx.
      apply list_elem_of_fmap in Hx as Hm. destruct Hm as (m & -> & Hm).
      unfold message_ids. simpl. rewrite Hsplit in Hm.
      apply elem_of_app in Hm as [Hm|Hm]; [|by apply Hall].
      (* a skipped message would come before the notified event, which is
         in the last run: the same event was notified last *)
      exfalso. apply (proj1 (Forall_forall _ _) Hpre m Hm).
      assert (Hdup_id : mv_id dup = pa_event_id n).
      { eapply (notif_after_prefix hs tl room_id user_id notif_events notifs
                  st Hstore n e nv pre dup post); try done.
        intros ->. by apply elem_of_nil in Hm. }
      destruct (Hbound (mv_id dup)) as (jd & Hjd & Hjdp).
      { rewrite all_message_ids_app. apply elem_of_app. right.
        unfold all_message_ids. csimpl. by rewrite app_nil_r. }
      rewrite Hdup_id, Hq in Hjd. injection Hjd as <-.
      destruct (Hnew_pos (mv_id m)) as (j & Hj & Hjq).
      { apply list_elem_of_fmap. exists m. split; [done|].
        rewrite Hsplit. apply elem_of_app. by left. }
      apply (Hcore _ j); [|done|lia].
      apply list_elem_of_fmap. exists m. split; [done|].
      rewrite Hsplit. apply elem_of_app. by left. }
    rewrite Hids', Hmsgs'. split; [|split].
    + intros x [Hx|Hx]%elem_of_app.
      * destruct (Hbound x Hx) as (j & Hj & Hjp). exists j. split; [done|]. lia.
      * apply Hnew_pos. apply list_elem_of_fmap in Hx as (m & -> & Hm).
        apply list_elem_of_fmap. eauto.
    + apply NoDup_app. split; [done|]. split.
      * intros x Hx Hx'. apply list_elem_of_fmap in Hx' as Hm.
        destruct Hm as (m & -> & Hm).
        apply (proj1 (Forall_forall _ _) Hnew m Hm). apply Hseen; [|done].
        apply list_elem_of_fmap. eauto.
      * eapply sublist_NoDup; [exact Hnv_nd|]. by apply fmap_sublist.
    + assert (Hinit : forall m, m ∈ all_messages init ->
                m ∈ all_messages (init ++ [lr0])).
      { intros m Hm. rewrite all_messages_app. apply elem_of_app. by left. }
      assert (Hprev : forall m, m ∈ nv_messages lr0 ->
                m ∈ all_messages (init ++ [lr0])).
      { intros m Hm. rewrite all_messages_app. apply elem_of_app. right.
        unfold all_messages. csimpl. by rewrite app_nil_r. }
      intros m n' Hm Hn' Hid.
      destruct (mv_is_historical m) eqn:Hhist; [|done].
      assert (Hcases : m ∈ all_messages (init ++ [lr0])
                       \/ (m ∈ app /\ mv_id m ∉ message_ids lr0)).
      { apply elem_of_app in Hm as [Hm|Hm]; [left; auto|].
        destruct (Hold m Hm Hhist) as [Hm'|Hm']; [left; auto|].
        right. split; [done|]. by apply (proj1 (Forall_forall _ _) Hnew). }
      apply elem_of_app in Hn' as [Hn' | ->%list_elem_of_singleton].
      * destruct Hcases as [Hm'|[Hm' Hfresh]].
        -- rewrite <- Hhist. by apply (Hflags m n').
        -- destruct Hfresh. apply (Hnotified m n'); auto.
      * destruct Hcases as [Hm'|[Hm' Hfresh]].
        -- rewrite <- Hhist. by apply Hagain.
        -- rewrite <- Hhist.
           apply (notif_trigger_flag n e nv m); auto.
Qed.

(** The loop of [get_room_vars] over notifications in timeline order
    establishes the invariant. *)
Lemma room_loop_in_order done runs :
  (forall n', n' ∈ done -> n' ∈ notifs) ->
  in_timeline_order tl done ->
  foldlM (room_notif_step hs user_id notif_events st) [] done = Ok runs ->
  (done = [] /\ runs = [])
  \/ merged_in_order hs tl room_id user_id notif_events done runs.
Proof.
  revert runs. induction done as [|n done IH] using rev_ind;
    intros runs Hsub Horder Hrun.
  - left. by injection Hrun as <-.
  - right. rewrite foldlM_app in Hrun. bind_inv Hrun. simpl in Hrun.
    bind_inv Hrun. injection Hrun as <-.
    unfold room_notif_step in Hstep0. bind_inv Hstep0.
    apply ret_Ok in Hstep0. subst a0. apply getitem_Ok in Hstep1.
    assert (Hprefix : (done = [] /\ a = [])
              \/ merged_in_order hs tl room_id user_id notif_events done a).
    { apply IH; [|by apply StronglySorted_app_1_l in Horder|done].
      intros n' Hn'. apply Hsub, elem_of_app. by left. }
    destruct Hprefix as [[-> ->]|Hinv].
    + apply first_notification_in_order with (e := a1); [|done..].
      apply Hsub, elem_of_app. right. left.
    + by apply next_notification_in_order with (e := a1).
Qed.
End merge_in_order.


Lemma demo_room_store (notifs : list PushAction) :
  Forall (fun n => pa_room_id n = lit "!r") notifs ->
  room_store demo_hs demo_timeline (lit "!r") (lit "@alice") demo_events notifs.
Proof.
  intros Hroom. split.
  - by_compute.
  - intros event_id. reflexivity.
  - intros events visible_events [= <-]. apply sublist_filter.
  - intros n Hn. by apply (proj1 (Forall_forall _ _) Hroom).
  - intros n e _ He. unfold demo_events in He.
    apply elem_of_list_to_map_2 in He.
    apply list_elem_of_fmap in He as (e' & [= Hid ->] & He').
    split; [done|]. by rewrite Hid.
Qed.


(** The precondition of the merge is needed.  With notifications for
    [$e2], [$e4] and [$e2] again, which are not in chronological order, the
    third one finds no duplicate in the run of the second and becomes a run
    of its own, so that [$e1] and [$e2] occur twice: only the last run is
    searched. *)
Lemma merged_runs_repeat_events :
  exists rv,
    get_room_vars demo_hs (lit "!r") (lit "@alice") repeated_notifs demo_events
      demo_state = Ok rv
    /\ rv_invite rv = false
    /\ (message_ids <$> rv_notifs rv)
       = [[lit "$e1"; lit "$e2"]; [lit "$e3"; lit "$e4"];
          [lit "$e1"; lit "$e2"]]
    /\ ~ NoDup (all_message_ids (rv_notifs rv)).
Proof.
  destruct (get_room_vars demo_hs (lit "!r") (lit "@alice") repeated_notifs
              demo_events demo_state) as [rv|e] eqn:Hrun;
    [|by vm_compute in Hrun].
  exists rv. split; [reflexivity|].
  vm_compute in Hrun. injection Hrun as <-.
  split; [reflexivity|]. split; [reflexivity|].
  intros Hnd. apply NoDup_cons in Hnd as [Hnotin _]. apply Hnotin.
  vm_compute. do 3 right. left.
Qed.

(** ** The state-fetch phase *)

Lemma in_flight_bound {A} (places : list (option A)) :
  (length (omap id places) <= length places)%nat.
Proof.
  induction places as [|x places IH]; csimpl; [lia|].
  destruct x; csimpl; lia.
Qed.

Lemma in_flight_admit {A} (places : list (option A)) (i : nat) (a : A) :
  places !! i = Some None ->
  omap id (<[i := Some a]> places) ≡ₚ a :: omap id places.
Proof.
  revert i. induction places as [|x places IH]; intros i Hi; [done|].
  destruct i as [|i]; simpl in Hi.
  - injection Hi as ->. done.
  - csimpl. destruct x as [b|]; csimpl; [|by apply IH].
    rewrite (IH i Hi). apply Permutation_swap.
Qed.

Lemma in_flight_complete {A} (places : list (option A)) (i : nat) (a : A) :
  places !! i = Some (Some a) ->
  omap id places ≡ₚ a :: omap id (<[i := None]> places).
Proof.
  revert i. induction places as [|x places IH]; intros i Hi; [done|].
  destruct i as [|i]; simpl in Hi.
  - injection Hi as ->. done.
  - csimpl. destruct x as [b|]; csimpl; [|by apply IH].
    rewrite (IH i Hi). apply Permutation_swap.
Qed.

Lemma in_flight_nil {A} (places : list (option A)) (i : nat) (x : option A) :
  omap id places = [] -> places !! i = Some x -> x = None.
Proof.
  revert i. induction places as [|y places IH]; intros i Hnil Hi; [done|].
  csimpl in Hnil. destruct y as [b|]; [done|]. csimpl in Hnil.
  destruct i as [|i]; simpl in Hi; [congruence|]. by apply (IH i).
Qed.

Lemma in_flight_cons {A} (places : list (option A)) (a : A) (rest : list A) :
  omap id places = a :: rest -> exists i, places !! i = Some (Some a).
Proof.
  induction places as [|y places IH]; csimpl; [done|].
  destruct y as [b|]; csimpl.
  - intros [= -> _]. by exists 0%nat.
  - intros Hrest. destruct (IH Hrest) as [i Hi]. by exists (S i).
Qed.

Lemma mapM_snoc_Ok {A B} (f : A -> result B) l k x y :
  mapM f l = Ok k -> f x = Ok y -> mapM f (l ++ [x]) = Ok (k ++ [y]).
Proof.
  rewrite !mapM_Ok_Forall2. intros Hl Hx. apply Forall2_app; [done|].
  by repeat constructor.
Qed.

Lemma mapM_snoc_Err {A B} (f : A -> result B) l k x rest e :
  mapM f l = Ok k -> f x = Err e -> mapM f (l ++ x :: rest) = Err e.
Proof.
  rewrite mapM_Ok_Forall2. intros Hl Hx.
  induction Hl as [|z y l k Hzy _ IH]; simpl.
  - by rewrite Hx.
  - rewrite Hzy. simpl. by rewrite IH.
Qed.

Section mail_steps.
Variable hs : Homeserver.
Variables (app_id user_id email_address : pystr).
Variables (push_actions : list PushAction) (reason : Reason).

Lemma fetch_all_total (state_by_room : gmap pystr StateIds) pending :
  (forall r, r ∈ pending -> is_Ok (get_current_state_ids hs r)) ->
  is_Ok (foldlM (fetch_room_state hs) state_by_room pending).
Proof.
  revert state_by_room. induction pending as [|r pending IH]; intros m Hok;
    simpl.
  - by exists m.
  - destruct (Hok r) as [st Hst]; [left|].
    unfold fetch_room_state at 2. rewrite Hst. simpl.
    apply IH. intros r' Hr'. apply Hok. by right.
Qed.

(** Whatever the order of completion, the dictionary at the end of the
    phase is the one of the sequential loop. *)
Lemma fetched_sequential pool :
  fetching_invariant hs push_actions pool ->
  concurrently_execute_done pool = true ->
  foldlM (fetch_room_state hs) ∅
    (deduped_ordered_list (pa_room_id <$> push_actions))
  = Ok (pool_shared pool).
Proof.
  intros (_ & Hstored & Hall & _) Hdone.
  unfold concurrently_execute_done in Hdone.
  set (rooms := deduped_ordered_list (pa_room_id <$> push_actions)) in *.
  destruct (pool_args pool) eqn:Hargs; [|done].
  destruct (in_flight pool) eqn:Hflight; [|done].
  assert (Hin : forall r, r ∈ rooms -> is_Some (pool_shared pool !! r)).
  { intros r Hr. destruct (Hall r Hr) as [Hp|[Hp|Hp]]; [| |done];
      by apply elem_of_nil in Hp. }
  destruct (fetch_all_total ∅ rooms) as [m Hm].
  { intros r Hr. destruct (Hin r Hr) as [st Hst].
    exists st. by apply (Hstored r st). }
  rewrite Hm. f_equal. apply map_eq. intros r.
  destruct (fetch_room_states hs rooms ∅ m Hm) as [Hfetched Hother].
  destruct (decide (r ∈ rooms)) as [Hr|Hr].
  - destruct (Hfetched r Hr) as (st & Hst & ->).
    destruct (Hin r Hr) as [st' Hst']. rewrite Hst'.
    destruct (Hstored r st' Hst') as [_ Hst'']. congruence.
  - rewrite (Hother r Hr), lookup_empty.
    destruct (pool_shared pool !! r) as [st|] eqn:Hst; [|done].
    by destruct (Hstored r st Hst) as [Hr' _].
Qed.

Lemma fetch_raises_sequential (rooms : list pystr) r e :
  r ∈ rooms -> get_current_state_ids hs r = Err e ->
  exists e', foldlM (fetch_room_state hs) ∅ rooms = Err e'.
Proof.
  intros Hr He.
  destruct (foldlM (fetch_room_state hs) ∅ rooms) as [m|e'] eqn:Hm;
    [|by exists e'].
  destruct (fetch_room_states hs rooms ∅ m Hm) as [Hfetched _].
  destruct (Hfetched r Hr) as (st & Hst & _). congruence.
Qed.

Lemma mail_invariant_start :
  mail_invariant hs app_id user_id email_address push_actions reason
    (send_notification_mail_start hs user_id push_actions).
Proof.
  unfold send_notification_mail_start.
  destruct (get_events hs (pa_event_id <$> push_actions)) as [ne|e] eqn:Hev.
  - destruct (get_user_display_name hs user_id) as [udn|e] eqn:Hudn.
    + simpl. split; [done|]. split; [done|].
      unfold fetching_invariant, concurrently_execute_start, in_flight. simpl.
      split; [done|]. split; [done|]. split; [by left|].
      intros r [Hr|Hr]; [done|]. by apply elem_of_nil in Hr.
    + simpl. split; [done|]. intros e0 [= <-]. exists e.
      unfold send_notification_mail. rewrite Hev. simpl. by rewrite Hudn.
  - simpl. split; [done|]. intros e0 [= <-]. exists e.
    unfold send_notification_mail. by rewrite Hev.
Qed.

Lemma send_notification_mail_loop ne udn sbr ordered :
  get_events hs (pa_event_id <$> push_actions) = Ok ne ->
  get_user_display_name hs user_id = Ok udn ->
  foldlM (fetch_room_state hs) ∅
    (deduped_ordered_list (pa_room_id <$> push_actions)) = Ok sbr ->
  rooms_in_order push_actions = Ok ordered ->
  send_notification_mail hs app_id user_id email_address push_actions reason
  = (room_vars ← mapM (build_room hs user_id push_actions ne sbr) ordered;
     finish_mail hs app_id user_id email_address push_actions reason ne udn
       sbr room_vars).
Proof.
  intros Hev Hudn Hfold Hsort. unfold send_notification_mail.
  rewrite Hev. simpl. rewrite Hudn. simpl. rewrite Hfold. simpl.
  unfold rooms_in_order in Hsort. rewrite Hsort. reflexivity.
Qed.

Lemma mail_invariant_step t s s' :
  mail_invariant hs app_id user_id email_address push_actions reason s ->
  send_notification_mail_step hs app_id user_id email_address push_actions
    reason t s = Some s' ->
  mail_invariant hs app_id user_id email_address push_actions reason s'.
Proof.
  destruct s as [ne udn pool|ne udn sbr todo built|res]; simpl;
    [| |done].
  - intros (Hev & Hudn & Hinv) Hstep.
    assert (Hraise : forall e',
      foldlM (fetch_room_state hs) ∅
        (deduped_ordered_list (pa_room_id <$> push_actions)) = Err e' ->
      send_notification_mail hs app_id user_id email_address push_actions
        reason = Err e').
    { intros e' He'. unfold send_notification_mail.
      rewrite Hev. simpl. rewrite Hudn. simpl. by rewrite He'. }
    destruct t as [i|i|].
    + unfold concurrently_execute_step in Hstep.
      destruct (pool_places pool !! i) as [[a|]|] eqn:Hi; [done| |done].
      destruct (pool_args pool) as [|a args] eqn:Hargs; [done|].
      injection Hstep as <-. simpl. split; [done|]. split; [done|].
      destruct Hinv as (Hlen & Hstored & Hall & Hknown).
      unfold fetching_invariant, in_flight in *. simpl.
      rewrite Hargs in Hall, Hknown.
      split; [by rewrite length_insert|]. split; [done|]. split.
      * intros r Hr. rewrite (in_flight_admit _ i a Hi).
        destruct (Hall r Hr) as [Hp|[Hp|Hp]]; [| |auto].
        -- apply elem_of_cons in Hp as [->|Hp]; [|auto].
           right. left. left.
        -- right. left. by right.
      * intros r. rewrite (in_flight_admit _ i a Hi). intros [Hr|Hr].
        -- apply Hknown. left. by right.
        -- apply elem_of_cons in Hr as [->|Hr]; apply Hknown;
             [left; left | by right].
    + unfold concurrently_execute_step in Hstep.
      destruct (pool_places pool !! i) as [[a|]|] eqn:Hi; [|done..].
      destruct Hinv as (Hlen & Hstored & Hall & Hknown).
      unfold fetching_invariant, in_flight in *.
      assert (Ha : a ∈ deduped_ordered_list (pa_room_id <$> push_actions)).
      { apply Hknown. right. rewrite (in_flight_complete _ i a Hi). left. }
      unfold fetch_room_state in Hstep.
      destruct (get_current_state_ids hs a) as [st|e] eqn:Hst;
        simpl in Hstep; injection Hstep as <-; simpl.
      * split; [done|]. split; [done|].
        unfold fetching_invariant, in_flight. simpl.
        split; [by rewrite length_insert|]. split; [|split].
        -- intros r st'. destruct (decide (a = r)) as [->|Hne].
           ++ rewrite lookup_insert_eq. by intros [= <-].
           ++ rewrite lookup_insert_ne by done. apply Hstored.
        -- intros r Hr. destruct (decide (a = r)) as [->|Hne].
           { right. right. rewrite lookup_insert_eq. by eexists. }
           rewrite lookup_insert_ne by done.
           destruct (Hall r Hr) as [Hp|[Hp|Hp]]; [auto| |auto].
           rewrite (in_flight_complete _ i a Hi) in Hp.
           apply elem_of_cons in Hp as [->|Hp]; [done|auto].
        -- intros r [Hr|Hr]; apply Hknown; [by left|]. right.
           rewrite (in_flight_complete _ i a Hi). by right.
      * split; [done|]. intros e0 [= <-].
        destruct (fetch_raises_sequential _ a e Ha Hst) as [e' He'].
        exists e'. by apply Hraise.
    + destruct (concurrently_execute_done pool) eqn:Hdone; [|done].
      assert (Hfold := fetched_sequential pool Hinv Hdone).
      destruct (sort_by_key _ _) as [ordered|e] eqn:Hsort;
        injection Hstep as <-; simpl.
      * split; [done|]. split; [done|]. split; [done|].
        exists ordered, []. split; [done|]. split; [done|]. reflexivity.
      * split; [done|]. intros e0 [= <-]. exists e.
        unfold send_notification_mail.
        rewrite Hev. simpl. rewrite Hudn. simpl. rewrite Hfold. simpl.
        by rewrite Hsort.
  - intros (Hev & Hudn & Hfold & ordered & done & Hsort & -> & Hbuilt) Hstep.
    assert (Hrun := send_notification_mail_loop ne udn sbr _
                      Hev Hudn Hfold Hsort).
    destruct t as [i|i|]; [done..|]. destruct todo as [|r todo].
    + injection Hstep as <-. simpl. rewrite app_nil_r in Hrun.
      rewrite Hbuilt in Hrun. simpl in Hrun. rewrite Hrun.
      split; [done|]. intros e He. by exists e.
    + destruct (build_room hs user_id push_actions ne sbr r) as [rv|e] eqn:Hr;
        injection Hstep as <-; simpl.
      * split; [done|]. split; [done|]. split; [done|].
        exists (done ++ r :: todo), (done ++ [r]).
        split; [done|]. split; [by rewrite <- app_assoc|].
        by apply mapM_snoc_Ok.
      * split; [done|]. intros e0 [= <-]. exists e.
        rewrite Hrun, (mapM_snoc_Err _ _ _ _ _ _ Hbuilt Hr). done.
Qed.

Lemma mail_invariant_run turns s s' :
  mail_invariant hs app_id user_id email_address push_actions reason s ->
  send_notification_mail_run hs app_id user_id email_address push_actions
    reason turns s = Some s' ->
  mail_invariant hs app_id user_id email_address push_actions reason s'.
Proof.
  revert s. induction turns as [|t turns IH]; intros s Hinv Hrun;
    simpl in Hrun.
  - by injection Hrun as <-.
  - destruct (send_notification_mail_step _ _ _ _ _ _ t s) as [s1|] eqn:Hstep;
      [|done].
    apply (IH s1); [|done]. by apply (mail_invariant_step t s).
Qed.

Lemma rooms_in_order_perm ordered :
  rooms_in_order push_actions = Ok ordered ->
  ordered ≡ₚ deduped_ordered_list (pa_room_id <$> push_actions).
Proof.
  unfold rooms_in_order. rewrite deduped_ordered_list_first_seen.
  destruct (sort_by_key_total (room_sort_key (group_by_room push_actions))
              (fun r => - last_received_ts push_actions r)
              (first_seen (pa_room_id <$> push_actions)))
    as (sorted & Hrun & Hperm & _).
  { intros r Hr. apply room_sort_key_total. by apply elem_of_first_seen. }
  rewrite Hrun. by intros [= <-].
Qed.

Lemma turns_left_step t s s' :
  send_notification_mail_step hs app_id user_id email_address push_actions
    reason t s = Some s' ->
  (turns_left push_actions s' < turns_left push_actions s)%nat.
Proof.
  destruct s as [ne udn pool|ne udn sbr todo built|res]; simpl; [| |done].
  - destruct t as [i|i|].
    + unfold concurrently_execute_step.
      destruct (pool_places pool !! i) as [[a|]|] eqn:Hi; [done| |done].
      destruct (pool_args pool) as [|a args] eqn:Hargs; [done|].
      intros [= <-]. unfold in_flight. simpl.
      rewrite (in_flight_admit _ i a Hi). simpl. lia.
    + unfold concurrently_execute_step.
      destruct (pool_places pool !! i) as [[a|]|] eqn:Hi; [|done..].
      destruct (fetch_room_state hs (pool_shared pool) a) as [m|e];
        simpl; intros [= <-]; simpl; [|lia].
      unfold in_flight. simpl.
      rewrite (in_flight_complete (pool_places pool) i a Hi). simpl. lia.
    + destruct (concurrently_execute_done pool); [|done].
      destruct (sort_by_key _ _) as [ordered|e] eqn:Hsort;
        intros [= <-]; simpl; [|lia].
      apply rooms_in_order_perm in Hsort. rewrite Hsort. lia.
  - destruct t as [i|i|]; [done..|]. destruct todo as [|r todo].
    + intros [= <-]. simpl. lia.
    + destruct (build_room _ _ _ _ _ r); intros [= <-]; simpl; lia.
Qed.

Lemma turns_left_run turns s s' :
  send_notification_mail_run hs app_id user_id email_address push_actions
    reason turns s = Some s' ->
  (length turns + turns_left push_actions s' <= turns_left push_actions s)%nat.
Proof.
  revert s. induction turns as [|t turns IH]; intros s Hrun; simpl in Hrun.
  - injection Hrun as <-. simpl. lia.
  - destruct (send_notification_mail_step _ _ _ _ _ _ t s) as [s1|] eqn:Hstep;
      [|done].
    apply turns_left_step in Hstep. apply IH in Hrun. simpl. lia.
Qed.

Lemma fetching_progress ne udn pool :
  length (pool_places pool) = 3%nat ->
  exists t s',
    send_notification_mail_step hs app_id user_id email_address push_actions
      reason t (Fetching ne udn pool) = Some s'.
Proof.
  intros Hlen. destruct (in_flight pool) as [|a rest] eqn:Hflight.
  - destruct (pool_args pool) as [|a args] eqn:Hargs.
    + exists Resume. simpl. unfold concurrently_execute_done.
      rewrite Hargs, Hflight. destruct (sort_by_key _ _); eauto.
    + destruct (lookup_lt_is_Some_2 (pool_places pool) 0) as [x Hx]; [lia|].
      assert (x = None) as -> by (by eapply in_flight_nil).
      exists (Admit 0). simpl. rewrite Hx, Hargs. eauto.
  - destruct (in_flight_cons _ _ _ Hflight) as [i Hi].
    exists (Complete i). simpl. rewrite Hi.
    destruct (fetch_room_state hs (pool_shared pool) a); simpl; eauto.
Qed.

Lemma building_progress ne udn sbr todo built :
  exists s',
    send_notification_mail_step hs app_id user_id email_address push_actions
      reason Resume (Building ne udn sbr todo built) = Some s'.
Proof.
  simpl. destruct todo as [|r todo]; [eauto|].
  destruct (build_room _ _ _ _ _ r); eauto.
Qed.
End mail_steps.

(** C9.  The state-fetch phase of [send_notification_mail], in every run
    of the function between its suspension points, whatever the order in
    which the fetches are admitted and complete.  While the function awaits
    [concurrently_execute(_fetch_room_state, rooms_in_order, 3)], at most 3
    resolutions are in flight, and what is stored in [state_by_room] so far
    is the state of the room it is stored under.  The loop that builds the
    room variables is entered only when the awaited call has returned: in
    every state of the loop, so before the variables of any room are built,
    [state_by_room] holds the state of every room of the ordering under its
    room id and nothing else, and the variables built so far are those of
    the first rooms of the ordering, each from the state of its room.  A
    run never gets stuck before the function has returned or raised, it
    has at most 3 turns per room and 3 more, and its result is the result
    of [send_notification_mail]. *)
Theorem state_fetch_bounded_and_complete (hs : Homeserver)
    (app_id user_id email_address : pystr) (push_actions : list PushAction)
    (reason : Reason) (turns : list Turn) (s : MailState) :
  send_notification_mail_run hs app_id user_id email_address push_actions
    reason turns (send_notification_mail_start hs user_id push_actions)
  = Some s ->
  (length turns + turns_left push_actions s
   <= 3 * length (deduped_ordered_list (pa_room_id <$> push_actions)) + 3)%nat
  /\ match s with
     | Fetching notif_events user_display_name pool =>
         (length (in_flight pool) <= 3)%nat
         /\ (forall r st, pool_shared pool !! r = Some st ->
               get_current_state_ids hs r = Ok st)
         /\ exists t s',
              send_notification_mail_step hs app_id user_id email_address
                push_actions reason t s = Some s'
     | Building notif_events user_display_name state_by_room todo built =>
         exists ordered done,
           rooms_in_order push_actions = Ok ordered
           /\ ordered = done ++ todo
           /\ (forall r, r ∈ ordered ->
                 exists st, get_current_state_ids hs r = Ok st
                            /\ state_by_room !! r = Some st)
           /\ (forall r, is_Some (state_by_room !! r) -> r ∈ ordered)
           /\ Forall2
                (fun r rv =>
                   exists st,
                     state_by_room !! r = Some st
                     /\ get_room_vars hs r user_id
                          (notifs_of_room push_actions r) notif_events st
                        = Ok rv)
                done built
           /\ exists s',
                send_notification_mail_step hs app_id user_id email_address
                  push_actions reason Resume s = Some s'
     | Finished r =>
         (forall mail, r = Ok mail ->
            send_notification_mail hs app_id user_id email_address
              push_actions reason = Ok mail)
         /\ (forall e, r = Err e ->
               exists e', send_notification_mail hs app_id user_id
                            email_address push_actions reason = Err e')
     end.
Proof.
  intros Hrun. split.
  - apply turns_left_run in Hrun. etrans; [exact Hrun|].
    unfold send_notification_mail_start.
    destruct (get_events hs _); [|simpl; lia].
    destruct (get_user_display_name hs user_id); simpl; [|lia].
    unfold in_flight. simpl. lia.
  - assert (Hinv := mail_invariant_run hs app_id user_id email_address
                      push_actions reason turns _ s
                      (mail_invariant_start hs app_id user_id email_address
                         push_actions reason) Hrun).
    destruct s as [ne udn pool|ne udn sbr todo built|res]; simpl in Hinv.
    + destruct Hinv as (_ & _ & Hlen & Hstored & _ & _).
      split; [|split].
      * unfold in_flight. rewrite <- Hlen. apply in_flight_bound.
      * intros r st Hst. by destruct (Hstored r st Hst).
      * by apply fetching_progress.
    + destruct Hinv as (_ & _ & Hfold & ordered & done & Hsort & -> & Hbuilt).
      destruct (fetch_room_states hs _ _ _ Hfold) as [Hfetched Hother].
      assert (Hperm := rooms_in_order_perm push_actions _ Hsort).
      exists (done ++ todo), done. split; [done|]. split; [done|].
      split; [|split; [|split]].
      * intros r Hr. apply Hfetched. by rewrite <- Hperm.
      * intros r [st Hst]. rewrite Hperm.
        destruct (decide (r ∈ deduped_ordered_list
                                (pa_room_id <$> push_actions))) as [|Hr];
          [done|].
        rewrite (Hother r Hr), lookup_empty in Hst. done.
      * apply mapM_Ok_Forall2 in Hbuilt.
        eapply Forall2_impl; [exact Hbuilt|]. intros r rv Hr. simpl in Hr.
        unfold build_room in Hr. bind_inv Hr. apply getitem_Ok in Hstep.
        apply getitem_Ok in Hstep0. exists a0. split; [done|].
        rewrite group_by_room_lookup in Hstep. case_decide; [done|].
        by injection Hstep as <-.
      * apply building_progress.
    + done.
Qed.

Lemma state_fetch_bounded_and_complete_witness :
  (exists notif_events user_display_name pool,
     send_notification_mail_run (world_server four_rooms_world) (lit "m.email")
       (lit "@alice") (lit "alice@example.org") four_rooms_batch
       four_rooms_reason [Admit 0; Admit 1; Admit 2]
       (send_notification_mail_start (world_server four_rooms_world)
          (lit "@alice") four_rooms_batch)
     = Some (Fetching notif_events user_display_name pool)
     /\ in_flight pool = [lit "!a"; lit "!b"; lit "!c"]
     /\ pool_args pool = [lit "!d"]
     /\ (length (in_flight pool) <= 3)%nat)
  /\ (exists notif_events user_display_name state_by_room todo built st,
        send_notification_mail_run (world_server four_rooms_world)
          (lit "m.email") (lit "@alice") (lit "alice@example.org")
          four_rooms_batch four_rooms_reason
          [Admit 0; Admit 1; Admit 2; Complete 2; Admit 2; Complete 0;
           Complete 2; Complete 1; Resume]
          (send_notification_mail_start (world_server four_rooms_world)
             (lit "@alice") four_rooms_batch)
        = Some (Building notif_events user_display_name state_by_room
                  todo built)
        /\ todo = [lit "!d"; lit "!c"; lit "!b"; lit "!a"]
        /\ built = []
        /\ get_current_state_ids (world_server four_rooms_world) (lit "!d")
           = Ok st
        /\ state_by_room !! lit "!d" = Some st)
  /\ (exists mail,
        send_notification_mail_run (world_server four_rooms_world)
          (lit "m.email") (lit "@alice") (lit "alice@example.org")
          four_rooms_batch four_rooms_reason
          [Admit 0; Admit 1; Admit 2; Complete 2; Admit 2; Complete 0;
           Complete 2; Complete 1; Resume; Resume; Resume; Resume; Resume;
           Resume]
          (send_notification_mail_start (world_server four_rooms_world)
             (lit "@alice") four_rooms_batch)
        = Some (Finished (Ok mail))
        /\ send_notification_mail (world_server four_rooms_world)
             (lit "m.email") (lit "@alice") (lit "alice@example.org")
             four_rooms_batch four_rooms_reason = Ok mail).
Proof.
  pose (phase := fun o : option MailState =>
    match o with
    | Some (Fetching _ _ _) => 1%nat
    | Some (Building _ _ _ _ _) => 2%nat
    | Some (Finished (Ok _)) => 3%nat
    | Some (Finished (Err _)) => 4%nat
    | None => 0%nat
    end).
  split; [|split].
  - destruct (send_notification_mail_run (world_server four_rooms_world)
                (lit "m.email") (lit "@alice") (lit "alice@example.org")
                four_rooms_batch four_rooms_reason [Admit 0; Admit 1; Admit 2]
                (send_notification_mail_start (world_server four_rooms_world)
                   (lit "@alice") four_rooms_batch))
      as [[ne udn pool| |[?|?]]|] eqn:Hrun;
      try (exfalso; apply (f_equal phase) in Hrun; vm_compute in Hrun;
           discriminate Hrun).
    destruct (state_fetch_bounded_and_complete _ _ _ _ _ _ _ _ Hrun)
      as (_ & Hbound & _).
    assert (Hflight := f_equal (fun o => match o with
                                         | Some (Fetching _ _ p) => in_flight p
                                         | _ => []
                                         end) Hrun).
    assert (Hargs := f_equal (fun o => match o with
                                       | Some (Fetching _ _ p) => pool_args p
                                       | _ => []
                                       end) Hrun).
    cbv beta iota in Hflight, Hargs.
    exists ne, udn, pool. split; [reflexivity|].
    split; [rewrite <- Hflight; by vm_compute|].
    split; [rewrite <- Hargs; by vm_compute | exact Hbound].
  - destruct (send_notification_mail_run (world_server four_rooms_world)
                (lit "m.email") (lit "@alice") (lit "alice@example.org")
                four_rooms_batch four_rooms_reason
                [Admit 0; Admit 1; Admit 2; Complete 2; Admit 2; Complete 0;
                 Complete 2; Complete 1; Resume]
                (send_notification_mail_start (world_server four_rooms_world)
                   (lit "@alice") four_rooms_batch))
      as [[|ne udn sbr todo built|[?|?]]|] eqn:Hrun;
      try (exfalso; apply (f_equal phase) in Hrun; vm_compute in Hrun;
           discriminate Hrun).
    destruct (state_fetch_bounded_and_complete _ _ _ _ _ _ _ _ Hrun)
      as (_ & ordered & done & Hsort & _ & Hfetched & _).
    destruct (Hfetched (lit "!d")) as (st & Hst & Hlookup).
    { vm_compute in Hsort. injection Hsort as <-. left. }
    assert (Htodo := f_equal (fun o => match o with
                                       | Some (Building _ _ _ t _) => t
                                       | _ => []
                                       end) Hrun).
    assert (Hbuilt := f_equal (fun o => match o with
                                        | Some (Building _ _ _ _ b) => b
                                        | _ => []
                                        end) Hrun).
    cbv beta iota in Htodo, Hbuilt.
    exists ne, udn, sbr, todo, built, st. split; [reflexivity|].
    split; [rewrite <- Htodo; by vm_compute|].
    split; [rewrite <- Hbuilt; by vm_compute|].
    split; [exact Hst | exact Hlookup].
  - destruct (send_notification_mail_run (world_server four_rooms_world)
                (lit "m.email") (lit "@alice") (lit "alice@example.org")
                four_rooms_batch four_rooms_reason
                [Admit 0; Admit 1; Admit 2; Complete 2; Admit 2; Complete 0;
                 Complete 2; Complete 1; Resume; Resume; Resume; Resume;
                 Resume; Resume]
                (send_notification_mail_start (world_server four_rooms_world)
                   (lit "@alice") four_rooms_batch))
      as [[| |[mail|e]]|] eqn:Hrun;
      try (exfalso; apply (f_equal phase) in Hrun; vm_compute in Hrun;
           discriminate Hrun).
    destruct (state_fetch_bounded_and_complete _ _ _ _ _ _ _ _ Hrun)
      as (_ & Hmail & _).
    exists mail. split; [reflexivity|]. by apply Hmail.
Defined.

(** * Further properties of the code *)

(** ** [deduped_ordered_list] *)

Lemma first_seen_sublist `{Countable A} (l : list A) : sublist (first_seen l) l.
Proof.
  induction l as [|x l IH]; simpl; [constructor|].
  apply sublist_skip. etrans; [apply sublist_filter | exact IH].
Qed.

Lemma first_seen_app `{Countable A} (l1 l2 : list A) :
  first_seen (l1 ++ l2)
  = first_seen l1 ++ filter (fun x => x ∉ l1) (first_seen l2).
Proof.
  induction l1 as [|x l1 IH]; simpl.
  - generalize (first_seen l2). intros k.
    induction k as [|y k IHk]; [done|].
    rewrite filter_cons, decide_True, <- IHk; [done|]. apply not_elem_of_nil.
  - rewrite IH, filter_app, list_filter_filter. do 2 f_equal.
    apply list_filter_iff. intros y. rewrite not_elem_of_cons. tauto.
Qed.

Lemma filter_other_id `{Countable A} (x : A) (l : list A) :
  x ∉ l -> filter (fun y => y ≠ x) l = l.
Proof.
  induction l as [|y l IH]; [done|].
  intros [Hne Hx]%not_elem_of_cons.
  rewrite filter_cons, decide_True by done. f_equal. by apply IH.
Qed.

Lemma first_seen_NoDup_id `{Countable A} (l : list A) :
  NoDup l -> first_seen l = l.
Proof.
  induction 1 as [|x l Hx _ IH]; simpl; [done|].
  by rewrite IH, filter_other_id.
Qed.

(** X1.  [deduped_ordered_list] returns the elements of its argument, each
    once, as a subsequence of the argument (nothing is reordered), starting
    with the first element of the argument. *)
Theorem deduped_ordered_list_subsequence `{Countable A} (it : list A) :
  NoDup (deduped_ordered_list it)
  /\ (forall x, x ∈ deduped_ordered_list it <-> x ∈ it)
  /\ sublist (deduped_ordered_list it) it
  /\ head (deduped_ordered_list it) = head it.
Proof.
  rewrite deduped_ordered_list_first_seen.
  split; [apply NoDup_first_seen|]. split; [apply elem_of_first_seen|].
  split; [apply first_seen_sublist|]. by destruct it.
Qed.

(** X2.  How [deduped_ordered_list] composes: on a concatenation it gives
    the result for the first list followed by the result for the second
    without the elements of the first; it leaves a list without duplicates
    as it is, and so applying it twice is applying it once. *)
Theorem deduped_ordered_list_compose `{Countable A} (l1 l2 : list A) :
  deduped_ordered_list (l1 ++ l2)
  = deduped_ordered_list l1
      ++ filter (fun x => x ∉ l1) (deduped_ordered_list l2)
  /\ (NoDup l1 -> deduped_ordered_list l1 = l1)
  /\ deduped_ordered_list (deduped_ordered_list l1) = deduped_ordered_list l1.
Proof.
  rewrite !deduped_ordered_list_first_seen. split; [apply first_seen_app|].
  split; [apply first_seen_NoDup_id|].
  apply first_seen_NoDup_id, NoDup_first_seen.
Qed.

Lemma deduped_ordered_list_compose_witness :
  deduped_ordered_list [lit "!a"; lit "!b"] = [lit "!a"; lit "!b"].
Proof.
  apply (deduped_ordered_list_compose [lit "!a"; lit "!b"] []).
  by_compute.
Defined.

(** ** [string_ordinal_total] *)

Lemma codepoint_sum_app s1 s2 :
  codepoint_sum (s1 ++ s2) = codepoint_sum s1 + codepoint_sum s2.
Proof. induction s1 as [|c s1 IH]; simpl; [done|]. rewrite IH. lia. Qed.

(** X3.  [string_ordinal_total] is additive over concatenation, is never
    negative, and does not depend on the order of the characters: two
    strings with the same characters in another order get the same hash. *)
Theorem string_ordinal_total_order_blind (s1 s2 : pystr) :
  string_ordinal_total (s1 ++ s2)
  = string_ordinal_total s1 + string_ordinal_total s2
  /\ 0 <= string_ordinal_total s1
  /\ (s1 ≡ₚ s2 -> string_ordinal_total s1 = string_ordinal_total s2).
Proof.
  rewrite !string_ordinal_total_sum. split; [apply codepoint_sum_app|]. split.
  - induction s1 as [|c s1 IH]; simpl; lia.
  - intros Hperm.
    induction Hperm as [|c l1 l2 _ IH|c d l|l1 l2 l3 _ IH1 _ IH2]; simpl; lia.
Qed.

Lemma string_ordinal_total_order_blind_witness :
  string_ordinal_total (lit "!ab:x") = string_ordinal_total (lit "!ba:x").
Proof.
  apply (string_ordinal_total_order_blind (lit "!ab:x") (lit "!ba:x")).
  vm_compute. apply perm_skip, perm_swap.
Defined.

(** ** Links *)

(** X4.  The link of a notification is the link of its room followed by
    ["/"] and the event id, whatever the configuration; and the link of a
    room is a base that does not depend on the room, followed by ["/"] and
    the room id. *)
Theorem make_notif_link_extends_room_link (hs : Homeserver) (notif : PushAction) :
  make_notif_link hs notif
  = make_room_link hs (pa_room_id notif) ++ lit "/" ++ pa_event_id notif
  /\ exists base, forall room_id,
       make_room_link hs room_id = base ++ lit "/" ++ room_id.
Proof.
  split.
  - unfold make_notif_link, make_room_link.
    destruct (email_riot_base_url hs) as [url|];
      repeat case_bool_decide; rewrite <- ?app_assoc; reflexivity.
  - unfold make_room_link. eexists. intros room_id. reflexivity.
Qed.

(** ** The thumbnail filter *)

Lemma split_first_Some sep s before after :
  split_first sep s = Some (before, after) ->
  s = before ++ sep :: after /\ sep ∉ before.
Proof.
  revert before. induction s as [|c s IH]; intros before; simpl; [done|].
  case_decide as Hc.
  - intros [= <- <-]. subst c. split; [done | apply not_elem_of_nil].
  - destruct (split_first sep s) as [[b a]|]; [|done]. simpl.
    intros [= <- <-]. destruct (IH b eq_refl) as [-> Hb].
    split; [done|]. apply not_elem_of_cons. split; [congruence | done].
Qed.

Lemma split_first_None sep s : split_first sep s = None -> sep ∉ s.
Proof.
  induction s as [|c s IH]; simpl; [intros _; apply not_elem_of_nil|].
  case_decide as Hc; [done|].
  destruct (split_first sep s) as [[b a]|]; [done|]. intros _.
  apply not_elem_of_cons. split; [congruence | by apply IH].
Qed.

(** X5.  [mxc_to_http_filter] gives the empty string for a value that does
    not start with ["mxc://"].  For one that does, it gives the thumbnail
    URL under [public_baseurl] for the part of the value up to its first
    ["#"], and puts back after the query string the rest of the value from
    that ["#"] on: the two parts make up the value after ["mxc://"], and
    the first has no ["#"]. *)
Theorem mxc_to_http_filter_parts (urlencode : list (pystr * json) -> pystr)
    (public_baseurl value : pystr) (width height : json)
    (resize_method : pystr) :
  (take 6 value ≠ lit "mxc://" ->
   mxc_to_http_filter urlencode public_baseurl value width height
     resize_method = [])
  /\ (take 6 value = lit "mxc://" ->
      exists media fragment,
        mxc_to_http_filter urlencode public_baseurl value width height
          resize_method
        = public_baseurl ++ lit "_matrix/media/v1/thumbnail/" ++ media
            ++ lit "?"
            ++ urlencode [(lit "width", width); (lit "height", height);
                          (lit "method", JStr resize_method)]
            ++ fragment
        /\ media ++ fragment = drop 6 value
        /\ (HASH ∉ media)
        /\ (fragment = [] \/ head fragment = Some HASH)).
Proof.
  unfold mxc_to_http_filter. split.
  - intros Hne. by rewrite bool_decide_eq_true_2.
  - intros Heq. rewrite bool_decide_eq_false_2 by (by intros Hne).
    destruct (split_first HASH (drop 6 value)) as [[before after]|] eqn:Hsplit.
    + apply split_first_Some in Hsplit as [Hvalue Hbefore].
      exists before, (lit "#" ++ after). split; [done|].
      split; [by rewrite Hvalue|]. split; [done | by right].
    + apply split_first_None in Hsplit.
      exists (drop 6 value), []. split; [done|].
      split; [by rewrite app_nil_r|]. split; [done | by left].
Qed.

Lemma mxc_to_http_filter_parts_witness :
  mxc_to_http_filter demo_urlencode (lit "https://hs/") (lit "http://x/y#z")
    (JNum 32) (JNum 32) (lit "crop") = []
  /\ mxc_to_http_filter demo_urlencode (lit "https://hs/")
       (lit "mxc://srv/media#frag#2") (JNum 32) (JNum 32) (lit "crop")
     = lit "https://hs/_matrix/media/v1/thumbnail/srv/media?width=0&height=0&method=crop&#frag#2".
Proof.
  split.
  - apply (mxc_to_http_filter_parts demo_urlencode (lit "https://hs/")
             (lit "http://x/y#z") (JNum 32) (JNum 32) (lit "crop")).
    by_compute.
  - destruct (proj2 (mxc_to_http_filter_parts demo_urlencode (lit "https://hs/")
                       (lit "mxc://srv/media#frag#2") (JNum 32) (JNum 32)
                       (lit "crop")) eq_refl)
      as (media & fragment & _ & _ & _ & _).
    reflexivity.
Defined.

(** ** [get_message_vars] *)

Lemma typed_message_vars_sender hs (ret a : MessageVars) event (msgtype : json) :
  (if bool_decide (msgtype = JStr (lit "m.text"))
   then add_text_message_vars hs ret event
   else if bool_decide (msgtype = JStr (lit "m.image"))
   then add_image_message_vars ret event
   else mret ret) = Ok a ->
  mv_sender_name a = mv_sender_name ret
  /\ mv_msgtype a = mv_msgtype ret
  /\ mv_ts a = mv_ts ret
  /\ mv_sender_avatar_url a = mv_sender_avatar_url ret
  /\ mv_body_text_plain a = mv_body_text_plain ret.
Proof.
  destruct (bool_decide (msgtype = JStr (lit "m.text"))).
  - unfold add_text_message_vars. intros Hrun. bind_inv Hrun.
    apply ret_Ok in Hrun. subst a. simpl. auto.
  - destruct (bool_decide (msgtype = JStr (lit "m.image"))).
    + unfold add_image_message_vars. intros Hrun. bind_inv Hrun.
      apply ret_Ok in Hrun. subst a. simpl. auto.
    + intros [= <-]. auto.
Qed.

(** X6.  [get_message_vars] skips an event that is not of type message
    without reading the room state or the store: it returns [None] even
    when the sender has no membership event.  For a message event whose
    sender has no membership event in the room state it raises [KeyError];
    so message variables exist only for message events of senders that
    the room state knows. *)
Theorem get_message_vars_needs_sender (hs : Homeserver) (notif : PushAction)
    (event : Event) (room_state_ids : StateIds) :
  (ev_type event ≠ EventTypes_Message hs ->
   get_message_vars hs notif event room_state_ids = Ok None)
  /\ (ev_type event = EventTypes_Message hs ->
      room_state_ids !! (lit "m.room.member", ev_sender event) = None ->
      get_message_vars hs notif event room_state_ids = Err KeyError)
  /\ (forall m,
        get_message_vars hs notif event room_state_ids = Ok (Some m) ->
        ev_type event = EventTypes_Message hs
        /\ exists member_event_id member_event,
             room_state_ids !! (lit "m.room.member", ev_sender event)
             = Some member_event_id
             /\ get_event hs member_event_id = Ok member_event
             /\ mv_sender_name m = name_from_member_event hs member_event).
Proof.
  split; [|split].
  - intros Hty. by apply get_message_vars_None.
  - intros Hty Hsender. unfold get_message_vars.
    rewrite bool_decide_eq_false_2 by (by intros Hne).
    by rewrite getitem_missing.
  - intros m Hrun. apply get_message_vars_fields in Hrun as Hfields.
    destruct Hfields as (_ & _ & _ & Hty). split; [done|].
    unfold get_message_vars in Hrun.
    rewrite bool_decide_eq_false_2 in Hrun by (by intros Hne).
    bind_inv Hrun. apply getitem_Ok in Hstep. exists a, a0.
    split; [done|]. split; [done|].
    apply ret_Ok in Hrun. injection Hrun as <-. simpl.
    by apply typed_message_vars_sender in Hstep1 as (-> & _).
Qed.

Lemma get_message_vars_needs_sender_witness :
  get_message_vars demo_hs (push_action "!r" "$c1" 1) carol_event demo_state
  = Ok None
  /\ get_message_vars demo_hs (push_action "!r" "$c2" 1)
       (message_event "$c2" "@carol" 1) demo_state = Err KeyError.
Proof.
  destruct (get_message_vars_needs_sender demo_hs (push_action "!r" "$c1" 1)
              carol_event demo_state) as (Hskip & _ & _).
  destruct (get_message_vars_needs_sender demo_hs (push_action "!r" "$c2" 1)
              (message_event "$c2" "@carol" 1) demo_state)
    as (_ & Hmissing & _).
  split.
  - apply Hskip. by_compute.
  - apply Hmissing; reflexivity.
Defined.

(** X7.  What the message variables hold, by message type.  The generic
    keys are always filled from the event, and [body_text_plain] is the
    body of the content whenever there is one.  Only an [m.text] message
    has key [format]; only an [m.image] message has [image_url], which is
    the [url] of its content; a message of any other type has neither, nor
    [body_text_html].  When [body_text_html] is there, the message is an
    [m.text] message and the value is the output of [safe_markup] on the
    formatted body or of [safe_text] on the body. *)
Theorem get_message_vars_by_msgtype (hs : Homeserver) (notif : PushAction)
    (event : Event) (room_state_ids : StateIds) (m : MessageVars) :
  get_message_vars hs notif event room_state_ids = Ok (Some m) ->
  mv_msgtype m = content_get (ev_content event) (lit "msgtype")
  /\ mv_ts m = ev_origin_server_ts event
  /\ mv_body_text_plain m = ev_content event !! lit "body"
  /\ (mv_msgtype m = JStr (lit "m.text") ->
      mv_format m = Some (content_get (ev_content event) (lit "format"))
      /\ mv_image_url m = None)
  /\ (mv_msgtype m = JStr (lit "m.image") ->
      mv_image_url m = ev_content event !! lit "url"
      /\ is_Some (mv_image_url m)
      /\ mv_format m = None /\ mv_body_text_html m = None)
  /\ (mv_msgtype m ≠ JStr (lit "m.text") ->
      mv_msgtype m ≠ JStr (lit "m.image") ->
      mv_format m = None /\ mv_body_text_html m = None
      /\ mv_image_url m = None)
  /\ (forall html, mv_body_text_html m = Some html ->
        mv_msgtype m = JStr (lit "m.text")
        /\ (safe_markup hs
               (content_get (ev_content event) (lit "formatted_body"))
             = Ok html
            \/ safe_text hs (content_get (ev_content event) (lit "body"))
               = Ok html)).
Proof.
  unfold get_message_vars. case_bool_decide as Hty; [done|].
  intros Hrun. bind_inv Hrun. apply ret_Ok in Hrun. injection Hrun as <-.
  simpl. set (msgtype := content_get (ev_content event) (lit "msgtype")) in *.
  assert (Hdistinct : JStr (lit "m.text") ≠ JStr (lit "m.image"))
    by (by vm_compute).
  assert (Hbody : match ev_content event !! lit "body" with
                  | Some body => Some body
                  | None => None
                  end = ev_content event !! lit "body")
    by (by destruct (ev_content event !! lit "body")).
  destruct (decide (msgtype = JStr (lit "m.text"))) as [Htext|Htext].
  - rewrite bool_decide_eq_true_2 in Hstep1 by done.
    unfold add_text_message_vars in Hstep1. bind_inv Hstep1.
    apply ret_Ok in Hstep1. subst a1. simpl in *.
    split; [done|]. split; [done|]. split; [done|].
    split; [done|]. split; [intros Himage; congruence|].
    split; [intros Hne; congruence|].
    intros html ->. split; [done|].
    destruct (bool_decide (_ = JStr (lit "org.matrix.custom.html"))
              && truthy _).
    { left. bind_inv Hstep2. by injection Hstep2 as ->. }
    destruct (truthy _); [|done].
    right. bind_inv Hstep2. by injection Hstep2 as ->.
  - rewrite bool_decide_eq_false_2 in Hstep1 by done.
    destruct (decide (msgtype = JStr (lit "m.image"))) as [Himage|Himage].
    + rewrite bool_decide_eq_true_2 in Hstep1 by done.
      unfold add_image_message_vars in Hstep1. bind_inv Hstep1.
      apply getitem_Ok in Hstep2. injection Hstep1 as <-. simpl.
      split; [done|]. split; [done|]. split; [done|].
      split; [intros Hne; congruence|].
      split; [intros _; by rewrite Hstep2|].
      split; [intros _ Hne; congruence | done].
    + rewrite bool_decide_eq_false_2 in Hstep1 by done.
      injection Hstep1 as <-. simpl.
      split; [done|]. split; [done|]. split; [done|].
      split; [intros Hne; congruence|].
      split; [intros Hne; congruence|]. done.
Qed.

Lemma get_message_vars_by_msgtype_witness :
  exists m,
    get_message_vars demo_hs (push_action "!r" "$e2" 2)
      (message_event "$e2" "@bob" 2) demo_state = Ok (Some m)
    /\ mv_format m = Some JNull
    /\ mv_image_url m = None
    /\ mv_body_text_plain m = Some (JStr (lit "$e2")).
Proof.
  destruct (get_message_vars demo_hs (push_action "!r" "$e2" 2)
              (message_event "$e2" "@bob" 2) demo_state)
    as [[m|]|e] eqn:Hrun; [|by vm_compute in Hrun..].
  exists m. split; [reflexivity|].
  destruct (get_message_vars_by_msgtype demo_hs _ _ _ m Hrun)
    as (Htype & _ & Hbody & Htext & _).
  destruct (Htext Htype) as [Hformat Himage].
  split; [exact Hformat|]. split; [exact Himage | exact Hbody].
Defined.

(** X8.  An [m.image] message without [url] in its content makes
    [get_message_vars] raise [KeyError], once the sender's membership event
    has been found and fetched. *)
Theorem image_without_url_raises (hs : Homeserver) (notif : PushAction)
    (event : Event) (room_state_ids : StateIds) (member_event_id : pystr)
    (member_event : Event) :
  ev_type event = EventTypes_Message hs ->
  room_state_ids !! (lit "m.room.member", ev_sender event)
  = Some member_event_id ->
  get_event hs member_event_id = Ok member_event ->
  ev_content event !! lit "msgtype" = Some (JStr (lit "m.image")) ->
  ev_content event !! lit "url" = None ->
  get_message_vars hs notif event room_state_ids = Err KeyError.
Proof.
  intros Hty Hsender Hmember Himage Hurl. unfold get_message_vars.
  rewrite bool_decide_eq_false_2 by (by intros Hne).
  apply getitem_Ok in Hsender. rewrite Hsender. simpl. rewrite Hmember. simpl.
  unfold content_get. rewrite Himage. simpl.
  unfold add_image_message_vars. by rewrite getitem_missing.
Qed.

Lemma image_without_url_raises_witness :
  get_message_vars demo_hs (push_action "!r" "$i1" 1)
    {| ev_type := lit "m.room.message"; ev_event_id := lit "$i1";
       ev_sender := lit "@bob";
       ev_content := {[ lit "msgtype" := JStr (lit "m.image") ]};
       ev_origin_server_ts := 1 |}
    demo_state = Err KeyError.
Proof.
  apply (image_without_url_raises demo_hs _ _ demo_state (lit "$mb")
           (member_event "$mb" "@bob" "join")); reflexivity.
Defined.

(** ** Failures inside a room *)

Lemma foldlM_Ok_elem {A B} (f : B -> A -> result B) l acc r x :
  foldlM f acc l = Ok r -> x ∈ l -> exists b b', f b x = Ok b'.
Proof.
  revert acc. induction l as [|y l IH]; intros acc Hrun Hx; simpl in Hrun.
  - by apply elem_of_nil in Hx.
  - bind_inv Hrun. apply elem_of_cons in Hx as [->|Hx]; [eauto|].
    by eapply IH.
Qed.

(** X9.  One message that cannot be rendered aborts its room: when
    [get_message_vars] raises for the event of a notification (a sender
    without membership event, an image without url), [get_room_vars]
    returns only if the recipient is invited, and then without messages;
    for a joined recipient it raises. *)
Theorem unrenderable_notification_aborts_room (hs : Homeserver)
    (room_id user_id : pystr) (notifs : list PushAction)
    (notif_events : gmap pystr Event) (room_state_ids : StateIds)
    (n : PushAction) (event : Event) (e0 : exn) :
  n ∈ notifs ->
  notif_events !! pa_event_id n = Some event ->
  get_message_vars hs n event room_state_ids = Err e0 ->
  forall rv,
    get_room_vars hs room_id user_id notifs notif_events room_state_ids
    = Ok rv ->
    rv_invite rv = true /\ rv_notifs rv = [].
Proof.
  intros Hn Hevent Hbad rv Hrun.
  apply get_room_vars_Ok in Hrun
    as (mid & mev & membership & _ & _ & _ & _ & _ & _ & _ & Hloop).
  destruct (rv_invite rv); [done|]. exfalso.
  destruct (foldlM_Ok_elem _ _ _ _ n Hloop Hn) as (runs & runs' & Hstep).
  unfold room_notif_step in Hstep. bind_inv Hstep.
  apply getitem_Ok in Hstep0. assert (a = event) as -> by congruence.
  apply get_notif_vars_Ok in Hstep1 as (results & the_events & _ & _ & Hmsgs).
  rewrite filter_app in Hmsgs.
  destruct (decide (ev_type event = EventTypes_Message hs)) as [Hty|Hty].
  - rewrite (filter_cons _ event), decide_True in Hmsgs by done.
    apply Forall2_app_inv_l in Hmsgs as (ms1 & ms2 & _ & Hlast & _).
    apply Forall2_cons_inv_l in Hlast as (m & ms & Hm & _). congruence.
  - apply (get_message_vars_None hs n event room_state_ids) in Hty. congruence.
Qed.

Lemma unrenderable_notification_aborts_room_witness :
  exists rv,
    get_room_vars (world_server invite_world) (lit "!r") (lit "@alice")
      [push_action "!r" "$c2" 1]
      {[ lit "$c2" := message_event "$c2" "@carol" 1 ]} invite_state = Ok rv
    /\ rv_invite rv = true /\ rv_notifs rv = [].
Proof.
  destruct (get_room_vars (world_server invite_world) (lit "!r")
              (lit "@alice") [push_action "!r" "$c2" 1]
              {[ lit "$c2" := message_event "$c2" "@carol" 1 ]} invite_state)
    as [rv|e] eqn:Hrun; [|by vm_compute in Hrun].
  exists rv. split; [reflexivity|].
  apply (unrenderable_notification_aborts_room (world_server invite_world)
           (lit "!r") (lit "@alice") [push_action "!r" "$c2" 1]
           {[ lit "$c2" := message_event "$c2" "@carol" 1 ]} invite_state
           (push_action "!r" "$c2" 1) (message_event "$c2" "@carol" 1)
           KeyError).
  - constructor.
  - reflexivity.
  - reflexivity.
  - exact Hrun.
Defined.

(** ** [get_notif_vars] *)

(** X10.  The variables of a notification carry its timestamp and link, and
    at most one message more than the visibility filter lets through.  The
    notified event itself is not filtered: when it is a message, it is the
    last entry of the list.  An entry is marked non-historical exactly when
    its id is the event id of the notification. *)
Theorem get_notif_vars_shape (hs : Homeserver) (notif : PushAction)
    (user_id : pystr) (notif_event : Event) (room_state_ids : StateIds)
    (nv : NotifVars) :
  get_notif_vars hs notif user_id notif_event room_state_ids = Ok nv ->
  nv_ts nv = pa_received_ts notif
  /\ nv_link nv = make_notif_link hs notif
  /\ (exists results the_events,
        get_events_around hs (pa_room_id notif) (pa_event_id notif)
          CONTEXT_BEFORE CONTEXT_AFTER = Ok results
        /\ filter_events_for_client hs user_id (events_before results)
           = Ok the_events
        /\ (length (nv_messages nv) <= S (length the_events))%nat)
  /\ (ev_type notif_event = EventTypes_Message hs ->
      exists m, last (nv_messages nv) = Some m
                /\ mv_id m = ev_event_id notif_event)
  /\ (forall m, m ∈ nv_messages nv ->
        (mv_is_historical m = false <-> mv_id m = pa_event_id notif)).
Proof.
  intros Hrun. unfold get_notif_vars in Hrun. bind_inv Hrun.
  apply ret_Ok in Hrun. subst nv. simpl.
  apply append_message_vars_loop in Hstep1 as (msgs & -> & Hmsgs).
  rewrite app_nil_l. split; [done|]. split; [done|]. split; [|split].
  - exists a, a0. split; [done|]. split; [done|].
    apply Forall2_length in Hmsgs. rewrite <- Hmsgs.
    etrans; [apply length_filter|]. rewrite length_app. simpl. lia.
  - intros Hty. rewrite filter_app, (filter_cons _ notif_event) in Hmsgs.
    rewrite decide_True in Hmsgs by done.
    apply Forall2_app_inv_l in Hmsgs as (ms1 & ms2 & _ & Hlast & ->).
    apply Forall2_cons_inv_l in Hlast as (m & ms & Hm & Hnil & ->).
    apply Forall2_nil_inv_l in Hnil as ->.
    exists m. split; [apply last_snoc|].
    by apply get_message_vars_fields in Hm as (-> & _).
  - intros m Hm.
    destruct (Forall2_elem_r _ _ _ m Hmsgs Hm) as (e' & _ & Hvars).
    apply get_message_vars_fields in Hvars as (-> & -> & _).
    rewrite bool_decide_eq_false. split; [apply dec_stable | by intros ? ?].
Qed.

Lemma get_notif_vars_shape_witness :
  exists nv m,
    get_notif_vars demo_hs (push_action "!r" "$e2" 2) (lit "@alice")
      (message_event "$e2" "@bob" 2) demo_state = Ok nv
    /\ nv_ts nv = Some 2
    /\ last (nv_messages nv) = Some m
    /\ mv_id m = lit "$e2".
Proof.
  destruct (get_notif_vars demo_hs (push_action "!r" "$e2" 2) (lit "@alice")
              (message_event "$e2" "@bob" 2) demo_state) as [nv|e] eqn:Hrun;
    [|by vm_compute in Hrun].
  destruct (get_notif_vars_shape demo_hs _ _ _ _ nv Hrun)
    as (Hts & _ & _ & Hlast & _).
  destruct (Hlast eq_refl) as (m & Hm & Hid).
  exists nv, m. split; [reflexivity|]. split; [exact Hts|].
  split; [exact Hm | exact Hid].
Defined.


(** ** The merge, run by run *)

Lemma merge_notif_nil notifvars : merge_notif [] notifvars = [notifvars].
Proof. reflexivity. Qed.

(** X11.  A merge step never removes or reorders what is there: the event
    ids of the room after the step are those before it followed by new
    ones, the runs before the last one are left as they are, and the number
    of runs stays or grows by one. *)
Theorem merge_notif_keeps_history (notifs : list NotifVars)
    (notifvars : NotifVars) :
  (exists new_ids,
     all_message_ids (merge_notif notifs notifvars)
     = all_message_ids notifs ++ new_ids)
  /\ (length notifs <= length (merge_notif notifs notifvars)
      <= S (length notifs))%nat
  /\ (forall i r, (S i < length notifs)%nat -> notifs !! i = Some r ->
        merge_notif notifs notifvars !! i = Some r).
Proof.
  destruct notifs as [|r0 rs] using rev_ind.
  { rewrite merge_notif_nil. split; [by eexists|]. split; [simpl; lia|].
    intros i r Hi. simpl in Hi. lia. }
  clear IHrs. rewrite merge_notif_snoc. simpl.
  destruct (merge_loop_ids (nv_messages notifvars) (nv_messages r0) false)
    as (app & Hids & _ & _).
  set (res := merge_loop (nv_messages notifvars) (nv_messages r0) false) in *.
  assert (Hlast : all_message_ids [set_messages res.1 r0]
                  = message_ids r0 ++ (mv_id <$> app)).
  { unfold all_message_ids, message_ids. csimpl. by rewrite app_nil_r. }
  assert (Hold : all_message_ids [r0] = message_ids r0).
  { unfold all_message_ids. csimpl. by rewrite app_nil_r. }
  split; [|split].
  - destruct res.2.
    + exists (mv_id <$> app).
      by rewrite !all_message_ids_app, Hlast, Hold, app_assoc.
    + exists ((mv_id <$> app) ++ message_ids notifvars).
      replace (rs ++ [set_messages res.1 r0; notifvars])
        with (rs ++ [set_messages res.1 r0] ++ [notifvars]) by done.
      rewrite !all_message_ids_app, Hlast, Hold, <- !app_assoc.
      do 3 f_equal. unfold all_message_ids. csimpl. by rewrite app_nil_r.
  - destruct res.2; rewrite !length_app; simpl; lia.
  - intros i r Hi Hr. rewrite length_app in Hi. simpl in Hi.
    rewrite lookup_app_l in Hr by lia.
    destruct res.2; by rewrite lookup_app_l by lia.
Qed.

(** X12.  The loop of the merge changes an entry of the previous run in
    one way only: it may clear its historical flag.  Every entry stays at
    its index, with all its other fields. *)
Theorem merge_loop_only_clears_flags (messages prev : list MessageVars)
    (merge : bool) (i : nat) (m : MessageVars) :
  prev !! i = Some m ->
  exists m',
    (merge_loop messages prev merge).1 !! i = Some m'
    /\ (m' = m \/ m' = set_is_historical false m).
Proof. apply merge_loop_only_clears_flags_aux. Qed.

Lemma merge_loop_only_clears_flags_witness :
  exists m',
    (merge_loop [plain_message "$e1" false]
       [plain_message "$e1" true; plain_message "$e2" false] false).1 !! 0%nat
    = Some m'
    /\ (m' = plain_message "$e1" true
        \/ m' = set_is_historical false (plain_message "$e1" true)).
Proof.
  apply (merge_loop_only_clears_flags [plain_message "$e1" false]
           [plain_message "$e1" true; plain_message "$e2" false] false 0
           (plain_message "$e1" true)).
  reflexivity.
Defined.

(** X13.  A message that the incoming notification presents as its trigger
    and whose id is already in the previous run leaves the entry of that id
    non-historical at the end of the loop; and the loop keeps the ids of
    the previous run distinct. *)
Theorem merge_loop_marks_trigger (messages prev : list MessageVars)
    (merge : bool) (m : MessageVars) :
  NoDup (mv_id <$> prev) ->
  m ∈ messages ->
  mv_is_historical m = false ->
  mv_id m ∈ mv_id <$> prev ->
  NoDup (mv_id <$> (merge_loop messages prev merge).1)
  /\ forall m', m' ∈ (merge_loop messages prev merge).1 ->
       mv_id m' = mv_id m -> mv_is_historical m' = false.
Proof.
  intros Hnd Hm Hhist Hin. split; [by apply merge_loop_NoDup|].
  assert (Hex : exists m0, m0 ∈ (merge_loop messages prev merge).1
                  /\ mv_id m0 = mv_id m /\ mv_is_historical m0 = false).
  { clear Hnd. revert prev merge Hin.
    induction messages as [|x ms IH]; intros prev merge Hin; simpl.
    { by apply elem_of_nil in Hm. }
    apply elem_of_cons in Hm as [<-|Hm].
    - destruct (matching (mv_id m) prev) eqn:Hmatch.
      { apply matching_nil in Hmatch. done. }
      rewrite Hhist. apply merge_loop_keeps_cleared.
      by apply unset_historical_clears.
    - destruct (matching (mv_id x) prev).
      + destruct merge; [|by apply IH]. apply IH; [done|].
        rewrite fmap_app. apply elem_of_app. by left.
      + destruct (mv_is_historical x); [by apply IH|].
        apply IH; [done|]. by rewrite unset_historical_ids. }
  destruct Hex as (m0 & Hm0 & Hid0 & Hhist0). intros m' Hm' Hid'.
  assert (m' = m0) as ->; [|done].
  assert (Hnd' := merge_loop_NoDup messages prev merge Hnd).
  apply list_elem_of_lookup in Hm' as [i Hi], Hm0 as [j Hj].
  assert (i = j) as ->; [|congruence].
  apply (NoDup_lookup _ i j (mv_id m') Hnd');
    rewrite list_lookup_fmap; [by rewrite Hi|].
  rewrite Hj. simpl. by rewrite Hid0, Hid'.
Qed.

Lemma merge_loop_marks_trigger_witness :
  exists m',
    (merge_loop [plain_message "$e1" false]
       [plain_message "$e1" true; plain_message "$e2" false] false).1 !! 0%nat
    = Some m'
    /\ mv_is_historical m' = false.
Proof.
  eexists. split; [reflexivity|].
  apply (proj2 (merge_loop_marks_trigger [plain_message "$e1" false]
                  [plain_message "$e1" true; plain_message "$e2" false] false
                  (plain_message "$e1" false) ltac:(by_compute)
                  ltac:(constructor) eq_refl ltac:(by_compute))).
  - left.
  - reflexivity.
Defined.

Lemma merge_loop_disjoint messages prev :
  Forall (fun m => mv_id m ∉ mv_id <$> prev) messages ->
  merge_loop messages prev false = (prev, false).
Proof.
  induction 1 as [|m ms Hm _ IH]; simpl; [done|].
  apply matching_nil in Hm. by rewrite Hm.
Qed.

(** X14.  Merging is local to the last run.  A notification none of whose
    messages is in the last run becomes a new run and leaves every run as
    it is, also when its messages are in earlier runs; a notification with
    a message in the last run adds no run. *)
Theorem merge_notif_local (notifs : list NotifVars) (prev notifvars : NotifVars) :
  (Forall (fun m => mv_id m ∉ message_ids prev) (nv_messages notifvars) ->
   merge_notif (notifs ++ [prev]) notifvars = notifs ++ [prev; notifvars])
  /\ (Exists (fun m => mv_id m ∈ message_ids prev) (nv_messages notifvars) ->
      length (merge_notif (notifs ++ [prev]) notifvars)
      = length (notifs ++ [prev])).
Proof.
  rewrite merge_notif_snoc. simpl. split.
  - intros Hnone. rewrite merge_loop_disjoint by exact Hnone. simpl.
    by rewrite set_messages_same.
  - intros Hsome.
    destruct (merge_loop_cases (nv_messages notifvars) (nv_messages prev))
      as [(_ & _ & Hnone)|(-> & _)].
    + exfalso. apply Exists_exists in Hsome as (m & Hm & Hin).
      by apply (proj1 (Forall_forall _ _) Hnone m Hm).
    + by rewrite !length_app.
Qed.

Lemma merge_notif_local_witness :
  merge_notif
    [run_of [plain_message "$e1" false]; run_of [plain_message "$e5" false]]
    (run_of [plain_message "$e1" false])
  = [run_of [plain_message "$e1" false]; run_of [plain_message "$e5" false];
     run_of [plain_message "$e1" false]].
Proof.
  apply (proj1 (merge_notif_local [run_of [plain_message "$e1" false]]
                  (run_of [plain_message "$e5" false])
                  (run_of [plain_message "$e1" false]))).
  by_compute.
Defined.

(** X15.  The overlap the merge is made for: when the first message of a
    notification is already in the last run, no run is added and every
    message of the notification has its id in the last run afterwards, the
    new ones appended in the order of the notification. *)
Theorem merge_notif_overlap (notifs : list NotifVars)
    (prev notifvars : NotifVars) (first : MessageVars)
    (rest : list MessageVars) :
  nv_messages notifvars = first :: rest ->
  mv_id first ∈ message_ids prev ->
  exists merged appended,
    merge_notif (notifs ++ [prev]) notifvars
    = notifs ++ [set_messages merged prev]
    /\ mv_id <$> merged = message_ids prev ++ (mv_id <$> appended)
    /\ sublist appended rest
    /\ forall m, m ∈ nv_messages notifvars -> mv_id m ∈ mv_id <$> merged.
Proof.
  intros Hmsgs Hfirst. rewrite merge_notif_snoc, Hmsgs. simpl.
  destruct (matching (mv_id first) (nv_messages prev)) as [|pm pms] eqn:Hmatch.
  { apply matching_nil in Hmatch. done. }
  set (prev' := if mv_is_historical first then nv_messages prev
                else unset_historical (mv_id first) (nv_messages prev)).
  assert (Hids' : mv_id <$> prev' = message_ids prev).
  { unfold prev', message_ids. destruct (mv_is_historical first); [done|].
    apply unset_historical_ids. }
  rewrite merge_loop_merging.
  destruct (merge_loop_ids rest prev' true) as (appended & Hids & Hsub & _).
  exists (merge_loop rest prev' true).1, appended.
  split; [done|]. split; [by rewrite Hids, Hids'|]. split; [done|].
  intros m [->|Hm]%elem_of_cons.
  - rewrite Hids, Hids'. apply elem_of_app. by left.
  - by apply merge_loop_merging_all.
Qed.

Lemma merge_notif_overlap_witness :
  exists merged,
    merge_notif [run_of [plain_message "$e1" true; plain_message "$e2" false]]
      (run_of [plain_message "$e2" true; plain_message "$e3" false])
    = [set_messages merged
         (run_of [plain_message "$e1" true; plain_message "$e2" false])]
    /\ mv_id <$> merged = [lit "$e1"; lit "$e2"; lit "$e3"].
Proof.
  destruct (merge_notif_overlap []
              (run_of [plain_message "$e1" true; plain_message "$e2" false])
              (run_of [plain_message "$e2" true; plain_message "$e3" false])
              (plain_message "$e2" true) [plain_message "$e3" false])
    as (merged & appended & Hruns & _ & _ & _).
  - reflexivity.
  - by_compute.
  - exists merged. split; [exact Hruns|].
    vm_compute in Hruns. by injection Hruns as <-.
Defined.

(** ** The runs of a room *)

Lemma get_notif_vars_link_ts hs notif user_id notif_event st nv :
  get_notif_vars hs notif user_id notif_event st = Ok nv ->
  nv_link nv = make_notif_link hs notif /\ nv_ts nv = pa_received_ts notif.
Proof.
  unfold get_notif_vars. intros Hrun. bind_inv Hrun.
  apply ret_Ok in Hrun. by subst nv.
Qed.

Lemma merge_notif_head r0 rs notifvars :
  exists r0' rs',
    merge_notif (r0 :: rs) notifvars = r0' :: rs'
    /\ nv_link r0' = nv_link r0 /\ nv_ts r0' = nv_ts r0
    /\ (length rs <= length rs' <= S (length rs))%nat.
Proof.
  destruct (exists_last (l := r0 :: rs)) as (init & prev & Heq); [done|].
  rewrite Heq, merge_notif_snoc. simpl.
  assert (Hlen : length rs = length init).
  { apply (f_equal length) in Heq. rewrite length_app in Heq.
    simpl in Heq. lia. }
  destruct init as [|i0 init]; simpl in Heq.
  - injection Heq as <- ->. simpl.
    destruct (merge_loop _ _ _).2; eexists _, _; (split; [done|]);
      simpl; repeat split; lia.
  - injection Heq as <- ->.
    destruct (merge_loop _ _ _).2; eexists _, _; (split; [done|]);
      simpl in *; rewrite ?length_app in *; simpl in *; repeat split; lia.
Qed.

Lemma room_loop_from hs user_id notif_events st notifs r0 rs runs :
  foldlM (room_notif_step hs user_id notif_events st) (r0 :: rs) notifs
  = Ok runs ->
  exists r0' rs',
    runs = r0' :: rs'
    /\ nv_link r0' = nv_link r0 /\ nv_ts r0' = nv_ts r0
    /\ (length rs' <= length rs + length notifs)%nat.
Proof.
  revert r0 rs. induction notifs as [|n notifs IH]; intros r0 rs Hrun;
    simpl in Hrun.
  - injection Hrun as <-. exists r0, rs. repeat split; lia.
  - bind_inv Hrun. unfold room_notif_step in Hstep. bind_inv Hstep.
    apply ret_Ok in Hstep. subst a.
    destruct (merge_notif_head r0 rs a1)
      as (r1 & rs1 & Hmerge & Hlink & Hts & Hlen).
    rewrite Hmerge in Hrun.
    destruct (IH r1 rs1 Hrun) as (r0' & rs' & -> & Hlink' & Hts' & Hlen').
    exists r0', rs'. repeat split; [congruence..|]. simpl. lia.
Qed.

(** X16.  For a joined recipient, the room has at most as many runs as it
    has notifications, none without notifications and at least one
    otherwise; and the first run keeps the link and the timestamp of the
    first notification, whatever is merged into it. *)
Theorem get_room_vars_runs (hs : Homeserver) (room_id user_id : pystr)
    (notifs : list PushAction) (notif_events : gmap pystr Event)
    (room_state_ids : StateIds) (rv : RoomVars) :
  get_room_vars hs room_id user_id notifs notif_events room_state_ids = Ok rv ->
  rv_invite rv = false ->
  (length (rv_notifs rv) <= length notifs)%nat
  /\ (notifs = [] -> rv_notifs rv = [])
  /\ (forall n rest, notifs = n :: rest ->
        exists r0 rs,
          rv_notifs rv = r0 :: rs
          /\ nv_link r0 = make_notif_link hs n
          /\ nv_ts r0 = pa_received_ts n).
Proof.
  intros Hrun Hjoined.
  apply get_room_vars_Ok in Hrun
    as (mid & mev & membership & _ & _ & _ & _ & _ & _ & _ & Hloop).
  rewrite Hjoined in Hloop. destruct notifs as [|n rest]; simpl in Hloop.
  { injection Hloop as <-. split; [done|]. split; [done|]. by intros n rest. }
  bind_inv Hloop. unfold room_notif_step in Hstep. bind_inv Hstep.
  apply ret_Ok in Hstep. subst a. rewrite merge_notif_nil in Hloop.
  apply get_notif_vars_link_ts in Hstep1 as [Hlink Hts].
  destruct (room_loop_from _ _ _ _ _ _ _ _ Hloop)
    as (r0 & rs & Hruns & Hlink' & Hts' & Hlen).
  rewrite Hruns. split; [simpl in *; lia|]. split; [done|].
  intros n' rest' [= <- <-]. exists r0, rs. split; [done|].
  split; congruence.
Qed.

Lemma get_room_vars_runs_witness :
  exists rv r0 rs,
    get_room_vars demo_hs (lit "!r") (lit "@alice") ordered_notifs demo_events
      demo_state = Ok rv
    /\ rv_notifs rv = r0 :: rs
    /\ nv_ts r0 = Some 2
    /\ (length (rv_notifs rv) <= 3)%nat.
Proof.
  destruct (get_room_vars demo_hs (lit "!r") (lit "@alice") ordered_notifs
              demo_events demo_state) as [rv|e] eqn:Hrun;
    [|by vm_compute in Hrun].
  destruct (get_room_vars_runs demo_hs _ _ _ _ _ rv Hrun)
    as (Hlen & _ & Hfirst).
  { vm_compute in Hrun. by injection Hrun as <-. }
  destruct (Hfirst _ _ eq_refl) as (r0 & rs & Hruns & _ & Hts).
  exists rv, r0, rs. split; [reflexivity|]. split; [exact Hruns|].
  split; [exact Hts | exact Hlen].
Defined.

(** ** [make_summary_text] *)

(** X17.  [make_summary_text] ends without a subject in one case only:
    exactly one room has notifications, that room has exactly one
    notification, the recipient is not invited there, and the sender of the
    notified event has no membership event in the room state or no name.
    Every other call that returns gives a subject. *)
Theorem make_summary_text_None_only (hs : Homeserver)
    (notifs_by_room : gmap pystr (list PushAction))
    (room_state_ids : gmap pystr StateIds) (notif_events : gmap pystr Event)
    (user_id : pystr) (reason : Reason) :
  make_summary_text hs notifs_by_room room_state_ids notif_events user_id
    reason = Ok None ->
  exists room_id notif room_state member_event_id member_event membership event,
    size notifs_by_room = 1%nat
    /\ notifs_by_room !! room_id = Some [notif]
    /\ room_state_ids !! room_id = Some room_state
    /\ room_state !! (lit "m.room.member", user_id) = Some member_event_id
    /\ get_event hs member_event_id = Ok member_event
    /\ ev_content member_event !! lit "membership" = Some membership
    /\ membership ≠ JStr (lit "invite")
    /\ notif_events !! pa_event_id notif = Some event
    /\ match room_state !! (lit "m.room.member", ev_sender event) with
       | Some state_event_id =>
           exists state_event,
             get_event hs state_event_id = Ok state_event
             /\ name_from_member_event hs state_event = None
       | None => True
       end.
Proof.
  unfold make_summary_text. case_bool_decide as Hsize.
  - destruct (map_to_list notifs_by_room) as [|[room_id room_notifs] others]
      eqn:Hlist; [done|].
    assert (Hroom : notifs_by_room !! room_id = Some room_notifs).
    { apply elem_of_map_to_list. rewrite Hlist. left. }
    intros Hrun. bind_inv Hrun.
    apply getitem_Ok in Hstep, Hstep1, Hstep3.
    case_bool_decide as Hinvite.
    { bind_inv Hrun. by destruct a0. }
    destruct room_notifs as [|notif [|notif' more]].
    + destruct a0; [done|]. bind_inv Hrun. done.
    + bind_inv Hrun. apply getitem_Ok in Hstep4.
      exists room_id, notif, a, a1, a2, a3, a4.
      repeat split; try done.
      destruct (a !! (lit "m.room.member", ev_sender a4)) as [sid|];
        [|done].
      bind_inv Hstep5. apply ret_Ok in Hstep5. subst a5.
      exists a6. split; [done|].
      destruct (name_from_member_event hs a6); [|done]. by destruct a0.
    + destruct a0; [done|]. bind_inv Hrun. done.
  - intros Hrun. destruct (reason_room_name reason); [done|].
    bind_inv Hrun. done.
Qed.

Lemma make_summary_text_None_only_witness :
  exists room_id notif,
    ({[ lit "!r" := [push_action "!r" "$c1" 1] ]}
       : gmap pystr (list PushAction)) !! room_id = Some [notif].
Proof.
  destruct (make_summary_text_None_only (world_server carol_world)
              {[ lit "!r" := [push_action "!r" "$c1" 1] ]}
              {[ lit "!r" := demo_state ]} {[ lit "$c1" := carol_event ]}
              (lit "@alice") demo_reason)
    as (room_id & notif & room_state & mid & mev & membership & event
        & _ & Hnotif & _).
  - reflexivity.
  - exists room_id, notif. exact Hnotif.
Defined.

(** X18.  When the recipient is invited to the only room with
    notifications, the subject is the invitation by the sender of the
    recipient's membership event, with the room name when the room has one;
    the notifications of the room and their events play no part. *)
Theorem make_summary_text_invite (hs : Homeserver) (room_id user_id : pystr)
    (room_notifs : list PushAction) (room_state_ids : gmap pystr StateIds)
    (notif_events : gmap pystr Event) (reason : Reason)
    (room_state : StateIds) (room_name : option pystr)
    (member_event_id inviter_event_id : pystr)
    (member_event inviter_event : Event) :
  room_state_ids !! room_id = Some room_state ->
  calculate_room_name hs room_state user_id (Some false) = Ok room_name ->
  room_state !! (lit "m.room.member", user_id) = Some member_event_id ->
  get_event hs member_event_id = Ok member_event ->
  ev_content member_event !! lit "membership" = Some (JStr (lit "invite")) ->
  room_state !! (lit "m.room.member", ev_sender member_event)
  = Some inviter_event_id ->
  get_event hs inviter_event_id = Ok inviter_event ->
  make_summary_text hs {[ room_id := room_notifs ]} room_state_ids
    notif_events user_id reason
  = Ok (Some
      match room_name with
      | None =>
          invite_from_person (name_from_member_event hs inviter_event)
            (app_name hs)
      | Some room =>
          invite_from_person_to_room
            (name_from_member_event hs inviter_event) room (app_name hs)
      end).
Proof.
  intros Hstate Hname Hmember Hevent Hmembership Hinviter Hinviter_event.
  unfold make_summary_text.
  rewrite map_size_singleton, bool_decide_eq_true_2 by done.
  rewrite map_to_list_singleton.
  apply getitem_Ok in Hstate, Hmember, Hmembership, Hinviter.
  rewrite Hstate. simpl. rewrite Hname. simpl. rewrite Hmember. simpl.
  rewrite Hevent. simpl. rewrite Hmembership. simpl.
  rewrite Hinviter. simpl. rewrite Hinviter_event. simpl.
  by destruct room_name.
Qed.

Lemma make_summary_text_invite_witness :
  make_summary_text (world_server invite_world)
    {[ lit "!r" := [push_action "!r" "$e2" 2; push_action "!r" "$e3" 3] ]}
    {[ lit "!r" := invite_state ]} ∅ (lit "@alice") demo_reason
  = Ok (Some (invite_from_person (Some (lit "@bob")) (lit "Matrix"))).
Proof.
  apply (make_summary_text_invite (world_server invite_world) (lit "!r")
           (lit "@alice") _ {[ lit "!r" := invite_state ]} ∅ demo_reason
           invite_state None (lit "$ia") (lit "$mb")
           (member_event "$ia" "@bob" "invite")
           (member_event "$mb" "@bob" "join")); reflexivity.
Defined.

(** X19.  The senders that a subject names are the distinct senders of the
    notified events, each once; a notification whose event is missing from
    [notif_events] makes the lookup raise [KeyError]. *)
Theorem sender_ids_of_distinct (notif_events : gmap pystr Event)
    (notifs : list PushAction) :
  (forall sender_ids,
     sender_ids_of notif_events notifs = Ok sender_ids ->
     NoDup sender_ids
     /\ forall s, s ∈ sender_ids <->
          exists n event, n ∈ notifs
            /\ notif_events !! pa_event_id n = Some event
            /\ ev_sender event = s)
  /\ (forall n, n ∈ notifs -> notif_events !! pa_event_id n = None ->
        sender_ids_of notif_events notifs = Err KeyError).
Proof.
  unfold sender_ids_of. split.
  - intros sender_ids Hrun. bind_inv Hrun. apply ret_Ok in Hrun. subst.
    split; [apply NoDup_elements|]. intros s.
    rewrite elem_of_elements, elem_of_list_to_set.
    apply mapM_Ok_Forall2 in Hstep. split.
    + intros Hs. destruct (Forall2_elem_r _ _ _ s Hstep Hs) as (n & Hn & Hf).
      bind_inv Hf. apply getitem_Ok in Hstep0. apply ret_Ok in Hf. eauto.
    + intros (n & event & Hn & Hevent & <-).
      destruct (Forall2_elem_l _ _ _ n Hstep Hn) as (s & Hs & Hf).
      apply getitem_Ok in Hevent. rewrite Hevent in Hf. simpl in Hf.
      by injection Hf as <-.
  - intros n Hn Hmissing.
    induction notifs as [|n' notifs IH]; [by apply elem_of_nil in Hn|].
    simpl. destruct (notif_events !! pa_event_id n') as [event|] eqn:Hevent.
    + apply elem_of_cons in Hn as [->|Hn]; [congruence|].
      apply getitem_Ok in Hevent. rewrite Hevent. simpl.
      specialize (IH Hn).
      destruct (mapM _ notifs) as [senders|e]; simpl in *; [done|].
      by injection IH as ->.
    + by rewrite getitem_missing.
Qed.

Lemma sender_ids_of_distinct_witness :
  sender_ids_of demo_events [push_action "!r" "$e2" 2; push_action "!r" "$zz" 3]
  = Err KeyError.
Proof.
  apply (proj2 (sender_ids_of_distinct demo_events
                  [push_action "!r" "$e2" 2; push_action "!r" "$zz" 3])
           (push_action "!r" "$zz" 3)).
  - right. left.
  - reflexivity.
Defined.

(** ** [send_notification_mail] *)

(** X20.  [send_notification_mail] ends with an exception whenever the room
    of [reason] is not a room of the batch, since the state of that room is
    then not in [state_by_room]; in particular an empty batch never gives a
    mail. *)
Theorem send_notification_mail_needs_reason_room (hs : Homeserver)
    (app_id user_id email_address : pystr) (push_actions : list PushAction)
    (reason : Reason) :
  reason_room_id reason ∉ pa_room_id <$> push_actions ->
  exists e,
    send_notification_mail hs app_id user_id email_address push_actions
      reason = Err e.
Proof.
  intros Hreason.
  destruct (send_notification_mail hs app_id user_id email_address
              push_actions reason) as [mail|e] eqn:Hrun; [|by exists e].
  exfalso. unfold send_notification_mail in Hrun. bind_inv Hrun.
  destruct (fetch_room_states hs _ _ _ Hstep1) as [_ Hother].
  apply getitem_Ok in Hstep4. rewrite Hother in Hstep4; [done|].
  rewrite deduped_ordered_list_first_seen. by rewrite elem_of_first_seen.
Qed.

Lemma send_notification_mail_needs_reason_room_witness :
  exists e,
    send_notification_mail demo_hs (lit "m.email") (lit "@alice")
      (lit "alice@example.org") [] demo_reason = Err e.
Proof.
  apply (send_notification_mail_needs_reason_room demo_hs (lit "m.email")
           (lit "@alice") (lit "alice@example.org") [] demo_reason).
  by_compute.
Defined.

(** X21.  A mail that [send_notification_mail] hands to [send_email] goes
    to the given address, has the summary text as its subject, and has one
    entry of room variables for each distinct room of the batch, in the
    order of [rooms_in_order], each with the hash and the link of its
    room; the reason keeps its room id. *)
Theorem send_notification_mail_rooms (hs : Homeserver)
    (app_id user_id email_address : pystr) (push_actions : list PushAction)
    (reason : Reason) (mail : Email) :
  send_notification_mail hs app_id user_id email_address push_actions reason
  = Ok mail ->
  email_to mail = email_address
  /\ email_subject mail = tv_summary_text (email_vars mail)
  /\ tv_app_name (email_vars mail) = app_name hs
  /\ reason_room_id (tv_reason (email_vars mail)) = reason_room_id reason
  /\ exists ordered,
       rooms_in_order push_actions = Ok ordered
       /\ Forall2 (fun r rv => rv_hash rv = string_ordinal_total r
                               /\ rv_link rv = make_room_link hs r)
            ordered (tv_rooms (email_vars mail)).
Proof.
  intros Hrun. unfold send_notification_mail in Hrun. bind_inv Hrun.
  apply ret_Ok in Hrun. subst mail. simpl.
  split; [done|]. split; [done|]. split; [done|]. split; [done|].
  exists a2. split; [done|]. apply mapM_Ok_Forall2 in Hstep3.
  eapply Forall2_impl; [exact Hstep3|]. simpl. intros r rv Hr.
  bind_inv Hr.
  apply get_room_vars_Ok in Hr
    as (mid & mev & membership & _ & _ & _ & _ & Hhash & Hlink & _).
  done.
Qed.

Lemma send_notification_mail_rooms_witness :
  exists mail,
    send_notification_mail demo_hs (lit "m.email") (lit "@alice")
      (lit "alice@example.org") [push_action "!r" "$e2" 2] demo_reason
    = Ok mail
    /\ email_to mail = lit "alice@example.org"
    /\ length (tv_rooms (email_vars mail)) = 1%nat.
Proof.
  destruct (send_notification_mail demo_hs (lit "m.email") (lit "@alice")
              (lit "alice@example.org") [push_action "!r" "$e2" 2]
              demo_reason) as [mail|e] eqn:Hrun; [|by vm_compute in Hrun].
  destruct (send_notification_mail_rooms demo_hs _ _ _ _ _ mail Hrun)
    as (Hto & _ & _ & _ & ordered & Hordered & Hrooms).
  exists mail. split; [reflexivity|]. split; [exact Hto|].
  apply Forall2_length in Hrooms. rewrite <- Hrooms.
  vm_compute in Hordered. by injection Hordered as <-.
Defined.

(** X22.  The display name of the recipient: a [StoreError] of the profile
    lookup is never passed on; the name is the one of the profile when
    there is one, and the user id itself when the profile has none or the
    lookup raises [StoreError]. *)
Theorem get_user_display_name_fallback (hs : Homeserver) (user_id : pystr) :
  get_user_display_name hs user_id ≠ Err StoreError
  /\ (forall lp, localpart hs user_id = Ok lp ->
        (forall name, get_profile_displayname hs lp = Ok (Some name) ->
           get_user_display_name hs user_id = Ok name)
        /\ (get_profile_displayname hs lp = Ok None
            \/ get_profile_displayname hs lp = Err StoreError ->
            get_user_display_name hs user_id = Ok user_id))
  /\ (forall name, get_user_display_name hs user_id = Ok name ->
        name = user_id
        \/ exists lp, localpart hs user_id = Ok lp
                      /\ get_profile_displayname hs lp = Ok (Some name)).
Proof.
  unfold get_user_display_name. split; [|split].
  - destruct (localpart hs user_id) as [lp|[]]; simpl; try done.
    destruct (get_profile_displayname hs lp) as [[name|]|[]]; done.
  - intros lp ->. simpl. split.
    + by intros name ->.
    + by intros [->| ->].
  - intros name. destruct (localpart hs user_id) as [lp|[]]; simpl;
      try done; [|intros [= <-]; by left].
    destruct (get_profile_displayname hs lp) as [[name'|]|[]] eqn:Hprofile;
      try done.
    + intros [= <-]. right. by exists lp.
    + intros [= <-]. by left.
    + intros [= <-]. by left.
Qed.

Lemma get_user_display_name_fallback_witness :
  get_user_display_name demo_hs (lit "@alice") = Ok (lit "@alice").
Proof.
  destruct (get_user_display_name_fallback demo_hs (lit "@alice"))
    as (_ & Hfallback & _).
  apply (proj2 (Hfallback (lit "@alice") eq_refl)). by left.
Defined.

(** ** [notifs_by_room] *)

(** X23.  The dictionary [notifs_by_room] partitions the batch: under each
    room id it has the notifications of that room in batch order, never an
    empty list; every notification of the batch is in the list of its
    room; and it has as many keys as the batch has distinct rooms, so that
    [len(notifs_by_room) == 1] means that one room has notifications. *)
Theorem group_by_room_partition (push_actions : list PushAction) :
  (forall r l, group_by_room push_actions !! r = Some l ->
     l = notifs_of_room push_actions r /\ l ≠ []
     /\ r ∈ pa_room_id <$> push_actions)
  /\ (forall pa, pa ∈ push_actions ->
        exists l, group_by_room push_actions !! pa_room_id pa = Some l
                  /\ pa ∈ l)
  /\ size (group_by_room push_actions)
     = length (deduped_ordered_list (pa_room_id <$> push_actions)).
Proof.
  split; [|split].
  - intros r l. rewrite group_by_room_lookup. case_decide as Hnil; [done|].
    intros [= <-]. split; [done|]. split; [done|].
    by apply notifs_of_room_nonempty.
  - intros pa Hpa. rewrite group_by_room_lookup.
    assert (Hin : pa ∈ notifs_of_room push_actions (pa_room_id pa))
      by (by apply list_elem_of_filter).
    rewrite decide_False; [eauto|].
    intros Hnil. rewrite Hnil in Hin. by apply elem_of_nil in Hin.
  - rewrite deduped_ordered_list_first_seen.
    rewrite <- (size_dom (D := gset pystr)).
    rewrite <- (size_list_to_set (C := gset pystr)) by apply NoDup_first_seen.
    f_equal. apply set_eq. intros r.
    rewrite elem_of_dom, elem_of_list_to_set, elem_of_first_seen,
      group_by_room_lookup, notifs_of_room_nonempty.
    case_decide as Hnil; split; intros Hsome; done.
Qed.

Lemma group_by_room_partition_witness :
  exists l,
    group_by_room unordered_batch !! lit "!a" = Some l
    /\ push_action "!a" "$2" 5 ∈ l
    /\ size (group_by_room unordered_batch) = 2%nat.
Proof.
  destruct (group_by_room_partition unordered_batch) as (_ & Hin & Hsize).
  destruct (Hin (push_action "!a" "$2" 5)) as (l & Hl & Hpa).
  { right. left. }
  exists l. split; [exact Hl|]. split; [exact Hpa|].
  rewrite Hsize. reflexivity.
Defined.

Lemma merge_notif_keeps_history_witness :
  merge_notif
    [run_of [plain_message "$e1" false]; run_of [plain_message "$e5" false]]
    (run_of [plain_message "$e5" true; plain_message "$e6" false]) !! 0%nat
  = Some (run_of [plain_message "$e1" false]).
Proof.
  apply (proj2 (proj2 (merge_notif_keeps_history
                         [run_of [plain_message "$e1" false];
                          run_of [plain_message "$e5" false]]
                         (run_of [plain_message "$e5" true;
                                  plain_message "$e6" false])))).
  - simpl. lia.
  - reflexivity.
Defined.

(** X24.  With one room, one notification there and a recipient who is not
    invited, a sender with a membership event in the room state gives the
    subject "message from the sender in the room" when the room has a
    name, and "message from the sender" when it has none. *)
Theorem make_summary_text_single_message (hs : Homeserver)
    (room_id user_id : pystr) (notif : PushAction)
    (room_state_ids : gmap pystr StateIds) (notif_events : gmap pystr Event)
    (reason : Reason) (room_state : StateIds) (room_name : option pystr)
    (member_event_id state_event_id : pystr)
    (member_event event state_event : Event) (membership : json)
    (sender_name : pystr) :
  room_state_ids !! room_id = Some room_state ->
  calculate_room_name hs room_state user_id (Some false) = Ok room_name ->
  room_state !! (lit "m.room.member", user_id) = Some member_event_id ->
  get_event hs member_event_id = Ok member_event ->
  ev_content member_event !! lit "membership" = Some membership ->
  membership ≠ JStr (lit "invite") ->
  notif_events !! pa_event_id notif = Some event ->
  room_state !! (lit "m.room.member", ev_sender event) = Some state_event_id ->
  get_event hs state_event_id = Ok state_event ->
  name_from_member_event hs state_event = Some sender_name ->
  make_summary_text hs {[ room_id := [notif] ]} room_state_ids notif_events
    user_id reason
  = Ok (Some
      match room_name with
      | Some room =>
          message_from_person_in_room sender_name room (app_name hs)
      | None => message_from_person sender_name (app_name hs)
      end).
Proof.
  intros Hstate Hname Hmember Hevent Hmembership Hjoined Hnotif Hsender
    Hsender_event Hsender_name.
  unfold make_summary_text.
  rewrite map_size_singleton, bool_decide_eq_true_2 by done.
  rewrite map_to_list_singleton.
  apply getitem_Ok in Hstate, Hmember, Hmembership, Hnotif.
  rewrite Hstate. simpl. rewrite Hname. simpl. rewrite Hmember. simpl.
  rewrite Hevent. simpl. rewrite Hmembership. simpl.
  rewrite bool_decide_eq_false_2 by done.
  rewrite Hnotif. simpl. rewrite Hsender, Hsender_event. simpl.
  rewrite Hsender_name. by destruct room_name.
Qed.

Lemma make_summary_text_single_message_witness :
  make_summary_text demo_hs {[ lit "!r" := [push_action "!r" "$e2" 2] ]}
    {[ lit "!r" := demo_state ]} demo_events (lit "@alice") demo_reason
  = Ok (Some (message_from_person (lit "@bob") (lit "Matrix"))).
Proof.
  apply (make_summary_text_single_message demo_hs (lit "!r") (lit "@alice")
           (push_action "!r" "$e2" 2) {[ lit "!r" := demo_state ]} demo_events
           demo_reason demo_state None (lit "$ma") (lit "$mb")
           (member_event "$ma" "@alice" "join") (message_event "$e2" "@bob" 2)
           (member_event "$mb" "@bob" "join") (JStr (lit "join"))
           (lit "@bob")); try reflexivity.
  by_compute.
Defined.

(** X25.  Subjects that name a room need no event: with several
    notifications in the only room, a joined recipient and a room name,
    the subject is "messages in the room"; and with notifications in no
    room or in more than one, a named reason room gives "messages in the
    room and others".  Neither reads [notif_events], and the second reads
    no room state either. *)
Theorem make_summary_text_named_rooms (hs : Homeserver) (user_id : pystr)
    (room_state_ids : gmap pystr StateIds) (notif_events : gmap pystr Event)
    (reason : Reason) :
  (forall room_id n1 n2 more room_state room member_event_id member_event
          membership,
     room_state_ids !! room_id = Some room_state ->
     calculate_room_name hs room_state user_id (Some false) = Ok (Some room) ->
     room_state !! (lit "m.room.member", user_id) = Some member_event_id ->
     get_event hs member_event_id = Ok member_event ->
     ev_content member_event !! lit "membership" = Some membership ->
     membership ≠ JStr (lit "invite") ->
     make_summary_text hs {[ room_id := n1 :: n2 :: more ]} room_state_ids
       notif_events user_id reason
     = Ok (Some (messages_in_room room (app_name hs))))
  /\ (forall notifs_by_room room,
        size notifs_by_room ≠ 1%nat ->
        reason_room_name reason = Some room ->
        make_summary_text hs notifs_by_room room_state_ids notif_events
          user_id reason
        = Ok (Some (messages_in_room_and_others room (app_name hs)))).
Proof.
  split.
  - intros room_id n1 n2 more room_state room mid mev membership
      Hstate Hname Hmember Hevent Hmembership Hjoined.
    unfold make_summary_text.
    rewrite map_size_singleton, bool_decide_eq_true_2 by done.
    rewrite map_to_list_singleton.
    apply getitem_Ok in Hstate, Hmember, Hmembership.
    rewrite Hstate. simpl. rewrite Hname. simpl. rewrite Hmember. simpl.
    rewrite Hevent. simpl. rewrite Hmembership. simpl.
    by rewrite bool_decide_eq_false_2 by done.
  - intros notifs_by_room room Hsize Hreason. unfold make_summary_text.
    rewrite bool_decide_eq_false_2 by done. by rewrite Hreason.
Qed.

Lemma make_summary_text_named_rooms_witness :
  make_summary_text demo_hs ∅ ∅ ∅ (lit "@alice")
    {| reason_room_id := lit "!r"; reason_room_name := Some (lit "Room") |}
  = Ok (Some (messages_in_room_and_others (lit "Room") (lit "Matrix"))).
Proof.
  apply (proj2 (make_summary_text_named_rooms demo_hs (lit "@alice") ∅ ∅
                  {| reason_room_id := lit "!r";
                     reason_room_name := Some (lit "Room") |})).
  - by_compute.
  - reflexivity.
Defined.

(** X26.  A notification whose event [get_events] did not return aborts
    its room: [get_room_vars] then returns only for an invited recipient,
    without messages, and raises for a joined one. *)
Theorem missing_notif_event_aborts_room (hs : Homeserver)
    (room_id user_id : pystr) (notifs : list PushAction)
    (notif_events : gmap pystr Event) (room_state_ids : StateIds)
    (n : PushAction) :
  n ∈ notifs ->
  notif_events !! pa_event_id n = None ->
  forall rv,
    get_room_vars hs room_id user_id notifs notif_events room_state_ids
    = Ok rv ->
    rv_invite rv = true /\ rv_notifs rv = [].
Proof.
  intros Hn Hmissing rv Hrun.
  apply get_room_vars_Ok in Hrun
    as (mid & mev & membership & _ & _ & _ & _ & _ & _ & _ & Hloop).
  destruct (rv_invite rv); [done|]. exfalso.
  destruct (foldlM_Ok_elem _ _ _ _ n Hloop Hn) as (runs & runs' & Hstep).
  unfold room_notif_step in Hstep. bind_inv Hstep.
  apply getitem_Ok in Hstep0. congruence.
Qed.

Lemma missing_notif_event_aborts_room_witness :
  exists rv,
    get_room_vars (world_server invite_world) (lit "!r") (lit "@alice")
      [push_action "!r" "$e2" 2; push_action "!r" "$zz" 3] demo_events
      invite_state = Ok rv
    /\ rv_invite rv = true /\ rv_notifs rv = [].
Proof.
  destruct (get_room_vars (world_server invite_world) (lit "!r")
              (lit "@alice")
              [push_action "!r" "$e2" 2; push_action "!r" "$zz" 3] demo_events
              invite_state) as [rv|e] eqn:Hrun; [|by vm_compute in Hrun].
  exists rv. split; [reflexivity|].
  apply (missing_notif_event_aborts_room (world_server invite_world)
           (lit "!r") (lit "@alice")
           [push_action "!r" "$e2" 2; push_action "!r" "$zz" 3] demo_events
           invite_state (push_action "!r" "$zz" 3)).
  - right. left.
  - reflexivity.
  - exact Hrun.
Defined.
